(** * The mobile input-request broker (monitoring.ts), embedded in Rocq

    The broker is the singleton [MonitoringManager] of the listener: it keeps
    a table of connected devices, a table of pending input requests and a
    durable table of APNs tokens, and turns the blocking
    [requestMobileInput] call into a round trip to the devices.

    The embedding is shallow.  The manager's private fields and the parts of
    the JavaScript runtime that its code touches (WebSocket objects, armed
    timers, promises, the APNs provider) are the fields of one record,
    [Manager]; every method is a function on it, and every callback that
    the event loop runs (a connection, a message, a pong, the closing of a
    socket, a timer) is one too.  A method that can throw returns a
    [Completion].

    Beside the manager the file embeds the callers of its methods in
    server.ts: [authMiddleware] with [constantTimeCompare], the handler of
    [GET /monitor/status] and the handler of [POST /input-request].

    What the model leaves out or fixes:
    - calls to the logger: they change nothing the broker reads back;
    - dates are milliseconds since the epoch and numbers are integers;
    - where the characters of a string matter (the [Authorization] header,
      the text given to [detectInputPattern]) a string is a sequence of code
      units below 256;
    - [Map.forEach] visits a table in the order of [map_to_list]; no
      statement below depends on that order.  The token table, which the
      push loop iterates, keeps the order of insertion ([tokenOrder]);
    - the loop of [sendApnsPushToDisconnectedDevices] awaits each push.  It
      runs inside [requestMobileInput] up to its first call of
      [provider.send] and goes on, one call at a time, when the event loop
      delivers the answer of the provider (the event [PushSettled]); in
      between, other events run, and the loop reads the tables as it then
      finds them;
    - a timer records the delay that [setTimeout] was given; Node runs it
      after [runsAfter] milliseconds.  The model has no clock: the order of
      the events of a run is the order in which the event loop runs them;
    - of the [ws] library: [close] and [terminate] leave an open socket in
      the state CLOSING, and the ['close'] event follows later. *)

From stdpp Require Import base option list strings gmap sets pretty.
From Stdlib Require Import ZArith Lia.

Local Open Scope Z_scope.

(** ** Constants of the source *)

Definition HEARTBEAT_INTERVAL : Z := 30000.
Definition SESSION_TIMEOUT : Z := 300000.
Definition DEFAULT_INPUT_TIMEOUT_MINUTES : Z := 30.

(** ** JavaScript values *)

(** [x || d] on a string that may be [null]/[undefined]: the empty string is
    falsy as well. *)
Definition truthy (o : option string) : bool :=
  match o with
  | Some s => negb (String.eqb s "")
  | None => false
  end.

Definition orElse (o : option string) (d : string) : string :=
  if truthy o then default d o else d.

(** [x || undefined]. *)
Definition orUndefined (o : option string) : option string :=
  if truthy o then o else None.

(** The outcome of a call that may throw (or of an awaited promise that may
    reject). *)
Inductive Completion (A : Type) : Type :=
  | Normal (a : A)
  | Throw (message : string).
Arguments Normal {A} a.
Arguments Throw {A} message.

(** ** types.ts *)

Inductive InputType : Set := numeric | yesno | text.

Inductive SessionStatus : Set := active | disconnected.

Record MonitoringSession : Type := mkSession {
  deviceId : string;
  deviceName : string;
  apnsToken : option string;
  startTime : Z;
  lastSeen : Z;
  status : SessionStatus;
  reconnectAttempts : nat;
}.

Inductive MonitoringMessageType : Set :=
  | handshake | handshake_ack | heartbeat | heartbeat_ack
  | input_required | input_response | task_complete | session_update
  | error.

Record InputRequiredPayload : Type := mkInputRequired {
  irSessionId : string;
  irProjectTag : string;
  irPrompt : string;
  irOptions : list string;
  irInputType : InputType;
}.

Record HandshakeAckPayload : Type := mkHandshakeAck {
  listenerId : string;
  listenerName : string;
  version : string;
  activeSessions : nat;
}.

(** The payload of a message is an untyped JSON object in the source, cast
    to the interface that the message type calls for.  The fields of an
    incoming payload may be missing, hence the options. *)
Inductive Payload : Type :=
  | PInputRequired (p : InputRequiredPayload)
  | PHandshakeAck (p : HandshakeAckPayload)
  | PHandshake (hsDeviceName : option string)
  | PInputResponse (rspSessionId : option string) (rspResponse : string)
  | PTaskComplete (tcSessionId tcProjectTag : string) (tcSummary : option string).

Record MonitoringMessage : Type := mkMessage {
  type : MonitoringMessageType;
  timestamp : Z;
  payload : option Payload;
}.

(** [(message.payload as HandshakePayload)?.deviceName] and the like. *)
Definition payloadDeviceName (p : option Payload) : option string :=
  match p with
  | Some (PHandshake n) => n
  | _ => None
  end.

Definition payloadSessionId (p : option Payload) : option string :=
  match p with
  | Some (PInputResponse s _) => s
  | Some (PInputRequired q) => Some (irSessionId q)
  | Some (PTaskComplete s _ _) => Some s
  | _ => None
  end.

Definition payloadResponse (p : option Payload) : string :=
  match p with
  | Some (PInputResponse _ r) => r
  | _ => ""
  end.

Record ApnsConfig : Type := mkApnsConfig {
  enabled : bool;
  key_path : option string;
  key_id : option string;
  team_id : option string;
  bundle_id : option string;
  production : option bool;
}.

Record MonitoringConfig : Type := mkMonitoringConfig {
  input_timeout_minutes : Z;
  apns : option ApnsConfig;
}.

(** Of [Config] the broker reads the listener's identity and the monitoring
    section. *)
Record Config : Type := mkConfig {
  listener_id : string;
  listener_friendly_name : string;
  listener_auth_token : string;
  monitoring : option MonitoringConfig;
}.

(** The body of a successful [/input-request] reply. *)
Record InputRequestResponse : Type := mkInputRequestResponse {
  response : string;
  responded_by : string;
  response_time_ms : Z;
}.

(** ** The runtime objects the broker holds *)

(** [WebSocket.readyState]. *)
Inductive ReadyState : Set := CONNECTING | OPEN | CLOSING | CLOSED.

Global Instance ReadyState_eq_dec : EqDecision ReadyState.
Proof. solve_decision. Defined.

Global Instance SessionStatus_eq_dec : EqDecision SessionStatus.
Proof. solve_decision. Defined.

(** A WebSocket object.  [sent] is what [ws.send] has written, oldest first;
    [closeFrame] is the argument list of the [ws.close] call that started
    the closing handshake; [listeners] holds the [deviceId] and [deviceName]
    captured by the handlers that [handleConnection] attaches. *)
Record Socket : Type := mkSocket {
  readyState : ReadyState;
  sent : list MonitoringMessage;
  pings : nat;
  closeFrame : option (option (Z * string));
  terminated : bool;
  listeners : option (string * string);
}.

Definition freshSocket : Socket :=
  mkSocket OPEN [] 0 None false None.

(** What the caller of [requestMobileInput] holds is a promise; the [resolve]
    and [reject] functions stored in a pending request are the two ways to
    settle it. *)
Inductive RequestError : Type :=
  | TimedOut (effectiveTimeout : Z)
      (* `Mobile input request timed out after ${effectiveTimeout / 1000} seconds` *)
  | Cancelled.
      (* 'Input request cancelled' *)

Inductive Settlement : Type :=
  | Resolved (answer : string)
  | Rejected (e : RequestError).

(** The callback of an armed [setTimeout]: the deadline of a request, or the
    eviction of a session whose channel closed. *)
Inductive TimerCallback : Type :=
  | InputDeadline (sid : string) (promise : nat) (effectiveTimeout : Z)
  | SessionExpiry (dev : string).

(** [delay] is the delay that the call of [setTimeout] asks for. *)
Record Timer : Type := mkTimer {
  delay : Z;
  callback : TimerCallback;
}.

(** The largest delay of a Node timer, in milliseconds. *)
Definition TIMEOUT_MAX : Z := 2147483647.

(** After how many milliseconds Node runs the callback of a timer: after the
    delay asked for when that lies between 1 and [TIMEOUT_MAX], and after
    one millisecond for every other delay. *)
Definition runsAfter (t : Timer) : Z :=
  if bool_decide (1 ≤ delay t ≤ TIMEOUT_MAX) then delay t else 1.

(** An [apn.Notification] as [sendApnsPush] fills it in. *)
Record Notification : Type := mkNotification {
  expiry : Z;
  badge : Z;
  sound : string;
  alertTitle : string;
  alertBody : string;
  topic : string;
  nSessionId : string;
  nProjectTag : string;
  nOptions : list string;
  nInputType : InputType;
  pushType : string;
}.

(** The result of [provider.send]: the tokens it reached and the ones it
    failed for. *)
Record SendResult : Type := mkSendResult {
  sentTo : list string;
  failed : list string;
}.

(** The APNs provider is a collaborator: its [send] is whatever the push
    service answers, a rejection included. *)
Record Provider : Type := mkProvider {
  send : Notification → string → Completion SendResult;
}.

Record ProviderOptions : Type := mkProviderOptions {
  optKey : string;
  optKeyId : string;
  optTeamId : string;
  optProduction : bool;
}.

Record ConnectedClient : Type := mkClient {
  ws : nat;
  session : MonitoringSession;
  isAlive : bool;
}.

Record PendingInputRequest : Type := mkPending {
  requestId : string;
  sessionId : string;
  projectTag : string;
  prompt : string;
  options : list string;
  inputType : InputType;
  createdAt : Z;
  promise : nat;        (* the [resolve]/[reject] pair *)
  timeoutId : nat;
  notifiedDevices : gset string;
  pushedViaApns : gset string;
}.

(** A call of [sendApnsPushToDisconnectedDevices] that is suspended at its
    [await]: [provider.send] has been called for the device [plDevice] and
    its promise has not settled yet.  The loop holds the payload and the
    [pendingRequest] object it was called with ([plSessionId] is the key the
    object was filed under, [plPushed] its [pushedViaApns], which only this
    loop writes) and the iterator over [deviceApnsTokens.entries()], which
    has passed [plNext] entries.  [plAnswer] is what the promise of
    [provider.send] settles to. *)
Record PushLoop : Type := mkPushLoop {
  plPayload : InputRequiredPayload;
  plSessionId : string;
  plPushed : gset string;
  plDevice : string;
  plNext : nat;
  plAnswer : Completion SendResult;
}.

(** ** The manager *)

(** [deviceApnsTokens] is a [Map] that is iterated while it can grow: its
    keys are kept in [tokenOrder] in the order of their insertion, which is
    the order of [entries()]; no key is ever deleted.  [pushLoops] holds the
    suspended push loops, each under the promise of its request, which
    stands for the [pendingRequest] object.  [attempted] records the calls
    of [this.sendApnsPush] that the loops make, each with the request and
    the device of the iteration; [pushes] records the calls of
    [provider.send]. *)
Record Manager : Type := mkManager {
  (* fields of [MonitoringManager] *)
  wss : bool;
  clients : gmap string ConnectedClient;
  pendingRequests : gmap string PendingInputRequest;
  heartbeatInterval : option nat;
  config : option Config;
  apnsProvider : option Provider;
  inputTimeoutMs : Z;
  deviceApnsTokens : gmap string string;
  (* the runtime *)
  sockets : gmap nat Socket;
  nextSocket : nat;
  timers : gmap nat Timer;
  intervals : gmap nat Z;
  nextTimer : nat;
  nextPromise : nat;
  settled : list (nat * Settlement);
  pushes : list (string * Notification);
  providerShutdowns : nat;
  (* the order of the keys of [deviceApnsTokens], loops that wait *)
  tokenOrder : list string;
  pushLoops : gmap nat PushLoop;
  attempted : list (nat * string);
}.

(** [new MonitoringManager()]. *)
Definition newManager : Manager :=
  {| wss := false; clients := ∅; pendingRequests := ∅;
     heartbeatInterval := None; config := None; apnsProvider := None;
     inputTimeoutMs := DEFAULT_INPUT_TIMEOUT_MINUTES * 60 * 1000;
     deviceApnsTokens := ∅;
     sockets := ∅; nextSocket := 0%nat; timers := ∅; intervals := ∅;
     nextTimer := 0%nat;
     nextPromise := 0%nat; settled := []; pushes := [];
     providerShutdowns := 0%nat;
     tokenOrder := []; pushLoops := ∅; attempted := [] |}.

(** Field updates. *)

Definition set_wss (v : bool) (m : Manager) : Manager :=
  {| wss := v; clients := clients m; pendingRequests := pendingRequests m;
     heartbeatInterval := heartbeatInterval m; config := config m;
     apnsProvider := apnsProvider m; inputTimeoutMs := inputTimeoutMs m;
     deviceApnsTokens := deviceApnsTokens m; sockets := sockets m;
     nextSocket := nextSocket m; timers := timers m;
     intervals := intervals m; nextTimer := nextTimer m;
     nextPromise := nextPromise m; settled := settled m; pushes := pushes m;
     providerShutdowns := providerShutdowns m;
     tokenOrder := tokenOrder m; pushLoops := pushLoops m;
     attempted := attempted m |}.

Definition set_clients (v : gmap string ConnectedClient) (m : Manager) : Manager :=
  {| wss := wss m; clients := v; pendingRequests := pendingRequests m;
     heartbeatInterval := heartbeatInterval m; config := config m;
     apnsProvider := apnsProvider m; inputTimeoutMs := inputTimeoutMs m;
     deviceApnsTokens := deviceApnsTokens m; sockets := sockets m;
     nextSocket := nextSocket m; timers := timers m;
     intervals := intervals m; nextTimer := nextTimer m;
     nextPromise := nextPromise m; settled := settled m; pushes := pushes m;
     providerShutdowns := providerShutdowns m;
     tokenOrder := tokenOrder m; pushLoops := pushLoops m;
     attempted := attempted m |}.

Definition set_pendingRequests (v : gmap string PendingInputRequest) (m : Manager) : Manager :=
  {| wss := wss m; clients := clients m; pendingRequests := v;
     heartbeatInterval := heartbeatInterval m; config := config m;
     apnsProvider := apnsProvider m; inputTimeoutMs := inputTimeoutMs m;
     deviceApnsTokens := deviceApnsTokens m; sockets := sockets m;
     nextSocket := nextSocket m; timers := timers m;
     intervals := intervals m; nextTimer := nextTimer m;
     nextPromise := nextPromise m; settled := settled m; pushes := pushes m;
     providerShutdowns := providerShutdowns m;
     tokenOrder := tokenOrder m; pushLoops := pushLoops m;
     attempted := attempted m |}.

Definition set_heartbeatInterval (v : option nat) (m : Manager) : Manager :=
  {| wss := wss m; clients := clients m;
     pendingRequests := pendingRequests m; heartbeatInterval := v;
     config := config m; apnsProvider := apnsProvider m;
     inputTimeoutMs := inputTimeoutMs m;
     deviceApnsTokens := deviceApnsTokens m; sockets := sockets m;
     nextSocket := nextSocket m; timers := timers m;
     intervals := intervals m; nextTimer := nextTimer m;
     nextPromise := nextPromise m; settled := settled m; pushes := pushes m;
     providerShutdowns := providerShutdowns m;
     tokenOrder := tokenOrder m; pushLoops := pushLoops m;
     attempted := attempted m |}.

Definition set_config (v : option Config) (m : Manager) : Manager :=
  {| wss := wss m; clients := clients m;
     pendingRequests := pendingRequests m;
     heartbeatInterval := heartbeatInterval m; config := v;
     apnsProvider := apnsProvider m; inputTimeoutMs := inputTimeoutMs m;
     deviceApnsTokens := deviceApnsTokens m; sockets := sockets m;
     nextSocket := nextSocket m; timers := timers m;
     intervals := intervals m; nextTimer := nextTimer m;
     nextPromise := nextPromise m; settled := settled m; pushes := pushes m;
     providerShutdowns := providerShutdowns m;
     tokenOrder := tokenOrder m; pushLoops := pushLoops m;
     attempted := attempted m |}.

Definition set_apnsProvider (v : option Provider) (m : Manager) : Manager :=
  {| wss := wss m; clients := clients m;
     pendingRequests := pendingRequests m;
     heartbeatInterval := heartbeatInterval m; config := config m;
     apnsProvider := v; inputTimeoutMs := inputTimeoutMs m;
     deviceApnsTokens := deviceApnsTokens m; sockets := sockets m;
     nextSocket := nextSocket m; timers := timers m;
     intervals := intervals m; nextTimer := nextTimer m;
     nextPromise := nextPromise m; settled := settled m; pushes := pushes m;
     providerShutdowns := providerShutdowns m;
     tokenOrder := tokenOrder m; pushLoops := pushLoops m;
     attempted := attempted m |}.

Definition set_inputTimeoutMs (v : Z) (m : Manager) : Manager :=
  {| wss := wss m; clients := clients m;
     pendingRequests := pendingRequests m;
     heartbeatInterval := heartbeatInterval m; config := config m;
     apnsProvider := apnsProvider m; inputTimeoutMs := v;
     deviceApnsTokens := deviceApnsTokens m; sockets := sockets m;
     nextSocket := nextSocket m; timers := timers m;
     intervals := intervals m; nextTimer := nextTimer m;
     nextPromise := nextPromise m; settled := settled m; pushes := pushes m;
     providerShutdowns := providerShutdowns m;
     tokenOrder := tokenOrder m; pushLoops := pushLoops m;
     attempted := attempted m |}.

Definition set_deviceApnsTokens (v : gmap string string) (m : Manager) : Manager :=
  {| wss := wss m; clients := clients m;
     pendingRequests := pendingRequests m;
     heartbeatInterval := heartbeatInterval m; config := config m;
     apnsProvider := apnsProvider m; inputTimeoutMs := inputTimeoutMs m;
     deviceApnsTokens := v; sockets := sockets m; nextSocket := nextSocket m;
     timers := timers m; intervals := intervals m; nextTimer := nextTimer m;
     nextPromise := nextPromise m; settled := settled m; pushes := pushes m;
     providerShutdowns := providerShutdowns m;
     tokenOrder := tokenOrder m; pushLoops := pushLoops m;
     attempted := attempted m |}.

Definition set_sockets (v : gmap nat Socket) (m : Manager) : Manager :=
  {| wss := wss m; clients := clients m;
     pendingRequests := pendingRequests m;
     heartbeatInterval := heartbeatInterval m; config := config m;
     apnsProvider := apnsProvider m; inputTimeoutMs := inputTimeoutMs m;
     deviceApnsTokens := deviceApnsTokens m; sockets := v;
     nextSocket := nextSocket m; timers := timers m;
     intervals := intervals m; nextTimer := nextTimer m;
     nextPromise := nextPromise m; settled := settled m; pushes := pushes m;
     providerShutdowns := providerShutdowns m;
     tokenOrder := tokenOrder m; pushLoops := pushLoops m;
     attempted := attempted m |}.

Definition set_nextSocket (v : nat) (m : Manager) : Manager :=
  {| wss := wss m; clients := clients m;
     pendingRequests := pendingRequests m;
     heartbeatInterval := heartbeatInterval m; config := config m;
     apnsProvider := apnsProvider m; inputTimeoutMs := inputTimeoutMs m;
     deviceApnsTokens := deviceApnsTokens m; sockets := sockets m;
     nextSocket := v; timers := timers m; intervals := intervals m;
     nextTimer := nextTimer m; nextPromise := nextPromise m;
     settled := settled m; pushes := pushes m;
     providerShutdowns := providerShutdowns m;
     tokenOrder := tokenOrder m; pushLoops := pushLoops m;
     attempted := attempted m |}.

Definition set_timers (v : gmap nat Timer) (m : Manager) : Manager :=
  {| wss := wss m; clients := clients m;
     pendingRequests := pendingRequests m;
     heartbeatInterval := heartbeatInterval m; config := config m;
     apnsProvider := apnsProvider m; inputTimeoutMs := inputTimeoutMs m;
     deviceApnsTokens := deviceApnsTokens m; sockets := sockets m;
     nextSocket := nextSocket m; timers := v; intervals := intervals m;
     nextTimer := nextTimer m; nextPromise := nextPromise m;
     settled := settled m; pushes := pushes m;
     providerShutdowns := providerShutdowns m;
     tokenOrder := tokenOrder m; pushLoops := pushLoops m;
     attempted := attempted m |}.

Definition set_intervals (v : gmap nat Z) (m : Manager) : Manager :=
  {| wss := wss m; clients := clients m;
     pendingRequests := pendingRequests m;
     heartbeatInterval := heartbeatInterval m; config := config m;
     apnsProvider := apnsProvider m; inputTimeoutMs := inputTimeoutMs m;
     deviceApnsTokens := deviceApnsTokens m; sockets := sockets m;
     nextSocket := nextSocket m; timers := timers m; intervals := v;
     nextTimer := nextTimer m; nextPromise := nextPromise m;
     settled := settled m; pushes := pushes m;
     providerShutdowns := providerShutdowns m;
     tokenOrder := tokenOrder m; pushLoops := pushLoops m;
     attempted := attempted m |}.

Definition set_nextTimer (v : nat) (m : Manager) : Manager :=
  {| wss := wss m; clients := clients m;
     pendingRequests := pendingRequests m;
     heartbeatInterval := heartbeatInterval m; config := config m;
     apnsProvider := apnsProvider m; inputTimeoutMs := inputTimeoutMs m;
     deviceApnsTokens := deviceApnsTokens m; sockets := sockets m;
     nextSocket := nextSocket m; timers := timers m;
     intervals := intervals m; nextTimer := v; nextPromise := nextPromise m;
     settled := settled m; pushes := pushes m;
     providerShutdowns := providerShutdowns m;
     tokenOrder := tokenOrder m; pushLoops := pushLoops m;
     attempted := attempted m |}.

Definition set_nextPromise (v : nat) (m : Manager) : Manager :=
  {| wss := wss m; clients := clients m;
     pendingRequests := pendingRequests m;
     heartbeatInterval := heartbeatInterval m; config := config m;
     apnsProvider := apnsProvider m; inputTimeoutMs := inputTimeoutMs m;
     deviceApnsTokens := deviceApnsTokens m; sockets := sockets m;
     nextSocket := nextSocket m; timers := timers m;
     intervals := intervals m; nextTimer := nextTimer m; nextPromise := v;
     settled := settled m; pushes := pushes m;
     providerShutdowns := providerShutdowns m;
     tokenOrder := tokenOrder m; pushLoops := pushLoops m;
     attempted := attempted m |}.

Definition set_settled (v : list (nat * Settlement)) (m : Manager) : Manager :=
  {| wss := wss m; clients := clients m;
     pendingRequests := pendingRequests m;
     heartbeatInterval := heartbeatInterval m; config := config m;
     apnsProvider := apnsProvider m; inputTimeoutMs := inputTimeoutMs m;
     deviceApnsTokens := deviceApnsTokens m; sockets := sockets m;
     nextSocket := nextSocket m; timers := timers m;
     intervals := intervals m; nextTimer := nextTimer m;
     nextPromise := nextPromise m; settled := v; pushes := pushes m;
     providerShutdowns := providerShutdowns m;
     tokenOrder := tokenOrder m; pushLoops := pushLoops m;
     attempted := attempted m |}.

Definition set_pushes (v : list (string * Notification)) (m : Manager) : Manager :=
  {| wss := wss m; clients := clients m;
     pendingRequests := pendingRequests m;
     heartbeatInterval := heartbeatInterval m; config := config m;
     apnsProvider := apnsProvider m; inputTimeoutMs := inputTimeoutMs m;
     deviceApnsTokens := deviceApnsTokens m; sockets := sockets m;
     nextSocket := nextSocket m; timers := timers m;
     intervals := intervals m; nextTimer := nextTimer m;
     nextPromise := nextPromise m; settled := settled m; pushes := v;
     providerShutdowns := providerShutdowns m;
     tokenOrder := tokenOrder m; pushLoops := pushLoops m;
     attempted := attempted m |}.

Definition set_providerShutdowns (v : nat) (m : Manager) : Manager :=
  {| wss := wss m; clients := clients m;
     pendingRequests := pendingRequests m;
     heartbeatInterval := heartbeatInterval m; config := config m;
     apnsProvider := apnsProvider m; inputTimeoutMs := inputTimeoutMs m;
     deviceApnsTokens := deviceApnsTokens m; sockets := sockets m;
     nextSocket := nextSocket m; timers := timers m;
     intervals := intervals m; nextTimer := nextTimer m;
     nextPromise := nextPromise m; settled := settled m; pushes := pushes m;
     providerShutdowns := v;
     tokenOrder := tokenOrder m; pushLoops := pushLoops m;
     attempted := attempted m |}.

Definition set_tokenOrder (v : list string) (m : Manager) : Manager :=
  {| wss := wss m; clients := clients m;
     pendingRequests := pendingRequests m;
     heartbeatInterval := heartbeatInterval m; config := config m;
     apnsProvider := apnsProvider m; inputTimeoutMs := inputTimeoutMs m;
     deviceApnsTokens := deviceApnsTokens m; sockets := sockets m;
     nextSocket := nextSocket m; timers := timers m;
     intervals := intervals m; nextTimer := nextTimer m;
     nextPromise := nextPromise m; settled := settled m; pushes := pushes m;
     providerShutdowns := providerShutdowns m;
     tokenOrder := v; pushLoops := pushLoops m;
     attempted := attempted m |}.

Definition set_pushLoops (v : gmap nat PushLoop) (m : Manager) : Manager :=
  {| wss := wss m; clients := clients m;
     pendingRequests := pendingRequests m;
     heartbeatInterval := heartbeatInterval m; config := config m;
     apnsProvider := apnsProvider m; inputTimeoutMs := inputTimeoutMs m;
     deviceApnsTokens := deviceApnsTokens m; sockets := sockets m;
     nextSocket := nextSocket m; timers := timers m;
     intervals := intervals m; nextTimer := nextTimer m;
     nextPromise := nextPromise m; settled := settled m; pushes := pushes m;
     providerShutdowns := providerShutdowns m;
     tokenOrder := tokenOrder m; pushLoops := v;
     attempted := attempted m |}.

Definition set_attempted (v : list (nat * string)) (m : Manager) : Manager :=
  {| wss := wss m; clients := clients m;
     pendingRequests := pendingRequests m;
     heartbeatInterval := heartbeatInterval m; config := config m;
     apnsProvider := apnsProvider m; inputTimeoutMs := inputTimeoutMs m;
     deviceApnsTokens := deviceApnsTokens m; sockets := sockets m;
     nextSocket := nextSocket m; timers := timers m;
     intervals := intervals m; nextTimer := nextTimer m;
     nextPromise := nextPromise m; settled := settled m; pushes := pushes m;
     providerShutdowns := providerShutdowns m;
     tokenOrder := tokenOrder m; pushLoops := pushLoops m;
     attempted := v |}.

(** ** The runtime: sockets, timers, promises *)

(** [ws.readyState === WebSocket.OPEN]. *)
Definition isOpen (m : Manager) (h : nat) : bool :=
  bool_decide (readyState <$> sockets m !! h = Some OPEN).

Definition updateSocket (f : Socket → Socket) (h : nat) (m : Manager) : Manager :=
  set_sockets (alter f h (sockets m)) m.

(** The methods of a WebSocket that the broker calls.  It calls [close],
    [terminate] and [ping] on open sockets only; [close] and [terminate]
    start the shutdown of the connection, so the socket is no longer open
    when they return, and the ['close'] event follows later. *)
Definition ws_send (msg : MonitoringMessage) (s : Socket) : Socket :=
  mkSocket (readyState s) (sent s ++ [msg]) (pings s) (closeFrame s)
    (terminated s) (listeners s).

Definition ws_close (frame : option (Z * string)) (s : Socket) : Socket :=
  match readyState s with
  | OPEN => mkSocket CLOSING (sent s) (pings s) (Some frame) (terminated s)
              (listeners s)
  | _ => s
  end.

Definition ws_terminate (s : Socket) : Socket :=
  match readyState s with
  | OPEN => mkSocket CLOSING (sent s) (pings s) (closeFrame s) true
              (listeners s)
  | _ => s
  end.

Definition ws_ping (s : Socket) : Socket :=
  mkSocket (readyState s) (sent s) (S (pings s)) (closeFrame s)
    (terminated s) (listeners s).

Definition ws_on (dev name : string) (s : Socket) : Socket :=
  mkSocket (readyState s) (sent s) (pings s) (closeFrame s) (terminated s)
    (Some (dev, name)).

Definition ws_closed (s : Socket) : Socket :=
  mkSocket CLOSED (sent s) (pings s) (closeFrame s) (terminated s)
    (listeners s).

(** [setTimeout(callback, delay)]: arms a one-shot timer and returns its
    handle.  The timer records the delay as given; [runsAfter] is what Node
    makes of it. *)
Definition setTimeout (cb : TimerCallback) (d : Z) (m : Manager) : nat * Manager :=
  let h := nextTimer m in
  (h, set_nextTimer (S h) (set_timers (<[h := mkTimer d cb]> (timers m)) m)).

(** [clearTimeout(handle)]: a cleared timer never fires. *)
Definition clearTimeout (h : nat) (m : Manager) : Manager :=
  set_timers (delete h (timers m)) m.

(** [setInterval(callback, period)]; the manager has one callback for
    intervals, [checkHeartbeats]. *)
Definition setInterval (period : Z) (m : Manager) : nat * Manager :=
  let h := nextTimer m in
  (h, set_nextTimer (S h) (set_intervals (<[h := period]> (intervals m)) m)).

Definition clearInterval (h : nat) (m : Manager) : Manager :=
  set_intervals (delete h (intervals m)) m.

(** Calls of the [resolve] and [reject] functions of a promise, in the order
    they are made. *)
Definition resolve (p : nat) (answer : string) (m : Manager) : Manager :=
  set_settled (settled m ++ [(p, Resolved answer)]) m.

Definition reject (p : nat) (e : RequestError) (m : Manager) : Manager :=
  set_settled (settled m ++ [(p, Rejected e)]) m.

(** How often the continuation [p] has been settled. *)
Definition settlements (p : nat) (m : Manager) : list Settlement :=
  (filter (λ ps, ps.1 = p) (settled m)).*2.

(** [table.forEach((value, key) => body)]. *)
Definition forEach {K V S : Type} `{Countable K}
    (body : V → K → S → S) (table : gmap K V) (s : S) : S :=
  foldl (λ acc kv, body kv.2 kv.1 acc) s (map_to_list table).

(** ** The methods of [MonitoringManager] *)

Definition initializeApns (newProvider : ProviderOptions → Completion Provider)
    (apnsConfig : option ApnsConfig) (m : Manager) : Manager :=
  match apnsConfig with
  | None => m
  | Some c =>
    if negb (enabled c) then m
    else if negb (truthy (key_path c)) || negb (truthy (key_id c))
            || negb (truthy (team_id c)) || negb (truthy (bundle_id c))
    then m
    else
      match newProvider (mkProviderOptions (default "" (key_path c))
                           (default "" (key_id c)) (default "" (team_id c))
                           (default false (production c))) with
      | Normal provider => set_apnsProvider (Some provider) m
      | Throw _ => m
      end
  end.

(** The upgrade handler lets a connection through when its token is the
    listener's; the connections of the model are those it lets through. *)
Definition initialize (newProvider : ProviderOptions → Completion Provider)
    (cfg : Config) (m : Manager) : Manager :=
  let m := set_config (Some cfg) m in
  let m :=
    match monitoring cfg with
    | Some mc =>
      if bool_decide (input_timeout_minutes mc ≠ 0)
      then set_inputTimeoutMs (input_timeout_minutes mc * 60 * 1000) m
      else m
    | None => m
    end in
  let m := initializeApns newProvider (monitoring cfg ≫= apns) m in
  let m := set_wss true m in
  let '(h, m) := setInterval HEARTBEAT_INTERVAL m in
  set_heartbeatInterval (Some h) m.

(** [this.config?.monitoring?.apns?.bundle_id]. *)
Definition configuredBundleId (m : Manager) : option string :=
  c ← config m; mc ← monitoring c; a ← apns mc; bundle_id a.

(** The notification that [sendApnsPush] builds; it expires an hour from
    [now]. *)
Definition newNotification (payload : InputRequiredPayload) (now : Z)
    (bundle : string) : Notification :=
  {| expiry := now / 1000 + 3600; badge := 1; sound := "default";
     alertTitle := "Claude Needs Input"; alertBody := irPrompt payload;
     topic := bundle;
     nSessionId := irSessionId payload;
     nProjectTag := irProjectTag payload;
     nOptions := irOptions payload;
     nInputType := irInputType payload; pushType := "alert" |}.

(** [sendApnsPush(deviceToken, payload)] up to its [await].  [None]: the
    guard has returned [false] and the provider has not been called.
    [Some answer]: [provider.send] has been called and [answer] is what its
    promise settles to; a [send] that throws at once is caught by the same
    [catch] as a rejection and is not told apart from one. *)
Definition sendApnsPush (deviceToken : string) (payload : InputRequiredPayload)
    (now : Z) (m : Manager) : option (Completion SendResult) * Manager :=
  match apnsProvider m with
  | None => (None, m)
  | Some provider =>
    if negb (truthy (configuredBundleId m)) then (None, m)
    else
      let notification :=
        newNotification payload now (default "" (configuredBundleId m)) in
      (* [pushes] records the call of [provider.send] *)
      let m := set_pushes (pushes m ++ [(deviceToken, notification)]) m in
      (Some (send provider notification deviceToken), m)
  end.

(** [sendApnsPush] from its [await] on: the value it returns when the
    promise of [provider.send] has settled. *)
Definition pushDelivered (answer : Completion SendResult) : bool :=
  match answer with
  | Normal result => negb (bool_decide (0 < length (failed result))%nat)
  | Throw _ => false       (* catch (err) { ... return false; } *)
  end.

Definition sendMessage (h : nat) (message : MonitoringMessage) (m : Manager) : Manager :=
  if isOpen m h then updateSocket (ws_send message) h m else m.

Definition payloadOf (request : PendingInputRequest) : InputRequiredPayload :=
  {| irSessionId := sessionId request; irProjectTag := projectTag request;
     irPrompt := prompt request; irOptions := options request;
     irInputType := inputType request |}.

Definition addNotified (dev : string) (request : PendingInputRequest) : PendingInputRequest :=
  mkPending (requestId request) (sessionId request) (projectTag request)
    (prompt request) (options request) (inputType request)
    (createdAt request) (promise request) (timeoutId request)
    ({[dev]} ∪ notifiedDevices request) (pushedViaApns request).

Definition addPushed (dev : string) (request : PendingInputRequest) : PendingInputRequest :=
  mkPending (requestId request) (sessionId request) (projectTag request)
    (prompt request) (options request) (inputType request)
    (createdAt request) (promise request) (timeoutId request)
    (notifiedDevices request) ({[dev]} ∪ pushedViaApns request).

Definition resendPendingRequestsToDevice (dev : string) (h : nat) (now : Z)
    (m : Manager) : Manager :=
  forEach (λ request sid m,
    if bool_decide (dev ∈ notifiedDevices request) then m
    else
      let m := sendMessage h (mkMessage input_required now
                                (Some (PInputRequired (payloadOf request)))) m in
      set_pendingRequests
        (<[sid := addNotified dev request]> (pendingRequests m)) m)
    (pendingRequests m) m.

Definition handshakeAck (cfg : Config) (now : Z) (m : Manager) : MonitoringMessage :=
  mkMessage handshake_ack now
    (Some (PHandshakeAck
       {| listenerId := listener_id cfg;
          listenerName := listener_friendly_name cfg;
          version := "1.0.0";
          activeSessions := size (clients m) |})).

(** [this.deviceApnsTokens.set(deviceId, apnsToken)]: a new key goes to the
    end of the order of iteration, a key that is there keeps its place. *)
Definition setToken (dev t : string) (m : Manager) : Manager :=
  set_tokenOrder
    (if bool_decide (is_Some (deviceApnsTokens m !! dev)) then tokenOrder m
     else tokenOrder m ++ [dev])
    (set_deviceApnsTokens (<[dev := t]> (deviceApnsTokens m)) m).

(** [handleConnection(ws, request)]: [h] is the new socket and the three
    options are the [deviceId], [deviceName] and [apnsToken] parameters of
    the request's query string. *)
Definition handleConnection (h : nat) (qDeviceId qDeviceName qApnsToken : option string)
    (now : Z) (m : Manager) : Manager :=
  let dev := orElse qDeviceId "unknown" in
  let name := orElse qDeviceName "Unknown Device" in
  let token := orUndefined qApnsToken in
  (* Store APNs token for this device (persists across reconnects) *)
  let m :=
    match token with
    | Some t => setToken dev t m
    | None => m
    end in
  let fresh := mkSession dev name token now now active 0 in
  (* Check for existing session (reconnection) *)
  let '(newSession, m) :=
    match clients m !! dev with
    | Some existingClient =>
      let old := session existingClient in
      let token' :=
        if negb (bool_decide (is_Some token)) && truthy (apnsToken old)
        then apnsToken old else token in
      (mkSession dev name token' (startTime old) now active
         (S (reconnectAttempts old)),
       (* Close old connection if still open *)
       if isOpen m (ws existingClient)
       then updateSocket (ws_close None) (ws existingClient) m
       else m)
    | None => (fresh, m)
    end in
  let m := set_clients (<[dev := mkClient h newSession true]> (clients m)) m in
  (* Re-send any pending input requests to the reconnected device *)
  let m := resendPendingRequestsToDevice dev h now m in
  match config m with
  | None => m      (* [this.config!.listener] throws: nothing below runs *)
  | Some cfg =>
    let m := sendMessage h (handshakeAck cfg now m) m in
    updateSocket (ws_on dev name) h m
  end.

Definition touch (now : Z) (s : MonitoringSession) : MonitoringSession :=
  mkSession (deviceId s) (deviceName s) (apnsToken s) (startTime s) now
    (status s) (reconnectAttempts s).

Definition rename (name : string) (s : MonitoringSession) : MonitoringSession :=
  mkSession (deviceId s) name (apnsToken s) (startTime s) (lastSeen s)
    (status s) (reconnectAttempts s).

Definition setStatus (st : SessionStatus) (s : MonitoringSession) : MonitoringSession :=
  mkSession (deviceId s) (deviceName s) (apnsToken s) (startTime s)
    (lastSeen s) st (reconnectAttempts s).

Definition withSession (f : MonitoringSession → MonitoringSession)
    (c : ConnectedClient) : ConnectedClient :=
  mkClient (ws c) (f (session c)) (isAlive c).

Definition setAlive (b : bool) (c : ConnectedClient) : ConnectedClient :=
  mkClient (ws c) (session c) b.

Definition handleInputResponse (sid : string) (answer : string) (name : string)
    (m : Manager) : Manager :=
  match pendingRequests m !! sid with
  | None => m
  | Some pendingRequest =>
    (* Clear timeout and resolve the promise *)
    let m := clearTimeout (timeoutId pendingRequest) m in
    let m := set_pendingRequests (delete sid (pendingRequests m)) m in
    resolve (promise pendingRequest) answer m
  end.

Definition handleMessage (dev : string) (message : MonitoringMessage) (now : Z)
    (m : Manager) : Manager :=
  match clients m !! dev with
  | None => m
  | Some client0 =>
    let client := withSession (touch now) client0 in
    let m := set_clients (<[dev := client]> (clients m)) m in
    match type message with
    | handshake =>
      match payload message with
      | Some _ =>
        let name := orElse (payloadDeviceName (payload message))
                      (deviceName (session client)) in
        set_clients (<[dev := withSession (rename name) client]> (clients m)) m
      | None => m
      end
    | heartbeat => sendMessage (ws client) (mkMessage heartbeat_ack now None) m
    | input_response =>
      if truthy (payloadSessionId (payload message))
      then handleInputResponse (default "" (payloadSessionId (payload message)))
             (payloadResponse (payload message))
             (deviceName (session client)) m
      else m
    | _ => m
    end
  end.

Definition checkHeartbeats (m : Manager) : Manager :=
  forEach (λ client dev m,
    if negb (isAlive client) && isOpen m (ws client)
    then updateSocket ws_terminate (ws client) m
    else
      let m := set_clients (<[dev := setAlive false client]> (clients m)) m in
      if isOpen m (ws client) then updateSocket ws_ping (ws client) m else m)
    (clients m) m.

Definition getActiveSessions (m : Manager) : list MonitoringSession :=
  session <$> filter (λ c, status (session c) = active) (map_to_list (clients m)).*2.

Definition getConnectedDeviceCount (m : Manager) : nat :=
  length (filter (λ c, isOpen m (ws c) = true) (map_to_list (clients m)).*2).

Definition getAllSessions (m : Manager) : list MonitoringSession :=
  session <$> (map_to_list (clients m)).*2.

Definition getPendingRequestCount (m : Manager) : nat :=
  size (pendingRequests m).

Definition isApnsEnabled (m : Manager) : bool :=
  bool_decide (is_Some (apnsProvider m)).

(** [notifyInputRequired(payload, pendingRequest?)]: the optional request is
    given by its key in the table. *)
Definition notifyInputRequired (payload : InputRequiredPayload)
    (pendingRequest : option string) (now : Z) (m : Manager) : Manager :=
  let message := mkMessage input_required now (Some (PInputRequired payload)) in
  forEach (λ client dev m,
    if isOpen m (ws client) then
      let m := sendMessage (ws client) message m in
      (* Track that we notified this device *)
      match pendingRequest with
      | Some sid =>
        set_pendingRequests (alter (addNotified dev) sid (pendingRequests m)) m
      | None => m
      end
    else m)
    (clients m) m.

(** [client && client.ws.readyState === WebSocket.OPEN] for the client
    registered under [dev]. *)
Definition isConnected (dev : string) (m : Manager) : bool :=
  match clients m !! dev with
  | Some client => isOpen m (ws client)
  | None => false
  end.

(** [pendingRequest.pushedViaApns] of the request filed under [sid]. *)
Definition pushedFor (sid : string) (m : Manager) : gset string :=
  match pendingRequests m !! sid with
  | Some pendingRequest => pushedViaApns pendingRequest
  | None => ∅
  end.

(** [pendingRequest.pushedViaApns.add(deviceId)]: the object that the loop
    holds is the entry filed under [sid] as long as the entry there has the
    promise [p]; an object that has left the table is out of sight. *)
Definition markPushed (p : nat) (sid dev : string) (m : Manager) : Manager :=
  match pendingRequests m !! sid with
  | Some pendingRequest =>
    if bool_decide (promise pendingRequest = p)
    then set_pendingRequests
           (<[sid := addPushed dev pendingRequest]> (pendingRequests m)) m
    else m
  | None => m
  end.

(** The loop of [sendApnsPushToDisconnectedDevices] over the entries that
    its iterator has not passed yet, [i] being the number of those it has
    passed.  It runs until [provider.send] has been called for a device:
    there the loop waits, and goes on when that promise settles.  A
    [sendApnsPush] that returns at its guard has called nothing; awaiting
    its result gives way to no event, and the loop goes on in the same
    turn of the event loop. *)
Fixpoint pushFrom (payload : InputRequiredPayload) (sid : string) (p : nat)
    (pushed : gset string) (now : Z) (entries : list string) (i : nat)
    (m : Manager) : Manager :=
  match entries with
  | [] => m
  | dev :: entries' =>
    match deviceApnsTokens m !! dev with
    | Some apnsToken =>
      if negb (isConnected dev m) && negb (bool_decide (dev ∈ pushed))
      then
        let m := set_attempted (attempted m ++ [(p, dev)]) m in
        match sendApnsPush apnsToken payload now m with
        | (Some answer, m) =>
          set_pushLoops
            (<[p := mkPushLoop payload sid pushed dev (S i) answer]> (pushLoops m))
            m
        | (None, m) => pushFrom payload sid p pushed now entries' (S i) m
        end
      else pushFrom payload sid p pushed now entries' (S i) m
    | None => pushFrom payload sid p pushed now entries' (S i) m
    end
  end.

(** [sendApnsPushToDisconnectedDevices(payload, pendingRequest)], up to its
    first [await] of a push that is under way.  The request is given by its
    key [sid] and its promise [p]. *)
Definition sendApnsPushToDisconnectedDevices (payload : InputRequiredPayload)
    (sid : string) (p : nat) (now : Z) (m : Manager) : Manager :=
  match apnsProvider m with
  | None => m
  | Some _ => pushFrom payload sid p (pushedFor sid m) now (tokenOrder m) 0 m
  end.

(** The promise of the [provider.send] that the loop of the request [p]
    waits for settles: [sendApnsPush] returns, the loop records the device
    when the push was delivered, and goes on with the entries that the
    table holds by now. *)
Definition onPushSettled (p : nat) (now : Z) (m : Manager) : Manager :=
  match pushLoops m !! p with
  | None => m
  | Some loop =>
    let m := set_pushLoops (delete p (pushLoops m)) m in
    let success := pushDelivered (plAnswer loop) in
    let pushed :=
      if success then {[plDevice loop]} ∪ plPushed loop else plPushed loop in
    let m :=
      if success then markPushed p (plSessionId loop) (plDevice loop) m else m in
    pushFrom (plPayload loop) (plSessionId loop) p pushed now
      (drop (plNext loop) (tokenOrder m)) (plNext loop) m
  end.

Definition noRecipients : string :=
  "No mobile devices connected for monitoring and no APNs tokens available".

(** [input_${Date.now()}_${Math.random().toString(36).slice(2, 8)}]: [rnd] is
    the random suffix. *)
Definition newSessionId (now : Z) (rnd : string) : string :=
  "input_" +:+ pretty now +:+ "_" +:+ rnd.

(** [requestMobileInput(projectTag, prompt, options, inputType, timeoutMs?)].
    The result is the promise handed to the caller, or the error thrown
    before a promise for the request exists. *)
Definition requestMobileInput (tag question : string) (opts : list string)
    (ity : InputType) (timeoutMs : option Z) (now : Z) (rnd : string)
    (m : Manager) : Completion nat * Manager :=
  let effectiveTimeout := default (inputTimeoutMs m) timeoutMs in
  let connectedCount := getConnectedDeviceCount m in
  let hasApnsTokens := bool_decide (0 < size (deviceApnsTokens m))%nat in
  if bool_decide (connectedCount = 0%nat) && negb hasApnsTokens
  then (Throw noRecipients, m)
  else
    let sid := newSessionId now rnd in
    let p := nextPromise m in
    let m := set_nextPromise (S p) m in
    let '(tid, m) := setTimeout (InputDeadline sid p effectiveTimeout)
                       effectiveTimeout m in
    let pendingRequest :=
      {| requestId := sid; sessionId := sid; projectTag := tag;
         prompt := question; options := opts; inputType := ity;
         createdAt := now; promise := p; timeoutId := tid;
         notifiedDevices := ∅; pushedViaApns := ∅ |} in
    let m := set_pendingRequests (<[sid := pendingRequest]> (pendingRequests m)) m in
    let payload := mkInputRequired sid tag question opts ity in
    let m := notifyInputRequired payload (Some sid) now m in
    let m := sendApnsPushToDisconnectedDevices payload sid p now m in
    (Normal p, m).

Definition cancelInputRequest (sid : string) (m : Manager) : bool * Manager :=
  match pendingRequests m !! sid with
  | Some pendingRequest =>
    let m := clearTimeout (timeoutId pendingRequest) m in
    let m := set_pendingRequests (delete sid (pendingRequests m)) m in
    (true, reject (promise pendingRequest) Cancelled m)
  | None => (false, m)
  end.

Definition notifyTaskComplete (sid tag : string) (summary : option string)
    (now : Z) (m : Manager) : Manager :=
  let message := mkMessage task_complete now
                   (Some (PTaskComplete sid tag summary)) in
  forEach (λ client _ m,
    if isOpen m (ws client) then sendMessage (ws client) message m else m)
    (clients m) m.

Definition getInputTimeoutMinutes (m : Manager) : Z :=
  inputTimeoutMs m / 60000.

Definition shutdownFrame : option (Z * string) :=
  Some (1001, "Server shutting down").

Definition shutdown (m : Manager) : Manager :=
  let m :=
    match heartbeatInterval m with
    | Some h => set_heartbeatInterval None (clearInterval h m)
    | None => m
    end in
  let m :=
    forEach (λ client _ m,
      if isOpen m (ws client)
      then updateSocket (ws_close shutdownFrame) (ws client) m
      else m)
      (clients m) m in
  let m := set_clients ∅ m in
  let m := if wss m then set_wss false m else m in
  (* Shutdown APNs provider *)
  let m :=
    match apnsProvider m with
    | Some _ =>
      set_apnsProvider None (set_providerShutdowns (S (providerShutdowns m)) m)
    | None => m
    end in
  (* Clear pending requests *)
  let m := forEach (λ request _ m, clearTimeout (timeoutId request) m)
             (pendingRequests m) m in
  set_pendingRequests ∅ m.

(** ** Callbacks run by the event loop *)

(** The timer [h] comes due.  A cleared timer, or one that has fired, is not
    armed and nothing runs. *)
Definition fireTimer (h : nat) (m : Manager) : Manager :=
  match timers m !! h with
  | None => m
  | Some t =>
    let m := set_timers (delete h (timers m)) m in
    match callback t with
    | InputDeadline sid p effectiveTimeout =>
      let m := set_pendingRequests (delete sid (pendingRequests m)) m in
      reject p (TimedOut effectiveTimeout) m
    | SessionExpiry dev =>
      match clients m !! dev with
      | Some currentClient =>
        if bool_decide (status (session currentClient) = disconnected)
        then set_clients (delete dev (clients m)) m
        else m
      | None => m
      end
    end
  end.

(** The heartbeat interval ticks. *)
Definition tick (h : nat) (m : Manager) : Manager :=
  if bool_decide (is_Some (intervals m !! h)) then checkHeartbeats m else m.

(** The ['close'] event of socket [h]. *)
Definition onClose (h : nat) (m : Manager) : Manager :=
  let m' := updateSocket ws_closed h m in
  match sockets m !! h ≫= listeners with
  | None => m'
  | Some (dev, _) =>
    match clients m' !! dev with
    | Some client =>
      let m' := set_clients
                  (<[dev := withSession (setStatus disconnected) client]>
                     (clients m')) m' in
      (* Don't remove immediately - allow for reconnection *)
      (setTimeout (SessionExpiry dev) SESSION_TIMEOUT m').2
    | None => m'
    end
  end.

(** The ['pong'] event of socket [h]. *)
Definition onPong (h : nat) (now : Z) (m : Manager) : Manager :=
  match sockets m !! h ≫= listeners with
  | None => m
  | Some (dev, _) =>
    match clients m !! dev with
    | Some client =>
      set_clients
        (<[dev := setAlive true
                    (withSession (setStatus active)
                       (withSession (touch now) client))]> (clients m)) m
    | None => m
    end
  end.

(** The ['message'] event of socket [h]; [None] is a frame that
    [JSON.parse] rejects, which the handler catches. *)
Definition onMessage (h : nat) (data : option MonitoringMessage) (now : Z)
    (m : Manager) : Manager :=
  match sockets m !! h ≫= listeners, data with
  | Some (dev, _), Some message => handleMessage dev message now m
  | _, _ => m
  end.

(** The ['connection'] event: the server hands over a new, open socket. *)
Definition onConnection (qDeviceId qDeviceName qApnsToken : option string)
    (now : Z) (m : Manager) : Manager :=
  let h := nextSocket m in
  let m := set_nextSocket (S h) (set_sockets (<[h := freshSocket]> (sockets m)) m) in
  handleConnection h qDeviceId qDeviceName qApnsToken now m.

(** The [/input-request] handler of the HTTP layer, from the moment the
    awaited promise is fulfilled with [userResponse]. *)
Definition inputRequestReply (started now : Z) (userResponse : string) : InputRequestResponse :=
  {| response := userResponse; responded_by := "mobile";
     response_time_ms := now - started |}.

(** ** The broker as a transition system *)

(** Everything that makes the event loop enter the manager's code. *)
Inductive Event : Type :=
  | Initialize (newProvider : ProviderOptions → Completion Provider) (cfg : Config)
  | Connection (qDeviceId qDeviceName qApnsToken : option string) (now : Z)
  | Message (h : nat) (data : option MonitoringMessage) (now : Z)
  | Pong (h : nat) (now : Z)
  | Close (h : nat)
  | TimerDue (h : nat)
  | Tick (h : nat)
  | RequestInput (tag question : string) (opts : list string) (ity : InputType)
      (timeoutMs : option Z) (now : Z) (rnd : string)
  | CancelInput (sid : string)
  | Shutdown
  | PushSettled (p : nat) (now : Z).

Definition step (m : Manager) (e : Event) : Manager :=
  match e with
  | Initialize newProvider cfg => initialize newProvider cfg m
  | Connection d n t now => onConnection d n t now m
  | Message h data now => onMessage h data now m
  | Pong h now => onPong h now m
  | Close h => onClose h m
  | TimerDue h => fireTimer h m
  | Tick h => tick h m
  | RequestInput tag question opts ity timeoutMs now rnd =>
    (requestMobileInput tag question opts ity timeoutMs now rnd m).2
  | CancelInput sid => (cancelInputRequest sid m).2
  | Shutdown => shutdown m
  | PushSettled p now => onPushSettled p now m
  end.

Definition run (es : list Event) (m : Manager) : Manager := foldl step m es.

(** The states the manager can be in. *)
Definition reachable (m : Manager) : Prop := ∃ es, m = run es newManager.

(** The three ways a request completes: an answer arrives
    ([handleInputResponse]), its deadline timer fires, or it is cancelled
    ([cancelInputRequest]). *)
Inductive Completer : Type :=
  | Answer (answer name : string)
  | Expire
  | Cancel.

Definition complete (sid : string) (tid : nat) (c : Completer) (m : Manager) : Manager :=
  match c with
  | Answer answer name => handleInputResponse sid answer name m
  | Expire => fireTimer tid m
  | Cancel => (cancelInputRequest sid m).2
  end.

Definition outcome (effectiveTimeout : Z) (c : Completer) : Settlement :=
  match c with
  | Answer answer _ => Resolved answer
  | Expire => Rejected (TimedOut effectiveTimeout)
  | Cancel => Rejected Cancelled
  end.

(** ** Bookkeeping that leaves requests, timers and promises alone *)

(** A request without the two sets that record who has been told of it. *)
Definition core (request : PendingInputRequest) : PendingInputRequest :=
  mkPending (requestId request) (sessionId request) (projectTag request)
    (prompt request) (options request) (inputType request)
    (createdAt request) (promise request) (timeoutId request) ∅ ∅.

(** [tracking m m']: from [m] to [m'] only the traffic on existing sockets,
    the sessions of registered clients, the tracking sets of pending
    requests and the log of pushes have changed. *)
Record tracking (m m' : Manager) : Prop := mkTracking {
  tr_wss : wss m' = wss m;
  tr_heartbeatInterval : heartbeatInterval m' = heartbeatInterval m;
  tr_config : config m' = config m;
  tr_apnsProvider : apnsProvider m' = apnsProvider m;
  tr_inputTimeoutMs : inputTimeoutMs m' = inputTimeoutMs m;
  tr_deviceApnsTokens : deviceApnsTokens m' = deviceApnsTokens m;
  tr_tokenOrder : tokenOrder m' = tokenOrder m;
  tr_nextSocket : nextSocket m' = nextSocket m;
  tr_timers : timers m' = timers m;
  tr_intervals : intervals m' = intervals m;
  tr_nextTimer : nextTimer m' = nextTimer m;
  tr_nextPromise : nextPromise m' = nextPromise m;
  tr_settled : settled m' = settled m;
  tr_providerShutdowns : providerShutdowns m' = providerShutdowns m;
  tr_sockets : dom (sockets m') = dom (sockets m);
  tr_clients : ws <$> clients m' = ws <$> clients m;
  tr_pendingRequests : core <$> pendingRequests m' = core <$> pendingRequests m;
}.

(** ** Well-formed states *)

(** What every reachable state satisfies: handles that are in use lie below
    the counters that issue them; a pending request holds the handle of an
    armed deadline timer made for it; the promise of an armed deadline
    timer has not been settled and belongs to that timer alone; only
    promises that have been handed out are settled; a request is filed
    under its session id. *)
Record wf (m : Manager) : Prop := mkWf {
  wf_sockets : ∀ h s, sockets m !! h = Some s → (h < nextSocket m)%nat;
  wf_clients : ∀ dev client,
    clients m !! dev = Some client → (ws client < nextSocket m)%nat;
  wf_timers : ∀ h t, timers m !! h = Some t → (h < nextTimer m)%nat;
  wf_pending : ∀ sid request,
    pendingRequests m !! sid = Some request →
    ∃ ms, timers m !! timeoutId request
          = Some (mkTimer ms (InputDeadline sid (promise request) ms));
  wf_unsettled : ∀ h d sid p ms,
    timers m !! h = Some (mkTimer d (InputDeadline sid p ms)) →
    (p < nextPromise m)%nat ∧ settlements p m = [];
  wf_deadlines : ∀ h h' d d' sid sid' p ms ms',
    timers m !! h = Some (mkTimer d (InputDeadline sid p ms)) →
    timers m !! h' = Some (mkTimer d' (InputDeadline sid' p ms')) →
    h = h';
  wf_settled : ∀ p s, (p, s) ∈ settled m → (p < nextPromise m)%nat;
  wf_keys : ∀ sid request,
    pendingRequests m !! sid = Some request → sessionId request = sid;
}.

(** ** Deadlines *)

(** The default timeout after the events [es]: thirty minutes, unless an
    [initialize] brought a configuration with another (non-zero) number of
    minutes. *)
Definition configuredTimeout (t : Z) (e : Event) : Z :=
  match e with
  | Initialize _ cfg =>
    match monitoring cfg with
    | Some mc =>
      if bool_decide (input_timeout_minutes mc ≠ 0)
      then input_timeout_minutes mc * 60 * 1000
      else t
    | None => t
    end
  | _ => t
  end.


(** The events that end the wait of the request [sid] whose deadline timer
    is [tid]: an answer for [sid], the deadline itself, a cancellation of
    [sid], and [shutdown]. *)
Definition completes (sid : string) (tid : nat) (e : Event) : Prop :=
  match e with
  | Message _ (Some message) _ =>
    type message = input_response
    ∧ payloadSessionId (payload message) = Some sid
  | TimerDue h => h = tid
  | CancelInput sid' => sid' = sid
  | Shutdown => True
  | _ => False
  end.

(** ** A sample run *)

Definition sampleConfig : Config :=
  mkConfig "listener-1" "Desk" "secret" (Some (mkMonitoringConfig 45 None)).

Definition noProvider (_ : ProviderOptions) : Completion Provider :=
  Throw "no key".

(** The listener starts and a phone connects. *)
Definition onePhone : list Event :=
  [Initialize noProvider sampleConfig;
   Connection (Some "phone-1") (Some "Phone") None 1000].

(** Then the agent asks for one of three options, with a deadline of two
    seconds. *)
Definition oneRequest : list Event :=
  onePhone ++ [RequestInput "proj" "Choose 1, 2, or 3" ["1"; "2"; "3"] numeric
                 (Some 2000) 5000 "k3x9aa"].

Definition sampleRequest : PendingInputRequest :=
  mkPending "input_5000_k3x9aa" "input_5000_k3x9aa" "proj" "Choose 1, 2, or 3"
    ["1"; "2"; "3"] numeric 5000 0 1 {["phone-1"]} ∅.

(** A phone that has left its APNs token connects and goes away. *)
Definition phoneGone : list Event :=
  [Initialize noProvider sampleConfig;
   Connection (Some "phone-1") (Some "Phone") (Some "a1b2c3d4e5f6") 1000;
   Close 0].

(** ** Connections *)

(** A socket after [msgs] more have been written to it. *)
Definition ws_sendAll (msgs : list MonitoringMessage) (s : Socket) : Socket :=
  mkSocket (readyState s) (sent s ++ msgs) (pings s) (closeFrame s)
    (terminated s) (listeners s).

(** The 'need input' message for a pending request. *)
Definition inputRequired (now : Z) (request : PendingInputRequest) : MonitoringMessage :=
  mkMessage input_required now (Some (PInputRequired (payloadOf request))).

(** A request after the device [dev] has connected. *)
Definition redelivered (dev : string) (request : PendingInputRequest) : PendingInputRequest :=
  if bool_decide (dev ∈ notifiedDevices request) then request
  else addNotified dev request.

(** The live channels of the device [dev]: the open sockets whose handlers
    act for [dev], whether the client table points to them or not. *)
Definition liveChannels (dev : string) (m : Manager) : list nat :=
  (filter (λ entry, readyState entry.2 = OPEN
                    ∧ fst <$> listeners entry.2 = Some dev)
     (map_to_list (sockets m))).*1.

(** The durable token table after an event. *)
Definition learnToken (tokens : gmap string string) (e : Event) : gmap string string :=
  match e with
  | Connection qDeviceId _ qApnsToken _ =>
    match orUndefined qApnsToken with
    | Some t => <[orElse qDeviceId "unknown" := t]> tokens
    | None => tokens
    end
  | _ => tokens
  end.

(** The session that [handleConnection] installs. *)
Definition installed (dev name : string) (token : option string) (now : Z)
    (existing : option ConnectedClient) : MonitoringSession :=
  match existing with
  | Some existingClient =>
    mkSession dev name
      (if negb (bool_decide (is_Some token))
          && truthy (apnsToken (session existingClient))
       then apnsToken (session existingClient) else token)
      (startTime (session existingClient)) now active
      (S (reconnectAttempts (session existingClient)))
  | None => mkSession dev name token now now active 0
  end.

(** ** Push fallback *)




(** A provider whose [send] fails for one token, rejects for another and
    delivers to the rest. *)
Definition flakyProvider : Provider :=
  mkProvider (λ _ token,
    if String.eqb token "bad-token" then Normal (mkSendResult [] [token])
    else if String.eqb token "down-token" then Throw "ECONNRESET"
    else Normal (mkSendResult [token] [])).

Definition apnsSampleConfig : Config :=
  mkConfig "listener-1" "Desk" "secret"
    (Some (mkMonitoringConfig 30
             (Some (mkApnsConfig true (Some "/keys/AuthKey.p8") (Some "KEY123")
                      (Some "TEAM456") (Some "app.example.traveller")
                      (Some false))))).


(** The answer of a device to the request [sid]. *)
Definition inputResponse (sid answer : string) (now : Z) : MonitoringMessage :=
  mkMessage input_response now (Some (PInputResponse (Some sid) answer)).

(** ** Promises that nothing refers to *)

(** The promise [p] has been handed out, and neither a pending request nor
    an armed timer holds its [resolve] or [reject]. *)
Record abandoned (p : nat) (m : Manager) : Prop := mkAbandoned {
  ab_issued : (p < nextPromise m)%nat;
  ab_pending : ∀ sid request,
    pendingRequests m !! sid = Some request → promise request ≠ p;
  ab_timers : ∀ h d sid ms,
    timers m !! h ≠ Some (mkTimer d (InputDeadline sid p ms));
}.

(** Every promise is unsettled, or settled once and out of reach. *)
Definition settledOnce (m : Manager) : Prop :=
  ∀ p, settlements p m = []
       ∨ (length (settlements p m) = 1%nat ∧ abandoned p m).

(** ** Sessions and their channels *)

(** What identifies a registered client: its socket, and the fields of its
    session that only [handleConnection] writes. *)
Definition identity (c : ConnectedClient) : nat * string * option string * Z * nat :=
  (ws c, deviceId (session c), apnsToken (session c), startTime (session c),
   reconnectAttempts (session c)).

(** From [m] to [m'] no client was registered and none changed its
    identity. *)
Definition kept (m m' : Manager) : Prop :=
  ∀ dev c', clients m' !! dev = Some c' →
    ∃ c, clients m !! dev = Some c ∧ identity c' = identity c.

(** The client table of every reachable state: no socket serves two
    devices, a session is filed under its own device id, and a session that
    shows a push token shows the one the durable table holds. *)
Record coherent (m : Manager) : Prop := mkCoherent {
  co_ws : ∀ d1 d2 c1 c2,
    clients m !! d1 = Some c1 → clients m !! d2 = Some c2 →
    ws c1 = ws c2 → d1 = d2;
  co_id : ∀ dev c, clients m !! dev = Some c → deviceId (session c) = dev;
  co_token : ∀ dev c t,
    clients m !! dev = Some c → apnsToken (session c) = Some t →
    t ≠ "" ∧ deviceApnsTokens m !! dev = Some t;
}.

(** [e] is a connection of the device [dev]. *)
Definition connects (dev : string) (e : Event) : bool :=
  match e with
  | Connection qDeviceId _ _ _ => bool_decide (orElse qDeviceId "unknown" = dev)
  | _ => false
  end.

(** A phone connects three times.  The times are those of one clock: the
    heartbeat ticks every 30 s from the start and every ping is answered;
    the ['close'] event of socket 0 arrives at 2 s and arms the timer 1,
    which is due at 302 s; the manager closes socket 1 when the phone
    connects for the third time, at 299 s. *)
Definition staleCloseSetup : list Event :=
  [Initialize noProvider sampleConfig;
   Connection (Some "phone-1") (Some "Phone") None 1000;
   Close 0;
   Tick 0;
   Connection (Some "phone-1") (Some "Phone") None 40000;
   Tick 0; Pong 1 60020; Tick 0; Pong 1 90020; Tick 0; Pong 1 120020;
   Tick 0; Pong 1 150020; Tick 0; Pong 1 180020; Tick 0; Pong 1 210020;
   Tick 0; Pong 1 240020; Tick 0; Pong 1 270020;
   Connection (Some "phone-1") (Some "Phone") None 299000;
   Tick 0; Pong 2 300020].

(** Then the ['close'] event of socket 1 arrives, at 301 s, and the timer 1
    comes due, at 302 s. *)
Definition staleClose : list Event :=
  staleCloseSetup ++ [Close 1; TimerDue 1].

(** ** Who has been told of a request *)

(** From [m] to [m'] no socket has opened. *)
Definition closing (m m' : Manager) : Prop :=
  ∀ h, isOpen m' h = true → isOpen m h = true.

(** Every device with an open channel is in the notified set of every
    pending request. *)
Definition notifiedAll (m : Manager) : Prop :=
  ∀ dev c sid request,
    clients m !! dev = Some c → isOpen m (ws c) = true →
    pendingRequests m !! sid = Some request →
    dev ∈ notifiedDevices request.

(** The socket [h] is in the state [s]. *)
Definition still (h : nat) (s : Socket) (m : Manager) : Prop :=
  sockets m !! h = Some s.

(** ** The status endpoint (server.ts) *)

(** The body of the reply of [GET /monitor/status]. *)
Record MonitorStatus : Type := mkMonitorStatus {
  msEnabled : bool;
  msActiveSessions : list MonitoringSession;
  msConnectedDevices : nat;
  msApnsEnabled : bool;
  msInputTimeoutMinutes : Z;
  msPendingRequests : nat;
}.

Definition monitorStatus (m : Manager) : MonitorStatus :=
  let sessions := getAllSessions m in
  let connectedDevices := getConnectedDeviceCount m in
  let apnsEnabled := isApnsEnabled m in
  let inputTimeoutMinutes := getInputTimeoutMinutes m in
  let pendingRequests := getPendingRequestCount m in
  {| msEnabled := true; msActiveSessions := sessions;
     msConnectedDevices := connectedDevices; msApnsEnabled := apnsEnabled;
     msInputTimeoutMinutes := inputTimeoutMinutes;
     msPendingRequests := pendingRequests |}.

(** ** The upgrade handler (monitoring.ts) *)

(** What the ['upgrade'] handler that [initialize] installs does with a
    request: it answers 401 and destroys the socket, destroys the socket, or
    hands the request to the WebSocket server, whose ['connection'] event
    runs [handleConnection]. *)
Inductive UpgradeOutcome : Set := Unauthorized | Destroyed | Upgraded.

(** [cfg] is the configuration that the handler's closure holds, [pathname]
    the path of the request's URL and [qToken] the [token] parameter of its
    query string.  The request is taken to be a well-formed WebSocket
    handshake, which [handleUpgrade] completes.  After [shutdown] the
    server field is [null] and [this.wss!.handleUpgrade] throws. *)
Definition onUpgrade (cfg : Config) (pathname : string)
    (qToken qDeviceId qDeviceName qApnsToken : option string) (now : Z)
    (m : Manager) : Completion UpgradeOutcome * Manager :=
  if String.eqb pathname "/monitor" then
    if negb (truthy qToken)
       || negb (String.eqb (default "" qToken) (listener_auth_token cfg))
    then (Normal Unauthorized, m)
    else if wss m
    then (Normal Upgraded, onConnection qDeviceId qDeviceName qApnsToken now m)
    else (Throw "Cannot read properties of null (reading 'handleUpgrade')", m)
  else (Normal Destroyed, m).

(** ** The HTTP layer (server.ts) *)

(** In this part the characters of a string matter: a string stands for a
    JavaScript string whose code units are below 256, one [ascii] each, which
    is what Node makes of the bytes of a request header. *)

(** [s.slice(n)] for [n ≥ 0]. *)
Fixpoint slice (n : nat) (s : string) : string :=
  match n, s with
  | O, _ => s
  | S n', String _ s' => slice n' s'
  | S _, EmptyString => EmptyString
  end.

(** [Buffer.from(s)]: the UTF-8 encoding of [s], two bytes for a code unit
    from 128 on. *)
Definition utf8Char (c : Ascii.ascii) : list Z :=
  let n := Z.of_N (Ascii.N_of_ascii c) in
  if bool_decide (n < 128) then [n] else [192 + n / 64; 128 + n mod 64].

Fixpoint bufferFrom (s : string) : list Z :=
  match s with
  | EmptyString => []
  | String c s' => utf8Char c ++ bufferFrom s'
  end.

(** [crypto.timingSafeEqual(a, b)] throws a [RangeError] when the two
    buffers differ in byte length. *)
Definition timingSafeEqual (a b : list Z) : Completion bool :=
  if bool_decide (length a = length b) then Normal (bool_decide (a = b))
  else Throw "Input buffers must have the same byte length".

Definition constantTimeCompare (a b : string) : Completion bool :=
  if negb (String.length a =? String.length b)%nat then
    (* Still do comparison to avoid timing leak on length check *)
    match timingSafeEqual (bufferFrom a) (bufferFrom a) with
    | Normal _ => Normal false
    | Throw e => Throw e
    end
  else timingSafeEqual (bufferFrom a) (bufferFrom b).

(** What a middleware does with a request: it calls [next()], or answers
    with a status and an error text. *)
Inductive Handled : Type :=
  | next
  | answered (statusCode : Z) (errorText : string).

(** [authMiddleware(req, res, next)]: [authorization] is the request's
    [Authorization] header and [cfg] the configuration of [createApp]. *)
Definition authMiddleware (authorization : option string) (cfg : Config) : Completion Handled :=
  if negb (truthy authorization)
     || negb (String.prefix "Bearer " (default "" authorization))
  then Normal (answered 401 "Invalid or missing auth token")
  else
    let token := slice 7 (default "" authorization) in
    if negb (truthy (Some (listener_auth_token cfg)))
    then Normal (answered 500 "Auth token not configured on listener")
    else
      match constantTimeCompare token (listener_auth_token cfg) with
      | Throw e => Throw e
      | Normal false => Normal (answered 401 "Invalid or missing auth token")
      | Normal true => Normal next
      end.

(** The body of [POST /input-request]; every field may be missing. *)
Record InputRequestPayload : Type := mkInputRequestPayload {
  rq_project_tag : option string;
  rq_prompt : option string;
  rq_options : option (list string);
  rq_input_type : option InputType;
  rq_timeout_seconds : option Z;
}.

Record InputRequestErrorResponse : Type := mkInputRequestError {
  errorText : string;
  connected_devices : nat;
}.

(** The reply of the handler: [res.json(response)], or
    [res.status(code).json(response)] with an error body. *)
Inductive InputRequestReply : Type :=
  | replyJson (body : InputRequestResponse)
  | replyError (statusCode : Z) (body : InputRequestErrorResponse).

(** [s.includes(needle)]. *)
Fixpoint includes (needle s : string) : bool :=
  String.prefix needle s
  || match s with
     | EmptyString => false
     | String _ s' => includes needle s'
     end.

(** The digits of [ms / 1000] as a template literal prints them, for the
    integers [ms] below 10^15 in size: the quotient, and the thousandths
    without their trailing zeros. *)
Definition thousandths (r : Z) : string :=
  if bool_decide (r = 0) then ""
  else if bool_decide (r mod 100 = 0) then "." +:+ pretty (r / 100)
  else if bool_decide (r mod 10 = 0)
       then "." +:+ pretty (r / 100) +:+ pretty (r / 10 mod 10)
  else "." +:+ pretty (r / 100) +:+ pretty (r / 10 mod 10) +:+ pretty (r mod 10).

Definition seconds (ms : Z) : string :=
  (if bool_decide (ms < 0) then "-" else "")
  +:+ pretty (Z.abs ms / 1000) +:+ thousandths (Z.abs ms mod 1000).

(** The message of the error that a pending request is rejected with. *)
Definition errorMessage (e : RequestError) : string :=
  match e with
  | TimedOut effectiveTimeout =>
    "Mobile input request timed out after " +:+ seconds effectiveTimeout
    +:+ " seconds"
  | Cancelled => "Input request cancelled"
  end.

(** Use 504 for timeout, 503 for no devices. *)
Definition failureStatus (message : string) : Z :=
  if includes "timed out" message then 504 else 503.

(** The [/input-request] handler up to its [await]: it answers at once, or
    waits for the promise of [requestMobileInput]. *)
Definition inputRequestCall (body : InputRequestPayload) (now : Z) (rnd : string)
    (m : Manager) : (InputRequestReply + nat) * Manager :=
  if negb (truthy (rq_prompt body))
  then (inl (replyError 400
               (mkInputRequestError "Missing required field: prompt"
                  (getConnectedDeviceCount m))), m)
  else
    let projectTag := orElse (rq_project_tag body) "unknown" in
    let options := default [] (rq_options body) in
    let inputType :=
      default (if bool_decide (0 < length options)%nat then numeric else text)
        (rq_input_type body) in
    let timeoutMs :=
      match rq_timeout_seconds body with
      | Some s => if bool_decide (s ≠ 0) then Some (s * 1000) else None
      | None => None
      end in
    match requestMobileInput projectTag (default "" (rq_prompt body)) options
            inputType timeoutMs now rnd m with
    | (Normal p, m) => (inr p, m)
    | (Throw e, m) =>
      (inl (replyError (failureStatus e)
              (mkInputRequestError e (getConnectedDeviceCount m))), m)
    end.

(** The handler from the settlement of the awaited promise on; [started] is
    the time at which the handler was entered. *)
Definition inputRequestSettled (started now : Z) (s : Settlement) (m : Manager) : InputRequestReply :=
  match s with
  | Resolved userResponse => replyJson (inputRequestReply started now userResponse)
  | Rejected e =>
    replyError (failureStatus (errorMessage e))
      (mkInputRequestError (errorMessage e) (getConnectedDeviceCount m))
  end.

(** ** Input patterns (monitoring.ts) *)

(** [detectInputPattern] tries eight regular expressions in turn.  They are
    written here in the abstract syntax that their literals denote, and
    matched the way [String.prototype.match] matches a pattern without the
    [g] flag: at the leftmost position that allows a match, trying the
    alternatives of every quantifier in the order of its greed.  The
    quantifiers of the eight patterns range over single characters, which
    is what [Many] provides.  As in the HTTP layer, the characters of a
    string are code units below 256. *)

Definition CharSet : Type := Ascii.ascii → bool.

Inductive Regex : Type :=
  | One (cs : CharSet)                   (* one character of a class *)
  | Many (greedy : bool) (cs : CharSet)  (* [cs*] when greedy, [cs*?] when not *)
  | Cat (r1 r2 : Regex)
  | Capture (i : nat) (r : Regex)        (* the [i]-th pair of parentheses *)
  | Nil.

Fixpoint many {R : Type} (greedy : bool) (cs : CharSet)
    (k : list Ascii.ascii → option R) (s : list Ascii.ascii) : option R :=
  let more :=
    match s with
    | c :: s' => if cs c then many greedy cs k s' else None
    | [] => None
    end in
  if greedy
  then match more with Some r => Some r | None => k s end
  else match k s with Some r => Some r | None => more end.

(** [matcher r s caps k]: match [r] at the head of [s] and go on with [k] on
    what is left; a failure of [k] makes the matcher try its next
    alternative. *)
Fixpoint matcher {R : Type} (r : Regex) (s : list Ascii.ascii) (caps : gmap nat string)
    (k : list Ascii.ascii → gmap nat string → option R) : option R :=
  match r with
  | One cs =>
    match s with
    | c :: s' => if cs c then k s' caps else None
    | [] => None
    end
  | Many greedy cs => many greedy cs (λ s', k s' caps) s
  | Cat r1 r2 => matcher r1 s caps (λ s' caps', matcher r2 s' caps' k)
  | Capture i r' =>
    matcher r' s caps (λ s' caps',
      k s' (<[i := String.string_of_list_ascii (take (length s - length s') s)]> caps'))
  | Nil => k s caps
  end.

(** [text.match(pattern)]: the captures of the first match, from the
    leftmost position where there is one. *)
Fixpoint search (r : Regex) (s : list Ascii.ascii) : option (gmap nat string) :=
  match matcher r s ∅ (λ _ caps, Some caps) with
  | Some caps => Some caps
  | None =>
    match s with
    | [] => None
    | _ :: s' => search r s'
    end
  end.

(** The number of groups of a pattern, and [match.slice(1)]. *)
Fixpoint groupCount (r : Regex) : nat :=
  match r with
  | Cat r1 r2 => groupCount r1 + groupCount r2
  | Capture _ r' => S (groupCount r')
  | _ => 0
  end.

Definition slice1 (r : Regex) (caps : gmap nat string) : list (option string) :=
  (λ i, caps !! i) <$> seq 1 (groupCount r).

(** Character classes.  With the [i] flag a character of a pattern stands
    for both of its cases; no character from 128 on is the other case of
    an ASCII one. *)
Definition code (c : Ascii.ascii) : nat := Ascii.nat_of_ascii c.

Definition upper (c : Ascii.ascii) : Ascii.ascii :=
  if (97 <=? code c)%nat && (code c <=? 122)%nat
  then Ascii.ascii_of_nat (code c - 32) else c.

Definition ci (c : Ascii.ascii) : CharSet :=
  λ x, bool_decide (upper x = upper c).

(** [\d], [\s], [.], [[,\s]] and [[^\d]]. *)
Definition digit : CharSet := λ c, (48 <=? code c)%nat && (code c <=? 57)%nat.

Definition space : CharSet :=
  λ c, bool_decide (code c ∈ [9; 10; 11; 12; 13; 32; 160]%nat).

Definition dot : CharSet := λ c, negb (bool_decide (code c ∈ [10; 13]%nat)).

Definition commaOrSpace : CharSet := λ c, bool_decide (code c = 44%nat) || space c.

Definition nonDigit : CharSet := λ c, negb (digit c).

(** A literal, [cs+], and the concatenation of a list of patterns. *)
Fixpoint lit (s : string) : Regex :=
  match s with
  | EmptyString => Nil
  | String c s' => Cat (One (ci c)) (lit s')
  end.

Definition oneOrMore (cs : CharSet) : Regex := Cat (One cs) (Many true cs).

Definition cat (rs : list Regex) : Regex := foldr Cat Nil rs.

(** [(\d+)] as the [i]-th group. *)
Definition number (i : nat) : Regex := Capture i (oneOrMore digit).

Definition INPUT_PATTERNS : list (Regex * InputType) :=
  [ (* /choose\s+(\d+)[,\s]+(\d+)[,\s]+or\s+(\d+)/i *)
    (cat [lit "choose"; oneOrMore space; number 1; oneOrMore commaOrSpace; number 2;
          oneOrMore commaOrSpace; lit "or"; oneOrMore space; number 3], numeric);
    (* /select.*?(\d+)[^\d]+(\d+)[^\d]+(\d+)/i *)
    (cat [lit "select"; Many false dot; number 1; oneOrMore nonDigit; number 2;
          oneOrMore nonDigit; number 3], numeric);
    (* /option\s*(\d+)[,\s]*(\d+)[,\s]*or\s*(\d+)/i *)
    (cat [lit "option"; Many true space; number 1; Many true commaOrSpace;
          number 2; Many true commaOrSpace; lit "or"; Many true space;
          number 3], numeric);
    (* /\[(\d+)\].*\[(\d+)\].*\[(\d+)\]/i *)
    (cat [lit "["; number 1; lit "]"; Many true dot; lit "["; number 2;
          lit "]"; Many true dot; lit "["; number 3; lit "]"], numeric);
    (* /continue\?.*?\(y\/n\)/i *)
    (cat [lit "continue?"; Many false dot; lit "(y/n)"], yesno);
    (* /proceed\?.*?\(y\/n\)/i *)
    (cat [lit "proceed?"; Many false dot; lit "(y/n)"], yesno);
    (* /\(yes\/no\)/i *)
    (lit "(yes/no)", yesno);
    (* /which.*?option/i *)
    (cat [lit "which"; Many false dot; lit "option"], numeric) ].

(** The result of [detectInputPattern]: [{ detected: false }], or
    [{ detected: true, type, options }]. *)
Inductive Detection : Type :=
  | NotDetected
  | Detected (ty : InputType) (opts : list string).

(** [array.filter(Boolean)] on strings that may be [undefined]. *)
Definition filterBoolean (l : list (option string)) : list string :=
  omap (λ o, if truthy o then o else None) l.

Definition detectIn (patterns : list (Regex * InputType)) (txt : string) : Detection :=
  (fix loop (ps : list (Regex * InputType)) : Detection :=
     match ps with
     | [] => NotDetected
     | (pattern, ty) :: ps' =>
       match search pattern (String.list_ascii_of_string txt) with
       | Some caps =>
         (* Extract options from numeric patterns *)
         let opts :=
           match ty with
           | numeric => filterBoolean (slice1 pattern caps)
           | yesno => ["Yes"; "No"]
           | text => []
           end in
         Detected ty opts
       | None => loop ps'
       end
     end) patterns.

Definition detectInputPattern (txt : string) : Detection :=
  detectIn INPUT_PATTERNS txt.

(** The words that a pattern matches, and the groups of a pattern with
    their bodies. *)
Fixpoint lang (r : Regex) (w : list Ascii.ascii) : Prop :=
  match r with
  | One cs => ∃ c, w = [c] ∧ cs c = true
  | Many _ cs => Forall (λ c, cs c = true) w
  | Cat r1 r2 => ∃ w1 w2, w = w1 ++ w2 ∧ lang r1 w1 ∧ lang r2 w2
  | Capture _ r' => lang r' w
  | Nil => w = []
  end.

Fixpoint groups (r : Regex) : list (nat * Regex) :=
  match r with
  | Cat r1 r2 => groups r1 ++ groups r2
  | Capture i r' => (i, r') :: groups r'
  | _ => []
  end.

(** A word of the pattern occurs somewhere in the text. *)
Definition occurs (r : Regex) (txt : string) : Prop :=
  ∃ pre w post,
    String.list_ascii_of_string txt = pre ++ w ++ post ∧ lang r w.

(** A non-empty string of decimal digits. *)
Definition isNumber (s : string) : Prop :=
  s ≠ "" ∧ Forall (λ c, digit c = true) (String.list_ascii_of_string s).

(** * Verification *)

Lemma settlements_app p m l :
  (filter (λ ps : nat * Settlement, ps.1 = p) (settled m ++ l)).*2
  = settlements p m ++ (filter (λ ps : nat * Settlement, ps.1 = p) l).*2.
Proof. unfold settlements. by rewrite filter_app, fmap_app. Qed.

Lemma settlements_resolve p q a m :
  settlements p (resolve q a m)
  = settlements p m ++ (if decide (q = p) then [Resolved a] else []).
Proof.
  unfold resolve, settlements at 1. simpl. rewrite settlements_app.
  f_equal. rewrite filter_cons, filter_nil. simpl. by destruct (decide (q = p)).
Qed.

Lemma settlements_reject p q e m :
  settlements p (reject q e m)
  = settlements p m ++ (if decide (q = p) then [Rejected e] else []).
Proof.
  unfold reject, settlements at 1. simpl. rewrite settlements_app.
  f_equal. rewrite filter_cons, filter_nil. simpl. by destruct (decide (q = p)).
Qed.

Section one_request.
Variables (sid : string) (request : PendingInputRequest) (ms d : Z).
Variable m : Manager.
Hypothesis Hpending : pendingRequests m !! sid = Some request.
Hypothesis Harmed :
  timers m !! timeoutId request
  = Some (mkTimer d (InputDeadline sid (promise request) ms)).

Lemma complete_first c :
  let m1 := complete sid (timeoutId request) c m in
  timers m1 = delete (timeoutId request) (timers m)
  ∧ pendingRequests m1 = delete sid (pendingRequests m)
  ∧ settled m1 = settled m ++ [(promise request, outcome ms c)]
  ∧ nextPromise m1 = nextPromise m.
Proof.
  destruct c as [a n| |]; simpl.
  - unfold handleInputResponse. by rewrite Hpending.
  - unfold fireTimer. by rewrite Harmed.
  - unfold cancelInputRequest. by rewrite Hpending.
Qed.
End one_request.

Lemma complete_done sid tid c m :
  pendingRequests m !! sid = None → timers m !! tid = None →
  complete sid tid c m = m.
Proof.
  intros Hp Ht. destruct c; simpl.
  - unfold handleInputResponse. by rewrite Hp.
  - unfold fireTimer. by rewrite Ht.
  - unfold cancelInputRequest. by rewrite Hp.
Qed.

Lemma complete_done_all sid tid cs m :
  pendingRequests m !! sid = None → timers m !! tid = None →
  foldl (λ m c, complete sid tid c m) m cs = m.
Proof.
  intros Hp Ht. induction cs as [|c cs IH]; simpl; [done|].
  by rewrite complete_done.
Qed.

(** ** Loops over a table *)

Lemma forEach_invariant {K V S : Type} `{Countable K} (P : S → Prop)
    (body : V → K → S → S) (table : gmap K V) (s : S) :
  P s →
  (∀ k v acc, table !! k = Some v → P acc → P (body v k acc)) →
  P (forEach body table s).
Proof.
  intros Hs Hbody. unfold forEach.
  assert (Hl : ∀ kv, kv ∈ map_to_list table → table !! kv.1 = Some kv.2).
  { intros [k v] Hkv. by apply elem_of_map_to_list. }
  revert s Hs Hl. induction (map_to_list table) as [|kv l IH]; intros s Hs Hl.
  - done.
  - simpl. apply IH.
    + apply Hbody; [apply Hl; left | done].
    + intros kv' Hkv'. apply Hl. by right.
Qed.

(** ** No recipients *)

Lemma no_open_client m dev client :
  getConnectedDeviceCount m = 0%nat → clients m !! dev = Some client →
  isOpen m (ws client) = false.
Proof.
  unfold getConnectedDeviceCount. intros Hcount Hclient.
  apply nil_length_inv in Hcount.
  destruct (isOpen m (ws client)) eqn:Hopen; [|done].
  exfalso. eapply (filter_nil_not_elem_of _ _ client Hcount); [done|].
  apply list_elem_of_fmap. exists (dev, client). split; [done|].
  by apply elem_of_map_to_list.
Qed.

Lemma notifyInputRequired_nobody payload pendingRequest now m :
  getConnectedDeviceCount m = 0%nat →
  notifyInputRequired payload pendingRequest now m = m.
Proof.
  intros Hcount. unfold notifyInputRequired.
  apply (forEach_invariant (λ acc, acc = m)); [done|].
  intros dev client acc Hclient ->.
  by rewrite (no_open_client m dev client).
Qed.

(** ** Bookkeeping steps *)

Global Instance tracking_preorder : PreOrder tracking.
Proof.
  split.
  - intros m. by constructor.
  - intros m1 m2 m3 [] []. constructor; congruence.
Qed.

Lemma tracking_updateSocket f h m : tracking m (updateSocket f h m).
Proof. constructor; simpl; try done. apply dom_alter_L. Qed.

Lemma tracking_sendMessage h message m : tracking m (sendMessage h message m).
Proof.
  unfold sendMessage. destruct (isOpen m h); [|done].
  apply tracking_updateSocket.
Qed.

Lemma tracking_set_client dev client client' m :
  clients m !! dev = Some client → ws client' = ws client →
  tracking m (set_clients (<[dev := client']> (clients m)) m).
Proof.
  intros Hc Hws. constructor; simpl; try done.
  rewrite fmap_insert, Hws. apply insert_id. by rewrite lookup_fmap, Hc.
Qed.

Lemma core_addNotified dev request : core (addNotified dev request) = core request.
Proof. done. Qed.

Lemma core_addPushed dev request : core (addPushed dev request) = core request.
Proof. done. Qed.

Lemma tracking_alter_pending f sid m :
  (∀ request, core (f request) = core request) →
  tracking m (set_pendingRequests (alter f sid (pendingRequests m)) m).
Proof.
  intros Hf. constructor; simpl; try done.
  apply map_eq. intros k. rewrite !lookup_fmap.
  destruct (decide (sid = k)) as [->|Hne].
  - rewrite lookup_alter_eq. destruct (pendingRequests m !! k); simpl; [|done].
    by rewrite Hf.
  - by rewrite lookup_alter_ne.
Qed.

Lemma tracking_insert_pending sid request request' m :
  pendingRequests m !! sid = Some request → core request' = core request →
  tracking m (set_pendingRequests (<[sid := request']> (pendingRequests m)) m).
Proof.
  intros Hp Hcore. constructor; simpl; try done.
  rewrite fmap_insert, Hcore. apply insert_id. by rewrite lookup_fmap, Hp.
Qed.

Lemma tracking_set_pushes l m : tracking m (set_pushes l m).
Proof. by constructor. Qed.

Lemma tracking_pending_lookup m m' sid request :
  tracking m m' → pendingRequests m !! sid = Some request →
  ∃ request', pendingRequests m' !! sid = Some request'
              ∧ core request' = core request.
Proof.
  intros Htr Hp. pose proof (tr_pendingRequests _ _ Htr) as Heq.
  apply (f_equal (λ t, t !! sid)) in Heq. rewrite !lookup_fmap, Hp in Heq.
  destruct (pendingRequests m' !! sid) as [request'|]; simpl in Heq; [|done].
  exists request'. split; [done|congruence].
Qed.

Lemma tracking_client_lookup m m' dev client :
  tracking m m' → clients m !! dev = Some client →
  ∃ client', clients m' !! dev = Some client' ∧ ws client' = ws client.
Proof.
  intros Htr Hc. pose proof (tr_clients _ _ Htr) as Heq.
  apply (f_equal (λ t, t !! dev)) in Heq. rewrite !lookup_fmap, Hc in Heq.
  destruct (clients m' !! dev) as [client'|]; simpl in Heq; [|done].
  exists client'. split; [done|congruence].
Qed.

Lemma tracking_resend dev h now m :
  tracking m (resendPendingRequestsToDevice dev h now m).
Proof.
  unfold resendPendingRequestsToDevice.
  apply (forEach_invariant (tracking m)); [done|].
  intros sid request acc Hp Hacc. case_bool_decide; [done|].
  etrans; [exact Hacc|]. etrans; [apply tracking_sendMessage|].
  destruct (tracking_pending_lookup m acc sid request Hacc Hp)
    as (r' & Hr' & Hcore).
  destruct (tracking_pending_lookup acc _ sid r' (tracking_sendMessage h
    (mkMessage input_required now (Some (PInputRequired (payloadOf request))))
    acc) Hr') as (r'' & Hr'' & Hcore').
  eapply tracking_insert_pending; [exact Hr''|].
  rewrite core_addNotified. congruence.
Qed.

Lemma tracking_notifyInputRequired payload pendingRequest now m :
  tracking m (notifyInputRequired payload pendingRequest now m).
Proof.
  unfold notifyInputRequired.
  apply (forEach_invariant (tracking m)); [done|].
  intros dev client acc Hc Hacc. destruct (isOpen acc (ws client)); [|done].
  etrans; [exact Hacc|]. etrans; [apply tracking_sendMessage|].
  destruct pendingRequest as [sid|]; [|done].
  by apply tracking_alter_pending.
Qed.

Lemma tracking_sendApnsPush token payload now m :
  tracking m (sendApnsPush token payload now m).2.
Proof.
  unfold sendApnsPush. destruct (apnsProvider m) as [provider|]; [|done].
  destruct (negb _); [done|]. by constructor.
Qed.

Lemma tracking_markPushed p sid dev m : tracking m (markPushed p sid dev m).
Proof.
  unfold markPushed. destruct (pendingRequests m !! sid) as [r|] eqn:Hr; [|done].
  case_bool_decide; [|done].
  by apply (tracking_insert_pending sid r).
Qed.

Lemma tracking_pushFrom payload sid p pushed now entries i m :
  tracking m (pushFrom payload sid p pushed now entries i m).
Proof.
  revert i m. induction entries as [|dev entries IH]; intros i m; [done|].
  cbn [pushFrom]. destruct (deviceApnsTokens m !! dev) as [token|]; [|apply IH].
  destruct (negb _ && negb _); [|apply IH].
  set (m1 := set_attempted _ m).
  assert (Htr1 : tracking m m1) by (by constructor).
  pose proof (tracking_sendApnsPush token payload now m1) as Hpush.
  destruct (sendApnsPush token payload now m1) as [[answer|] m2]; simpl in Hpush.
  - etrans; [exact Htr1|]. etrans; [exact Hpush|]. by constructor.
  - etrans; [exact Htr1|]. etrans; [exact Hpush|]. apply IH.
Qed.

Lemma tracking_push payload sid p now m :
  tracking m (sendApnsPushToDisconnectedDevices payload sid p now m).
Proof.
  unfold sendApnsPushToDisconnectedDevices.
  destruct (apnsProvider m); [|done]. apply tracking_pushFrom.
Qed.

Lemma tracking_onPushSettled p now m : tracking m (onPushSettled p now m).
Proof.
  unfold onPushSettled. destruct (pushLoops m !! p) as [loop|]; [|done].
  cbv zeta. set (m1 := set_pushLoops _ m).
  assert (Htr1 : tracking m m1) by (by constructor).
  etrans; [exact Htr1|].
  destruct (pushDelivered (plAnswer loop)).
  - etrans; [apply tracking_markPushed|]. apply tracking_pushFrom.
  - apply tracking_pushFrom.
Qed.

Lemma tracking_checkHeartbeats m : tracking m (checkHeartbeats m).
Proof.
  unfold checkHeartbeats.
  apply (forEach_invariant (tracking m)); [done|].
  intros dev client acc Hc Hacc.
  destruct (tracking_client_lookup m acc dev client Hacc Hc) as (c' & Hc' & Hws).
  destruct (negb (isAlive client) && isOpen acc (ws client)).
  { etrans; [exact Hacc|]. apply tracking_updateSocket. }
  etrans; [exact Hacc|].
  etrans; [by apply (tracking_set_client dev c' (setAlive false client))|].
  destruct (isOpen _ _); [|done]. apply tracking_updateSocket.
Qed.

(** ** Every reachable state is well formed *)

Lemma wf_newManager : wf newManager.
Proof.
  constructor; simpl; try (intros; simplify_map_eq; fail).
  intros p s Hin. by apply elem_of_nil in Hin.
Qed.

Lemma wf_tracking m m' : tracking m m' → wf m → wf m'.
Proof.
  intros Htr Hwf. constructor.
  - intros h s Hs. rewrite (tr_nextSocket _ _ Htr).
    assert (Hdom : h ∈ dom (sockets m)).
    { rewrite <- (tr_sockets _ _ Htr). by apply elem_of_dom. }
    apply elem_of_dom in Hdom as [s' Hs']. by eapply wf_sockets.
  - intros dev client Hc. rewrite (tr_nextSocket _ _ Htr).
    pose proof (tr_clients _ _ Htr) as Heq.
    apply (f_equal (λ t, t !! dev)) in Heq. rewrite !lookup_fmap, Hc in Heq.
    destruct (clients m !! dev) as [c0|] eqn:Hc0; simpl in Heq; [|done].
    assert (ws client = ws c0) as -> by congruence. by eapply wf_clients.
  - rewrite (tr_timers _ _ Htr), (tr_nextTimer _ _ Htr). exact (wf_timers _ Hwf).
  - intros sid request Hp. rewrite (tr_timers _ _ Htr).
    pose proof (tr_pendingRequests _ _ Htr) as Heq.
    apply (f_equal (λ t, t !! sid)) in Heq. rewrite !lookup_fmap, Hp in Heq.
    destruct (pendingRequests m !! sid) as [r0|] eqn:Hr0; simpl in Heq; [|done].
    assert (timeoutId request = timeoutId r0 ∧ promise request = promise r0)
      as [-> ->].
    { apply (inj Some) in Heq.
      split; [exact (f_equal timeoutId Heq)|exact (f_equal promise Heq)]. }
    by eapply wf_pending.
  - unfold settlements.
    rewrite (tr_timers _ _ Htr), (tr_nextPromise _ _ Htr), (tr_settled _ _ Htr).
    exact (wf_unsettled _ Hwf).
  - rewrite (tr_timers _ _ Htr). exact (wf_deadlines _ Hwf).
  - rewrite (tr_settled _ _ Htr), (tr_nextPromise _ _ Htr).
    exact (wf_settled _ Hwf).
  - intros sid request Hp.
    pose proof (tr_pendingRequests _ _ Htr) as Heq.
    apply (f_equal (λ t, t !! sid)) in Heq. rewrite !lookup_fmap, Hp in Heq.
    destruct (pendingRequests m !! sid) as [r0|] eqn:Hr0; simpl in Heq; [|done].
    apply (inj Some) in Heq.
    transitivity (sessionId r0); [exact (f_equal sessionId Heq)|].
    by eapply wf_keys.
Qed.

Lemma settlements_nil p m : settlements p m = [] ↔ ∀ s, (p, s) ∉ settled m.
Proof.
  unfold settlements. split.
  - intros Hnil s Hin. apply fmap_nil_inv in Hnil.
    by eapply (filter_nil_not_elem_of _ _ (p, s) Hnil).
  - intros Hnot. destruct (filter _ _) as [|[q s] l] eqn:Hf; [done|].
    assert (Hin : (q, s) ∈ filter (λ ps : nat * Settlement, ps.1 = p) (settled m))
      by (rewrite Hf; left).
    apply list_elem_of_filter in Hin as [Hq Hin]. simpl in Hq. subst q.
    by destruct (Hnot s).
Qed.

(** A request completes: its timer is disarmed (or has fired), its entry
    leaves the table and its promise is settled. *)
Lemma wf_finish m m' tid sid p s d ms :
  wf m →
  timers m !! tid = Some (mkTimer d (InputDeadline sid p ms)) →
  timers m' = delete tid (timers m) →
  pendingRequests m' = delete sid (pendingRequests m) →
  settled m' = settled m ++ [(p, s)] →
  sockets m' = sockets m → clients m' = clients m →
  nextSocket m' = nextSocket m → nextTimer m' = nextTimer m →
  nextPromise m' = nextPromise m →
  wf m'.
Proof.
  intros Hwf Htid Ht Hp Hs Hso Hc Hns Hnt Hnp. constructor.
  - rewrite Hso, Hns. exact (wf_sockets _ Hwf).
  - rewrite Hc, Hns. exact (wf_clients _ Hwf).
  - rewrite Ht, Hnt. intros h t [_ Hh]%lookup_delete_Some.
    by eapply wf_timers.
  - rewrite Ht, Hp. intros sid' r' [Hne Hr']%lookup_delete_Some.
    destruct (wf_pending _ Hwf _ _ Hr') as [ms' Hms'].
    exists ms'. rewrite lookup_delete_ne; [done|].
    intros Heq. rewrite <- Heq in Hms'. congruence.
  - unfold settlements. rewrite Ht, Hs, Hnp.
    intros h d' sid' p' ms' [Hne Hh]%lookup_delete_Some.
    destruct (wf_unsettled _ Hwf _ _ _ _ _ Hh) as [Hlt Hnil].
    split; [done|].
    rewrite filter_app, fmap_app. fold (settlements p' m). rewrite Hnil.
    rewrite filter_cons, filter_nil. simpl.
    destruct (decide (p = p')) as [->|]; [|done].
    destruct Hne. by eapply (wf_deadlines _ Hwf).
  - rewrite Ht. intros h h' d1 d2 s1 s2 q ms1 ms2
      [_ Hh]%lookup_delete_Some [_ Hh']%lookup_delete_Some.
    by eapply (wf_deadlines _ Hwf).
  - rewrite Hs, Hnp. intros q s' [Hin|Hin]%elem_of_app.
    + by eapply wf_settled.
    + apply list_elem_of_singleton in Hin. simplify_eq.
      by destruct (wf_unsettled _ Hwf _ _ _ _ _ Htid).
  - rewrite Hp. intros sid' r' [_ Hr']%lookup_delete_Some.
    by eapply wf_keys.
Qed.

Lemma wf_handleInputResponse sid answer name m :
  wf m → wf (handleInputResponse sid answer name m).
Proof.
  intros Hwf. unfold handleInputResponse.
  destruct (pendingRequests m !! sid) as [request|] eqn:Hr; [|done].
  destruct (wf_pending _ Hwf _ _ Hr) as [ms Hms].
  by eapply (wf_finish m _ _ sid).
Qed.

Lemma wf_cancelInputRequest sid m : wf m → wf (cancelInputRequest sid m).2.
Proof.
  intros Hwf. unfold cancelInputRequest.
  destruct (pendingRequests m !! sid) as [request|] eqn:Hr; [|done].
  destruct (wf_pending _ Hwf _ _ Hr) as [ms Hms].
  by eapply (wf_finish m _ _ sid).
Qed.

Lemma wf_fireTimer h m : wf m → wf (fireTimer h m).
Proof.
  intros Hwf. unfold fireTimer.
  destruct (timers m !! h) as [[d cb]|] eqn:Hh; [|done].
  destruct cb as [sid p ms|dev]; simpl.
  { by eapply (wf_finish m _ h sid). }
  assert (Hdel : wf (set_timers (delete h (timers m)) m)).
  { constructor; simpl.
    - exact (wf_sockets _ Hwf).
    - exact (wf_clients _ Hwf).
    - intros h' t [_ Hh']%lookup_delete_Some. by eapply wf_timers.
    - intros sid r Hr. destruct (wf_pending _ Hwf _ _ Hr) as [ms Hms].
      exists ms. rewrite lookup_delete_ne; [done|]. congruence.
    - intros h' d' sid p ms [_ Hh']%lookup_delete_Some.
      exact (wf_unsettled _ Hwf _ _ _ _ _ Hh').
    - intros h1 h2 d1 d2 s1 s2 q ms1 ms2
        [_ H1]%lookup_delete_Some [_ H2]%lookup_delete_Some.
      by eapply (wf_deadlines _ Hwf).
    - exact (wf_settled _ Hwf).
    - exact (wf_keys _ Hwf). }
  destruct (clients m !! dev) as [c|] eqn:Hc; [|done].
  case_bool_decide; [|done].
  destruct Hdel as [H1 H2 H3 H4 H5 H6 H7 H8]. constructor; simpl in *; try done.
  intros dev' c' [_ Hc']%lookup_delete_Some. by eapply H2.
Qed.

(** States with the same sockets, clients, timers, requests and settlements,
    and counters that have not gone back. *)
Lemma wf_same m m' :
  sockets m' = sockets m → clients m' = clients m → timers m' = timers m →
  pendingRequests m' = pendingRequests m → settled m' = settled m →
  (nextSocket m ≤ nextSocket m')%nat → (nextTimer m ≤ nextTimer m')%nat →
  (nextPromise m ≤ nextPromise m')%nat →
  wf m → wf m'.
Proof.
  intros Hso Hc Ht Hp Hs Hns Hnt Hnp Hwf. constructor.
  - rewrite Hso. intros h s Hh. apply (wf_sockets _ Hwf) in Hh. lia.
  - rewrite Hc. intros dev c Hdev. apply (wf_clients _ Hwf) in Hdev. lia.
  - rewrite Ht. intros h t Hh. apply (wf_timers _ Hwf) in Hh. lia.
  - rewrite Ht, Hp. exact (wf_pending _ Hwf).
  - unfold settlements. rewrite Ht, Hs. intros h d sid p ms Hh.
    destruct (wf_unsettled _ Hwf _ _ _ _ _ Hh). split; [lia|done].
  - rewrite Ht. exact (wf_deadlines _ Hwf).
  - rewrite Hs. intros p s Hin. apply (wf_settled _ Hwf) in Hin. lia.
  - rewrite Hp. exact (wf_keys _ Hwf).
Qed.

Lemma wf_initialize newProvider cfg m : wf m → wf (initialize newProvider cfg m).
Proof.
  apply wf_same; unfold initialize, initializeApns, setInterval; simpl;
    repeat match goal with
           | |- context [match ?x with _ => _ end] => destruct x
           end; simpl; try done; lia.
Qed.

Lemma wf_onPong h now m : wf m → wf (onPong h now m).
Proof.
  intros Hwf. unfold onPong.
  destruct (sockets m !! h ≫= listeners) as [[dev name]|]; [|done].
  destruct (clients m !! dev) as [client|] eqn:Hc; [|done].
  eapply wf_tracking; [|done]. by eapply tracking_set_client.
Qed.

Lemma wf_tick h m : wf m → wf (tick h m).
Proof.
  intros Hwf. unfold tick. case_bool_decide; [|done].
  eapply wf_tracking; [apply tracking_checkHeartbeats|done].
Qed.

Lemma tracking_touch dev client now m :
  clients m !! dev = Some client →
  tracking m (set_clients (<[dev := withSession (touch now) client]> (clients m)) m).
Proof. intros Hc. by eapply tracking_set_client. Qed.

Lemma wf_handleMessage dev message now m : wf m → wf (handleMessage dev message now m).
Proof.
  intros Hwf. unfold handleMessage.
  destruct (clients m !! dev) as [client|] eqn:Hc; [|done].
  pose proof (tracking_touch dev client now m Hc) as Htouch.
  pose proof (wf_tracking _ _ Htouch Hwf) as Hwf'.
  destruct (type message); try done.
  - destruct (payload message); [|done].
    eapply wf_tracking; [|exact Hwf'].
    eapply (tracking_set_client dev (withSession (touch now) client));
      [apply lookup_insert_eq|done].
  - eapply wf_tracking; [apply tracking_sendMessage|done].
  - destruct (truthy _); [|done]. by apply wf_handleInputResponse.
Qed.

Lemma wf_onMessage h data now m : wf m → wf (onMessage h data now m).
Proof.
  intros Hwf. unfold onMessage.
  destruct (sockets m !! h ≫= listeners) as [[dev name]|]; [|done].
  destruct data; [|done]. by apply wf_handleMessage.
Qed.

(** Arming a timer whose callback is not the deadline of a request. *)
Lemma wf_setTimeout_expiry dev d m : wf m → wf (setTimeout (SessionExpiry dev) d m).2.
Proof.
  intros Hwf. constructor; simpl.
  - exact (wf_sockets _ Hwf).
  - exact (wf_clients _ Hwf).
  - intros h t [[<- _]|[_ Ht]]%lookup_insert_Some; [lia|].
    apply (wf_timers _ Hwf) in Ht. lia.
  - intros sid r Hr. destruct (wf_pending _ Hwf _ _ Hr) as [ms Hms].
    exists ms. rewrite lookup_insert_ne; [done|].
    apply (wf_timers _ Hwf) in Hms. lia.
  - intros h d' sid p ms [[_ ?]|[_ Ht]]%lookup_insert_Some; [done|].
    exact (wf_unsettled _ Hwf _ _ _ _ _ Ht).
  - intros h1 h2 d1 d2 s1 s2 q ms1 ms2
      [[_ ?]|[_ Ht1]]%lookup_insert_Some [[_ ?]|[_ Ht2]]%lookup_insert_Some;
      try done.
    by eapply (wf_deadlines _ Hwf).
  - exact (wf_settled _ Hwf).
  - exact (wf_keys _ Hwf).
Qed.

Lemma wf_onClose h m : wf m → wf (onClose h m).
Proof.
  intros Hwf. unfold onClose.
  pose proof (wf_tracking _ _ (tracking_updateSocket ws_closed h m) Hwf) as Hwf'.
  destruct (sockets m !! h ≫= listeners) as [[dev name]|]; [|done].
  destruct (clients (updateSocket ws_closed h m) !! dev) as [client|] eqn:Hc;
    [|done].
  apply wf_setTimeout_expiry.
  eapply wf_tracking; [|exact Hwf']. by eapply tracking_set_client.
Qed.

Lemma wf_requestMobileInput tag question opts ity timeoutMs now rnd m :
  wf m → wf (requestMobileInput tag question opts ity timeoutMs now rnd m).2.
Proof.
  intros Hwf. unfold requestMobileInput.
  destruct (_ && _); [done|]. simpl.
  match goal with
  | |- context [sendApnsPushToDisconnectedDevices ?payload ?sid ?p ?now ?m0] =>
    pose proof (tracking_push payload sid p now m0) as Hpush;
    generalize dependent (sendApnsPushToDisconnectedDevices payload sid p now m0);
    intros m2 Hpush
  end.
  simpl in *. eapply wf_tracking; [exact Hpush|].
  eapply wf_tracking; [apply tracking_notifyInputRequired|].
  set (sid := newSessionId now rnd).
  set (eff := default (inputTimeoutMs m) timeoutMs).
  constructor; simpl.
  - exact (wf_sockets _ Hwf).
  - exact (wf_clients _ Hwf).
  - intros h t [[<- _]|[_ Ht]]%lookup_insert_Some; [lia|].
    apply (wf_timers _ Hwf) in Ht. lia.
  - intros sid' r [[<- <-]|[Hne Hr]]%lookup_insert_Some; simpl.
    + exists eff. by rewrite lookup_insert_eq.
    + destruct (wf_pending _ Hwf _ _ Hr) as [ms Hms].
      exists ms. rewrite lookup_insert_ne; [done|].
      apply (wf_timers _ Hwf) in Hms. lia.
  - unfold settlements. simpl.
    intros h d sid' p ms [[<- Heq]|[_ Ht]]%lookup_insert_Some.
    + simplify_eq. split; [lia|]. apply settlements_nil.
      intros s Hin. apply (wf_settled _ Hwf) in Hin. lia.
    + destruct (wf_unsettled _ Hwf _ _ _ _ _ Ht). split; [lia|done].
  - intros h1 h2 d1 d2 s1 s2 q ms1 ms2
      [[<- Heq1]|[_ Ht1]]%lookup_insert_Some
      [[<- Heq2]|[_ Ht2]]%lookup_insert_Some; simplify_eq; try done.
    + destruct (wf_unsettled _ Hwf _ _ _ _ _ Ht2). lia.
    + destruct (wf_unsettled _ Hwf _ _ _ _ _ Ht1). lia.
    + by eapply (wf_deadlines _ Hwf).
  - intros p s Hin. apply (wf_settled _ Hwf) in Hin. lia.
  - intros sid' r [[<- <-]|[_ Hr]]%lookup_insert_Some; [done|].
    by eapply wf_keys.
Qed.

(** A loop over a table visits every key once: [P] relates the keys visited
    so far to the state they have produced. *)
Lemma foldl_visit {K V S : Type} `{Countable K} (P : gset K → S → Prop)
    (body : V → K → S → S) (table : gmap K V) (l : list (K * V)) :
  (∀ k v visited acc,
     table !! k = Some v → k ∉ visited → visited ⊆ dom table →
     P visited acc → P ({[k]} ∪ visited) (body v k acc)) →
  ∀ (visited : gset K) (s : S),
    NoDup l.*1 →
    (∀ k v, (k, v) ∈ l → table !! k = Some v ∧ k ∉ visited) →
    visited ⊆ dom table →
    P visited s →
    P (list_to_set l.*1 ∪ visited) (foldl (λ acc kv, body kv.2 kv.1 acc) s l).
Proof.
  intros Hbody. induction l as [|[k v] l IH]; intros visited s Hnd Hl Hsub Hs.
  - simpl. by rewrite (left_id_L ∅ (∪)).
  - rewrite fmap_cons in Hnd. apply NoDup_cons in Hnd as [Hk Hnd].
    rewrite fmap_cons, list_to_set_cons. cbn [foldl fst snd].
    destruct (Hl k v) as [Hkv Hfresh]; [left|].
    assert (Heq : ({[k]} ∪ list_to_set l.*1) ∪ visited
                  = list_to_set l.*1 ∪ ({[k]} ∪ visited)).
    { apply set_eq. intros x. rewrite !elem_of_union. tauto. }
    rewrite Heq. apply IH.
    + done.
    + intros k' v' Hin. destruct (Hl k' v') as [Hkv' Hfresh']; [by right|].
      split; [done|]. rewrite elem_of_union, elem_of_singleton.
      intros [->|?]; [|done]. apply Hk. apply list_elem_of_fmap.
      by exists (k, v').
    + intros x. rewrite elem_of_union, elem_of_singleton.
      intros [->|?]; [|by apply Hsub]. apply elem_of_dom. by exists v.
    + by apply Hbody.
Qed.

Lemma forEach_ind {K V S : Type} `{Countable K} (P : gset K → S → Prop)
    (body : V → K → S → S) (table : gmap K V) (s : S) :
  P ∅ s →
  (∀ k v visited acc,
     table !! k = Some v → k ∉ visited → visited ⊆ dom table →
     P visited acc → P ({[k]} ∪ visited) (body v k acc)) →
  P (dom table) (forEach body table s).
Proof.
  intros Hs Hbody. unfold forEach.
  assert (Hdom : dom table = list_to_set (map_to_list table).*1 ∪ (∅ : gset K)).
  { apply set_eq. intros k.
    rewrite elem_of_dom, elem_of_union, elem_of_list_to_set, list_elem_of_fmap.
    split.
    - intros [v Hv]. left. exists (k, v). split; [done|].
      by apply elem_of_map_to_list.
    - intros [([k' v] & -> & Hin)|Hin]; [|by apply elem_of_empty in Hin].
      exists v. by apply elem_of_map_to_list. }
  rewrite Hdom. apply (foldl_visit P body table); try done.
  - apply NoDup_fst_map_to_list.
  - intros k v Hin. split; [by apply elem_of_map_to_list|].
    apply not_elem_of_empty.
Qed.

(** ** What [shutdown] does *)

Lemma isOpen_true m h :
  isOpen m h = true ↔ ∃ s, sockets m !! h = Some s ∧ readyState s = OPEN.
Proof.
  unfold isOpen. rewrite bool_decide_eq_true. split.
  - destruct (sockets m !! h) as [s|]; [|done]. intros Heq.
    exists s. split; [done|]. by simplify_eq/=.
  - intros (s & -> & Hs). simpl. by rewrite Hs.
Qed.

Lemma readyState_ws_close frame s : readyState (ws_close frame s) ≠ OPEN.
Proof. unfold ws_close. by destruct (readyState s) eqn:Hs; simpl; rewrite ?Hs. Qed.

Lemma closeAll_spec m :
  let m' := forEach (λ client (_ : string) m,
              if isOpen m (ws client)
              then updateSocket (ws_close shutdownFrame) (ws client) m
              else m) (clients m) m in
  tracking m m'
  ∧ (∀ h, sockets m' !! h = sockets m !! h
          ∨ ∃ s, sockets m !! h = Some s ∧ readyState s = OPEN
                 ∧ sockets m' !! h = Some (ws_close shutdownFrame s))
  ∧ (∀ dev client, clients m !! dev = Some client → isOpen m (ws client) = true →
       ∃ s, sockets m !! ws client = Some s
            ∧ sockets m' !! ws client = Some (ws_close shutdownFrame s)).
Proof.
  simpl.
  pose (P := λ (visited : gset string) (acc : Manager),
    tracking m acc
    ∧ (∀ h, sockets acc !! h = sockets m !! h
            ∨ ∃ s, sockets m !! h = Some s ∧ readyState s = OPEN
                   ∧ sockets acc !! h = Some (ws_close shutdownFrame s))
    ∧ (∀ dev client, dev ∈ visited → clients m !! dev = Some client →
         isOpen m (ws client) = true →
         ∃ s, sockets m !! ws client = Some s
              ∧ sockets acc !! ws client = Some (ws_close shutdownFrame s))).
  assert (HP : P (dom (clients m)) (forEach (λ client (_ : string) m,
              if isOpen m (ws client)
              then updateSocket (ws_close shutdownFrame) (ws client) m
              else m) (clients m) m)).
  { apply forEach_ind.
    - split; [done|]. split; [by left|]. set_solver.
    - intros dev client visited acc Hc Hnew _ (Htr & Hso & Hvis).
      assert (Hopen_iff : ∀ h, isOpen acc h = true →
                sockets acc !! h = sockets m !! h).
      { intros h Hopen. destruct (Hso h) as [|(s & Hs & Hrs & Hacc)]; [done|].
        apply isOpen_true in Hopen as (s' & Hs' & Hrs').
        rewrite Hacc in Hs'. simplify_eq.
        by destruct (readyState_ws_close shutdownFrame s). }
      destruct (isOpen acc (ws client)) eqn:Hopen.
      + pose proof (Hopen_iff _ Hopen) as Heq.
        assert (∃ s, sockets m !! ws client = Some s ∧ readyState s = OPEN)
          as (s & Hs & Hrs).
        { apply isOpen_true in Hopen. by rewrite Heq in Hopen. }
        split; [etrans; [exact Htr|apply tracking_updateSocket]|]. split.
        * intros h. simpl. destruct (decide (ws client = h)) as [<-|Hne].
          -- right. exists s. rewrite lookup_alter_eq, Heq, Hs. done.
          -- rewrite lookup_alter_ne by done. apply Hso.
        * intros dev' client' Hin Hc' Hopen'. simpl.
          destruct (decide (ws client = ws client')) as [Hws|Hne].
          -- exists s. rewrite <- Hws. rewrite lookup_alter_eq, Heq, Hs. done.
          -- rewrite lookup_alter_ne by done.
             apply (Hvis dev' client'); [|done|done].
             apply elem_of_union in Hin as [Hin|Hin]; [|done].
             apply elem_of_singleton in Hin. subst dev'. congruence.
      + split; [done|]. split; [done|].
        intros dev' client' Hin Hc' Hopen'.
        apply elem_of_union in Hin as [Hin|Hin]; [|by apply (Hvis dev' client')].
        apply elem_of_singleton in Hin. subst dev'.
        assert (client' = client) as -> by congruence.
        destruct (Hso (ws client)) as [Heq|(s & Hs & Hrs & Hacc)].
        * apply isOpen_true in Hopen'. rewrite <- Heq in Hopen'.
          apply isOpen_true in Hopen'. congruence.
        * by exists s. }
  destruct HP as (Htr & Hso & Hvis). split; [done|]. split; [done|].
  intros dev client Hc. apply (Hvis dev client); [|done].
  apply elem_of_dom. by exists client.
Qed.

Lemma clearAll_spec m :
  let m' := forEach (λ request (_ : string) m, clearTimeout (timeoutId request) m)
              (pendingRequests m) m in
  (∀ h t, timers m' !! h = Some t → timers m !! h = Some t)
  ∧ (∀ sid request, pendingRequests m !! sid = Some request →
       timers m' !! timeoutId request = None)
  ∧ (∀ h, (∀ sid request, pendingRequests m !! sid = Some request →
             timeoutId request ≠ h) → timers m' !! h = timers m !! h)
  ∧ set_timers (timers m) m' = m.
Proof.
  simpl.
  pose (P := λ (visited : gset string) (acc : Manager),
    (∀ h t, timers acc !! h = Some t → timers m !! h = Some t)
    ∧ (∀ sid request, sid ∈ visited → pendingRequests m !! sid = Some request →
         timers acc !! timeoutId request = None)
    ∧ (∀ h, (∀ sid request, pendingRequests m !! sid = Some request →
               timeoutId request ≠ h) → timers acc !! h = timers m !! h)
    ∧ set_timers (timers m) acc = m).
  assert (HP : P (dom (pendingRequests m))
    (forEach (λ request (_ : string) m, clearTimeout (timeoutId request) m)
       (pendingRequests m) m)).
  { apply forEach_ind.
    - split; [done|]. split; [set_solver|]. split; [done|]. by destruct m.
    - intros sid request visited acc Hr Hnew _ (Hsub & Hvis & Hother & Hrest).
      split; [|split; [|split]]; simpl.
      + intros h t [_ Ht]%lookup_delete_Some. by apply Hsub.
      + intros sid' r' Hin Hr'.
        destruct (decide (timeoutId request = timeoutId r')) as [->|Hne].
        * apply lookup_delete_eq.
        * rewrite lookup_delete_ne by done.
          apply elem_of_union in Hin as [Hin|Hin]; [|by eapply Hvis].
          apply elem_of_singleton in Hin. subst sid'. congruence.
      + intros h Hh. rewrite lookup_delete_ne; [by apply Hother|].
        by eapply Hh.
      + rewrite <- Hrest at 2. done. }
  destruct HP as (Hsub & Hvis & Hother & Hrest).
  split; [done|]. split; [|done].
  intros sid request Hr. eapply Hvis; [|done]. apply elem_of_dom. by exists request.
Qed.

(** The state in which [shutdown] leaves the manager. *)
Lemma shutdown_spec m :
  let m' := shutdown m in
  heartbeatInterval m' = None
  ∧ (∀ h, heartbeatInterval m = Some h → intervals m' !! h = None)
  ∧ clients m' = ∅
  ∧ pendingRequests m' = ∅
  ∧ wss m' = false
  ∧ apnsProvider m' = None
  ∧ providerShutdowns m'
    = match apnsProvider m with
      | Some _ => S (providerShutdowns m)
      | None => providerShutdowns m
      end
  ∧ (∀ dev client, clients m !! dev = Some client → isOpen m (ws client) = true →
       ∃ s, sockets m !! ws client = Some s
            ∧ sockets m' !! ws client = Some (ws_close shutdownFrame s))
  ∧ (∀ h, sockets m' !! h = sockets m !! h
          ∨ ∃ s, sockets m !! h = Some s ∧ readyState s = OPEN
                 ∧ sockets m' !! h = Some (ws_close shutdownFrame s))
  ∧ (∀ sid request, pendingRequests m !! sid = Some request →
       timers m' !! timeoutId request = None)
  ∧ (∀ h t, timers m' !! h = Some t → timers m !! h = Some t)
  ∧ (∀ h, (∀ sid request, pendingRequests m !! sid = Some request →
             timeoutId request ≠ h) → timers m' !! h = timers m !! h)
  ∧ settled m' = settled m
  ∧ deviceApnsTokens m' = deviceApnsTokens m
  ∧ nextSocket m' = nextSocket m ∧ nextTimer m' = nextTimer m
  ∧ nextPromise m' = nextPromise m ∧ pushes m' = pushes m.
Proof.
  unfold shutdown.
  set (m1 := match heartbeatInterval m with
             | Some h => set_heartbeatInterval None (clearInterval h m)
             | None => m
             end).
  assert (Hm1 : sockets m1 = sockets m ∧ clients m1 = clients m
                ∧ pendingRequests m1 = pendingRequests m ∧ timers m1 = timers m
                ∧ heartbeatInterval m1 = None
                ∧ (∀ h, heartbeatInterval m = Some h → intervals m1 !! h = None)
                ∧ wss m1 = wss m ∧ apnsProvider m1 = apnsProvider m
                ∧ providerShutdowns m1 = providerShutdowns m
                ∧ settled m1 = settled m
                ∧ deviceApnsTokens m1 = deviceApnsTokens m
                ∧ nextSocket m1 = nextSocket m ∧ nextTimer m1 = nextTimer m
                ∧ nextPromise m1 = nextPromise m ∧ pushes m1 = pushes m).
  { subst m1. destruct (heartbeatInterval m) as [h|] eqn:Hh; simpl;
      repeat split; try done.
    intros h' [= <-]. apply lookup_delete_eq. }
  destruct Hm1 as (Hso1 & Hc1 & Hp1 & Ht1 & Hhb1 & Hiv1 & Hw1 & Hpr1 & Hps1
                   & Hse1 & Htk1 & Hns1 & Hnt1 & Hnp1 & Hpu1).
  destruct (closeAll_spec m1) as (Htr2 & Hso2 & Hcl2).
  set (m2 := forEach _ (clients m1) m1) in *.
  set (m3 := set_clients ∅ m2).
  set (m4 := if wss m3 then set_wss false m3 else m3).
  set (m5 := match apnsProvider m4 with
             | Some _ => set_apnsProvider None
                           (set_providerShutdowns (S (providerShutdowns m4)) m4)
             | None => m4
             end).
  assert (Hm5 : sockets m5 = sockets m2 ∧ clients m5 = ∅
                ∧ pendingRequests m5 = pendingRequests m2 ∧ timers m5 = timers m2
                ∧ heartbeatInterval m5 = heartbeatInterval m2
                ∧ intervals m5 = intervals m2
                ∧ wss m5 = false ∧ apnsProvider m5 = None
                ∧ providerShutdowns m5
                  = match apnsProvider m2 with
                    | Some _ => S (providerShutdowns m2)
                    | None => providerShutdowns m2
                    end
                ∧ settled m5 = settled m2
                ∧ deviceApnsTokens m5 = deviceApnsTokens m2
                ∧ nextSocket m5 = nextSocket m2 ∧ nextTimer m5 = nextTimer m2
                ∧ nextPromise m5 = nextPromise m2 ∧ pushes m5 = pushes m2).
  { subst m5 m4 m3. simpl.
    destruct (wss m2) eqn:Hw; simpl; destruct (apnsProvider m2) eqn:Hpv;
      simpl; rewrite ?Hw, ?Hpv; repeat split; done. }
  destruct Hm5 as (Hso5 & Hc5 & Hp5 & Ht5 & Hhb5 & Hiv5 & Hw5 & Hpr5 & Hps5
                   & Hse5 & Htk5 & Hns5 & Hnt5 & Hnp5 & Hpu5).
  destruct (clearAll_spec m5) as (Hsub6 & Hvis6 & Hoth6 & Hrest6).
  set (m6 := forEach _ (pendingRequests m5) m5) in *.
  assert (Hm6 : ∀ {A} (f : Manager → A),
            (∀ t x, f (set_timers t x) = f x) → f m6 = f m5).
  { intros A f Hf. transitivity (f (set_timers (timers m5) m6)).
    - by rewrite Hf.
    - by rewrite Hrest6. }
  simpl.
  rewrite (Hm6 _ heartbeatInterval), (Hm6 _ intervals), (Hm6 _ wss),
    (Hm6 _ apnsProvider), (Hm6 _ providerShutdowns), (Hm6 _ sockets),
    (Hm6 _ settled), (Hm6 _ deviceApnsTokens), (Hm6 _ nextSocket),
    (Hm6 _ nextTimer), (Hm6 _ nextPromise), (Hm6 _ pushes), (Hm6 _ clients)
    by done.
  rewrite Hhb5, Hiv5, Hw5, Hpr5, Hps5, Hso5, Hse5, Htk5, Hns5, Hnt5, Hnp5, Hpu5,
    Hc5.
  rewrite (tr_heartbeatInterval _ _ Htr2), (tr_intervals _ _ Htr2),
    (tr_apnsProvider _ _ Htr2), (tr_providerShutdowns _ _ Htr2),
    (tr_settled _ _ Htr2), (tr_deviceApnsTokens _ _ Htr2),
    (tr_nextSocket _ _ Htr2), (tr_nextTimer _ _ Htr2),
    (tr_nextPromise _ _ Htr2).
  assert (Hpu2 : pushes m2 = pushes m1).
  { subst m2. apply (forEach_invariant (λ acc, pushes acc = pushes m1)); [done|].
    intros dev client acc _ Hacc. by destruct (isOpen acc (ws client)). }
  assert (Hp52 : pendingRequests m5 = pendingRequests m).
  { rewrite Hp5, <- Hp1. subst m2.
    apply (forEach_invariant (λ acc, pendingRequests acc = pendingRequests m1));
      [done|].
    intros dev client acc _ Hacc. by destruct (isOpen acc (ws client)). }
  assert (Ht52 : timers m5 = timers m).
  { by rewrite Ht5, (tr_timers _ _ Htr2). }
  rewrite Hp52, Ht52 in *.
  repeat split; try done; try congruence.
  - by rewrite Hpr1, Hps1.
  - intros dev client Hc Hopen. rewrite <- Hso1. apply (Hcl2 dev).
    + by rewrite Hc1.
    + apply isOpen_true. apply isOpen_true in Hopen. by rewrite Hso1.
  - intros h. rewrite <- Hso1. apply Hso2.
Qed.

Lemma wf_shutdown m : wf m → wf (shutdown m).
Proof.
  intros Hwf.
  destruct (shutdown_spec m) as (_ & _ & Hc & Hp & _ & _ & _ & _ & Hso & _
    & Hsub & _ & Hse & _ & Hns & Hnt & Hnp & _).
  constructor.
  - intros h s Hs. rewrite Hns.
    destruct (Hso h) as [Heq|(s' & Hs' & _)].
    + rewrite Heq in Hs. by eapply wf_sockets.
    + by eapply wf_sockets.
  - rewrite Hc. intros dev client Hdev. by rewrite lookup_empty in Hdev.
  - rewrite Hnt. intros h t Ht. apply Hsub in Ht. by eapply wf_timers.
  - rewrite Hp. intros sid r Hr. by rewrite lookup_empty in Hr.
  - unfold settlements. rewrite Hse, Hnp. intros h d sid p ms Ht.
    apply Hsub in Ht. exact (wf_unsettled _ Hwf _ _ _ _ _ Ht).
  - intros h1 h2 d1 d2 s1 s2 q ms1 ms2 Ht1 Ht2.
    apply Hsub in Ht1, Ht2. by eapply (wf_deadlines _ Hwf).
  - rewrite Hse, Hnp. exact (wf_settled _ Hwf).
  - rewrite Hp. intros sid r Hr. by rewrite lookup_empty in Hr.
Qed.

Lemma wf_handleConnection h qd qn qt now m :
  wf m → (h < nextSocket m)%nat → wf (handleConnection h qd qn qt now m).
Proof.
  intros Hwf Hh. unfold handleConnection.
  set (dev := orElse qd "unknown"). set (name := orElse qn "Unknown Device").
  set (m1 := match orUndefined qt with
             | Some t => setToken dev t m
             | None => m
             end).
  assert (Hwf1 : wf m1).
  { subst m1. destruct (orUndefined qt); [|done].
    by apply (wf_same m). }
  assert (Hns1 : nextSocket m1 = nextSocket m).
  { subst m1. by destruct (orUndefined qt). }
  assert (Hinsert : ∀ m2 s, wf m2 → nextSocket m2 = nextSocket m →
            wf (set_clients (<[dev := mkClient h s true]> (clients m2)) m2)).
  { intros m2 s [H1 H2 H3 H4 H5 H6 H7 H8] Hns. constructor; simpl; try done.
    intros dev' c [[_ <-]|[_ Hc]]%lookup_insert_Some; simpl; [lia|].
    by eapply H2. }
  assert (Hrest : ∀ m3, wf m3 →
            wf match config (resendPendingRequestsToDevice dev h now m3) with
               | None => resendPendingRequestsToDevice dev h now m3
               | Some cfg =>
                 updateSocket (ws_on dev name) h
                   (sendMessage h
                      (handshakeAck cfg now
                         (resendPendingRequestsToDevice dev h now m3))
                      (resendPendingRequestsToDevice dev h now m3))
               end).
  { intros m3 Hwf3.
    pose proof (wf_tracking _ _ (tracking_resend dev h now m3) Hwf3) as Hwf4.
    destruct (config _); [|done].
    eapply wf_tracking; [apply tracking_updateSocket|].
    eapply wf_tracking; [apply tracking_sendMessage|done]. }
  destruct (clients m1 !! dev) as [existing|] eqn:Hex.
  - apply Hrest. destruct (isOpen m1 (ws existing)).
    + apply Hinsert.
      * eapply wf_tracking; [apply tracking_updateSocket|done].
      * done.
    + by apply Hinsert.
  - apply Hrest. by apply Hinsert.
Qed.

Lemma wf_onConnection qd qn qt now m : wf m → wf (onConnection qd qn qt now m).
Proof.
  intros Hwf. unfold onConnection. apply wf_handleConnection; [|simpl; lia].
  destruct Hwf as [H1 H2 H3 H4 H5 H6 H7 H8]. constructor; simpl; try done.
  - intros h s [[<- _]|[_ Hs]]%lookup_insert_Some; [lia|].
    apply H1 in Hs. lia.
  - intros dev c Hc. apply H2 in Hc. lia.
Qed.

Lemma wf_step m e : wf m → wf (step m e).
Proof.
  intros Hwf. destruct e; simpl.
  - by apply wf_initialize.
  - by apply wf_onConnection.
  - by apply wf_onMessage.
  - by apply wf_onPong.
  - by apply wf_onClose.
  - by apply wf_fireTimer.
  - by apply wf_tick.
  - by apply wf_requestMobileInput.
  - by apply wf_cancelInputRequest.
  - by apply wf_shutdown.
  - eapply wf_tracking; [apply tracking_onPushSettled|done].
Qed.

Lemma wf_run es m : wf m → wf (run es m).
Proof.
  revert m. induction es as [|e es IH]; intros m Hwf; [done|].
  simpl. by apply IH, wf_step.
Qed.

Lemma reachable_wf m : reachable m → wf m.
Proof. intros [es ->]. apply wf_run, wf_newManager. Qed.

Lemma reachable_step m e : reachable m → reachable (step m e).
Proof.
  intros [es ->]. exists (es ++ [e]). unfold run. by rewrite foldl_app.
Qed.

Lemma reachable_run es m : reachable m → reachable (run es m).
Proof.
  intros [es0 ->]. exists (es0 ++ es). unfold run. by rewrite foldl_app.
Qed.

(** ** Fields that few events write *)

Lemma handleInputResponse_frame sid answer name m :
  let m' := handleInputResponse sid answer name m in
  inputTimeoutMs m' = inputTimeoutMs m
  ∧ deviceApnsTokens m' = deviceApnsTokens m
  ∧ clients m' = clients m ∧ sockets m' = sockets m.
Proof.
  simpl. unfold handleInputResponse. by destruct (pendingRequests m !! sid).
Qed.

Lemma handleMessage_frame dev message now m :
  let m' := handleMessage dev message now m in
  inputTimeoutMs m' = inputTimeoutMs m
  ∧ deviceApnsTokens m' = deviceApnsTokens m.
Proof.
  simpl. unfold handleMessage.
  destruct (clients m !! dev) as [client|]; [|done].
  destruct (type message); try done.
  - by destruct (payload message).
  - by rewrite (tr_inputTimeoutMs _ _ (tracking_sendMessage _ _ _)),
      (tr_deviceApnsTokens _ _ (tracking_sendMessage _ _ _)).
  - destruct (truthy _); [|done].
    match goal with
    | |- context [handleInputResponse ?a ?b ?c ?d] =>
      destruct (handleInputResponse_frame a b c d) as (-> & -> & _)
    end. done.
Qed.

Lemma fireTimer_frame h m :
  let m' := fireTimer h m in
  inputTimeoutMs m' = inputTimeoutMs m
  ∧ deviceApnsTokens m' = deviceApnsTokens m
  ∧ sockets m' = sockets m.
Proof.
  simpl. unfold fireTimer. destruct (timers m !! h) as [[d [sid p ms|dev]]|];
    simpl; try done.
  destruct (clients m !! dev); [|done]. by case_bool_decide.
Qed.

Lemma onClose_frame h m :
  let m' := onClose h m in
  inputTimeoutMs m' = inputTimeoutMs m
  ∧ deviceApnsTokens m' = deviceApnsTokens m.
Proof.
  simpl. unfold onClose.
  destruct (sockets m !! h ≫= listeners) as [[dev name]|]; [|done].
  by destruct (clients _ !! dev).
Qed.

Lemma onPong_frame h now m :
  let m' := onPong h now m in
  inputTimeoutMs m' = inputTimeoutMs m
  ∧ deviceApnsTokens m' = deviceApnsTokens m.
Proof.
  simpl. unfold onPong.
  destruct (sockets m !! h ≫= listeners) as [[dev name]|]; [|done].
  by destruct (clients _ !! dev).
Qed.

Lemma requestMobileInput_tracking tag question opts ity timeoutMs now rnd m :
  let sid := newSessionId now rnd in
  let eff := default (inputTimeoutMs m) timeoutMs in
  let m0 :=
    set_pendingRequests
      (<[sid := mkPending sid sid tag question opts ity now (nextPromise m)
                  (nextTimer m) ∅ ∅]> (pendingRequests m))
      (setTimeout (InputDeadline sid (nextPromise m) eff) eff
         (set_nextPromise (S (nextPromise m)) m)).2 in
  let result := requestMobileInput tag question opts ity timeoutMs now rnd m in
  result = (Throw noRecipients, m)
  ∨ (result.1 = Normal (nextPromise m) ∧ tracking m0 result.2).
Proof.
  simpl. unfold requestMobileInput. destruct (_ && _); [by left|]. right.
  simpl.
  match goal with
  | |- context [sendApnsPushToDisconnectedDevices ?payload ?sid ?p ?now ?m0] =>
    pose proof (tracking_push payload sid p now m0) as Hpush;
    generalize dependent (sendApnsPushToDisconnectedDevices payload sid p now m0);
    intros m2 Hpush
  end.
  simpl in *. split; [done|].
  etrans; [|exact Hpush]. apply tracking_notifyInputRequired.
Qed.

Lemma requestMobileInput_frame tag question opts ity timeoutMs now rnd m :
  let m' := (requestMobileInput tag question opts ity timeoutMs now rnd m).2 in
  inputTimeoutMs m' = inputTimeoutMs m
  ∧ deviceApnsTokens m' = deviceApnsTokens m.
Proof.
  simpl.
  destruct (requestMobileInput_tracking tag question opts ity timeoutMs now rnd m)
    as [->|[_ Htr]]; [done|].
  by rewrite (tr_inputTimeoutMs _ _ Htr), (tr_deviceApnsTokens _ _ Htr).
Qed.

Lemma cancelInputRequest_frame sid m :
  let m' := (cancelInputRequest sid m).2 in
  inputTimeoutMs m' = inputTimeoutMs m
  ∧ deviceApnsTokens m' = deviceApnsTokens m.
Proof.
  simpl. unfold cancelInputRequest. by destruct (pendingRequests m !! sid).
Qed.

Lemma shutdown_inputTimeoutMs m : inputTimeoutMs (shutdown m) = inputTimeoutMs m.
Proof.
  unfold shutdown. simpl.
  match goal with
  | |- inputTimeoutMs (forEach ?f ?t ?s) = _ =>
    transitivity (inputTimeoutMs s);
      [apply (forEach_invariant (λ acc, inputTimeoutMs acc = inputTimeoutMs s));
       [done|by intros]|]
  end.
  match goal with
  | |- context [apnsProvider ?x] => destruct (apnsProvider x)
  end; simpl;
  match goal with
  | |- context [wss ?x] => destruct (wss x)
  end; simpl.
  all: match goal with
  | |- inputTimeoutMs (forEach ?f ?t ?s) = _ =>
    transitivity (inputTimeoutMs s);
      [apply (forEach_invariant (λ acc, inputTimeoutMs acc = inputTimeoutMs s));
       [done|intros ? client acc _ Hacc; by destruct (isOpen acc (ws client))]|]
  end.
  all: by destruct (heartbeatInterval m).
Qed.

(** What [handleConnection] does to the durable token table. *)
Lemma handleConnection_frame h qd qn qt now m :
  let m' := handleConnection h qd qn qt now m in
  inputTimeoutMs m' = inputTimeoutMs m
  ∧ deviceApnsTokens m'
    = match orUndefined qt with
      | Some t => <[orElse qd "unknown" := t]> (deviceApnsTokens m)
      | None => deviceApnsTokens m
      end.
Proof.
  simpl. unfold handleConnection.
  set (dev := orElse qd "unknown"). set (name := orElse qn "Unknown Device").
  set (m1 := match orUndefined qt with
             | Some t => setToken dev t m
             | None => m
             end).
  assert (Hm1 : inputTimeoutMs m1 = inputTimeoutMs m
                ∧ deviceApnsTokens m1
                  = match orUndefined qt with
                    | Some t => <[dev := t]> (deviceApnsTokens m)
                    | None => deviceApnsTokens m
                    end).
  { subst m1. by destruct (orUndefined qt). }
  destruct Hm1 as [<- <-].
  assert (Hrest : ∀ m3,
    let m4 := match config (resendPendingRequestsToDevice dev h now m3) with
              | None => resendPendingRequestsToDevice dev h now m3
              | Some cfg =>
                updateSocket (ws_on dev name) h
                  (sendMessage h
                     (handshakeAck cfg now
                        (resendPendingRequestsToDevice dev h now m3))
                     (resendPendingRequestsToDevice dev h now m3))
              end in
    tracking m3 m4).
  { intros m3. simpl. destruct (config _).
    - etrans; [apply tracking_resend|]. etrans; [apply tracking_sendMessage|].
      apply tracking_updateSocket.
    - apply tracking_resend. }
  destruct (clients m1 !! dev) as [existing|].
  - match goal with
    | |- context [resendPendingRequestsToDevice dev h now ?m3] =>
      pose proof (Hrest m3) as Htr
    end.
    simpl in Htr.
    rewrite (tr_inputTimeoutMs _ _ Htr), (tr_deviceApnsTokens _ _ Htr).
    simpl. by destruct (isOpen m1 (ws existing)).
  - match goal with
    | |- context [resendPendingRequestsToDevice dev h now ?m3] =>
      pose proof (Hrest m3) as Htr
    end.
    simpl in Htr.
    by rewrite (tr_inputTimeoutMs _ _ Htr), (tr_deviceApnsTokens _ _ Htr).
Qed.

(** ** The deadline of a request *)

Lemma step_inputTimeoutMs m e :
  inputTimeoutMs (step m e) = configuredTimeout (inputTimeoutMs m) e.
Proof.
  destruct e; simpl.
  - unfold initialize, initializeApns, setInterval. simpl.
    repeat match goal with
           | |- context [match ?x with _ => _ end] => destruct x
           end; simpl; done.
  - unfold onConnection.
    match goal with
    | |- context [handleConnection ?h ?a ?b ?c ?d ?x] =>
      by destruct (handleConnection_frame h a b c d x) as [-> _]
    end.
  - unfold onMessage.
    destruct (sockets m !! h ≫= listeners) as [[dev name]|]; [|done].
    destruct data; [|done]. by destruct (handleMessage_frame dev m0 now m) as [-> _].
  - by destruct (onPong_frame h now m) as [-> _].
  - by destruct (onClose_frame h m) as [-> _].
  - by destruct (fireTimer_frame h m) as [-> _].
  - unfold tick. case_bool_decide; [|done].
    apply (tr_inputTimeoutMs _ _ (tracking_checkHeartbeats m)).
  - by destruct (requestMobileInput_frame tag question opts ity timeoutMs now rnd m)
      as [-> _].
  - by destruct (cancelInputRequest_frame sid m) as [-> _].
  - apply shutdown_inputTimeoutMs.
  - apply (tr_inputTimeoutMs _ _ (tracking_onPushSettled p now m)).
Qed.

Lemma run_inputTimeoutMs es m :
  inputTimeoutMs (run es m) = foldl configuredTimeout (inputTimeoutMs m) es.
Proof.
  revert m. induction es as [|e es IH]; intros m; [done|].
  simpl. by rewrite IH, step_inputTimeoutMs.
Qed.

(** The tail of [handleConnection], from the redelivery on. *)
Lemma tracking_welcome dev name h now m :
  tracking m
    match config (resendPendingRequestsToDevice dev h now m) with
    | None => resendPendingRequestsToDevice dev h now m
    | Some cfg =>
      updateSocket (ws_on dev name) h
        (sendMessage h
           (handshakeAck cfg now (resendPendingRequestsToDevice dev h now m))
           (resendPendingRequestsToDevice dev h now m))
    end.
Proof.
  destruct (config _).
  - etrans; [apply tracking_resend|]. etrans; [apply tracking_sendMessage|].
    apply tracking_updateSocket.
  - apply tracking_resend.
Qed.

Lemma handleConnection_timers h qd qn qt now m :
  timers (handleConnection h qd qn qt now m) = timers m
  ∧ nextTimer (handleConnection h qd qn qt now m) = nextTimer m.
Proof.
  unfold handleConnection.
  destruct (orUndefined qt); simpl;
    destruct (clients _ !! orElse qd "unknown"); simpl;
    try destruct (isOpen _ _); simpl;
    match goal with
    | |- context [resendPendingRequestsToDevice ?dev h now ?m3] =>
      pose proof (tracking_welcome dev (orElse qn "Unknown Device") h now m3)
        as Htr
    end;
    by rewrite (tr_timers _ _ Htr), (tr_nextTimer _ _ Htr).
Qed.

Section armed.
Variables (sid : string) (tid p : nat) (d ms : Z).

(** The deadline timer of a request stays armed as long as no event
    completes the request. *)
Lemma armed_step m e :
  wf m →
  timers m !! tid = Some (mkTimer d (InputDeadline sid p ms)) →
  ¬ completes sid tid e →
  timers (step m e) !! tid = Some (mkTimer d (InputDeadline sid p ms)).
Proof.
  intros Hwf Harmed Hquiet.
  assert (Hother : ∀ sid' request, sid' ≠ sid →
            pendingRequests m !! sid' = Some request → timeoutId request ≠ tid).
  { intros sid' request Hne Hr Heq.
    destruct (wf_pending _ Hwf _ _ Hr) as [ms' Hms']. congruence. }
  pose proof (wf_timers _ Hwf _ _ Harmed) as Hlt.
  destruct e; simpl in *.
  - unfold initialize, initializeApns, setInterval. simpl.
    repeat match goal with
           | |- context [match ?x with _ => _ end] => destruct x
           end; simpl; done.
  - unfold onConnection.
    match goal with
    | |- context [handleConnection ?h ?a ?b ?c ?d ?x] =>
      by destruct (handleConnection_timers h a b c d x) as [-> _]
    end.
  - unfold onMessage.
    destruct (sockets m !! h ≫= listeners) as [[dev name]|]; [|done].
    destruct data as [message|]; [|done]. unfold handleMessage.
    destruct (clients m !! dev) as [client|]; [|done].
    destruct (type message) eqn:Hty; try done.
    + by destruct (payload message).
    + by rewrite (tr_timers _ _ (tracking_sendMessage _ _ _)).
    + destruct (truthy (payloadSessionId (payload message))) eqn:Htruthy;
        [|done].
      destruct (payloadSessionId (payload message)) as [sid'|] eqn:Hsid;
        [|done].
      simpl. unfold handleInputResponse. simpl.
      destruct (pendingRequests m !! sid') as [request|] eqn:Hr; [|done].
      simpl. rewrite lookup_delete_ne; [done|].
      apply (Hother sid'); [|done]. intros ->. by apply Hquiet.
  - unfold onPong.
    destruct (sockets m !! h ≫= listeners) as [[dev name]|]; [|done].
    by destruct (clients m !! dev).
  - unfold onClose.
    destruct (sockets m !! h ≫= listeners) as [[dev name]|]; [|done].
    destruct (clients _ !! dev); [|done]. simpl.
    rewrite lookup_insert_ne; [done|lia].
  - unfold fireTimer.
    destruct (timers m !! h) as [[d' [sid' p' ms'|dev]]|] eqn:Hh; simpl;
      try done.
    + by rewrite lookup_delete_ne.
    + destruct (clients m !! dev); [case_bool_decide|]; simpl;
        by rewrite lookup_delete_ne.
  - unfold tick. case_bool_decide; [|done].
    by rewrite (tr_timers _ _ (tracking_checkHeartbeats m)).
  - destruct (requestMobileInput_tracking tag question opts ity timeoutMs now
                rnd m) as [->|[_ Htr]]; [done|].
    rewrite (tr_timers _ _ Htr). simpl. rewrite lookup_insert_ne; [done|lia].
  - unfold cancelInputRequest.
    destruct (pendingRequests m !! sid0) as [request|] eqn:Hr; [|done].
    simpl. rewrite lookup_delete_ne; [done|].
    apply (Hother sid0); [|done]. intros ->. by apply Hquiet.
  - done.
  - by rewrite (tr_timers _ _ (tracking_onPushSettled _ _ _)).
Qed.

Lemma armed_run es m :
  wf m →
  timers m !! tid = Some (mkTimer d (InputDeadline sid p ms)) →
  Forall (λ e, ¬ completes sid tid e) es →
  timers (run es m) !! tid = Some (mkTimer d (InputDeadline sid p ms)).
Proof.
  revert m. induction es as [|e es IH]; intros m Hwf Harmed Hquiet; [done|].
  apply Forall_cons in Hquiet as [He Hes]. simpl.
  apply IH; [by apply wf_step|by apply armed_step|done].
Qed.
End armed.

(** ** Redelivery on connection *)

Lemma ws_sendAll_nil s : ws_sendAll [] s = s.
Proof. destruct s. unfold ws_sendAll. simpl. by rewrite app_nil_r. Qed.

Lemma ws_send_sendAll msg msgs s :
  ws_send msg (ws_sendAll msgs s) = ws_sendAll (msgs ++ [msg]) s.
Proof. unfold ws_send, ws_sendAll. simpl. by rewrite app_assoc. Qed.

Lemma isOpen_alter f h h' m :
  (∀ s, readyState (f s) = readyState s) →
  isOpen (set_sockets (alter f h' (sockets m)) m) h = isOpen m h.
Proof.
  intros Hf. unfold isOpen. simpl. destruct (decide (h' = h)) as [->|Hne].
  - rewrite lookup_alter_eq. destruct (sockets m !! h); simpl; [|done].
    by rewrite Hf.
  - by rewrite lookup_alter_ne.
Qed.

(** Membership in the set of visited keys. *)
Local Ltac visited_solver :=
  rewrite ?elem_of_union, ?elem_of_singleton in *; tauto.

(** What the loop of [resendPendingRequestsToDevice] does when the socket
    is open. *)
Lemma resend_spec dev h now m :
  isOpen m h = true →
  let m' := resendPendingRequestsToDevice dev h now m in
  tracking m m'
  ∧ clients m' = clients m
  ∧ pendingRequests m' = redelivered dev <$> pendingRequests m
  ∧ ∃ msgs,
      sockets m' = alter (ws_sendAll msgs) h (sockets m)
      ∧ ∀ msg, msg ∈ msgs ↔
               (∃ sid request, pendingRequests m !! sid = Some request
                              ∧ (dev ∉ notifiedDevices request)
                              ∧ msg = inputRequired now request).
Proof.
  intros Hopen. simpl.
  split; [apply tracking_resend|].
  pose (P := λ (visited : gset string) (acc : Manager),
    clients acc = clients m
    ∧ (∀ k, pendingRequests acc !! k
            = if decide (k ∈ visited) then redelivered dev <$> (pendingRequests m !! k)
              else pendingRequests m !! k)
    ∧ ∃ msgs,
        sockets acc = alter (ws_sendAll msgs) h (sockets m)
        ∧ ∀ msg, msg ∈ msgs ↔
                 (∃ sid request, sid ∈ visited
                                ∧ pendingRequests m !! sid = Some request
                                ∧ (dev ∉ notifiedDevices request)
                                ∧ msg = inputRequired now request)).
  assert (HP : P (dom (pendingRequests m)) (resendPendingRequestsToDevice dev h now m)).
  { unfold resendPendingRequestsToDevice. apply forEach_ind.
    - split; [done|]. split; [done|]. exists []. split.
      + symmetry. apply alter_id. intros s _. apply ws_sendAll_nil.
      + intros msg. split; [by intros ?%elem_of_nil|].
        by intros (sid & r & ?%elem_of_empty & _).
    - intros sid request visited acc Hr Hnew _ (Hc & Hp & msgs & Hso & Hmsgs).
      case_bool_decide as Hdev.
      + split; [done|]. split.
        * intros k. rewrite Hp. destruct (decide (k = sid)) as [->|Hne].
          -- rewrite decide_False by done. rewrite decide_True by visited_solver.
             rewrite Hr. simpl. unfold redelivered.
             by rewrite bool_decide_eq_true_2.
          -- destruct (decide (k ∈ visited)).
             ++ by rewrite decide_True by visited_solver.
             ++ by rewrite decide_False by visited_solver.
        * exists msgs. split; [done|]. intros msg. rewrite Hmsgs. split.
          -- intros (k & r & Hk & ?). exists k, r. split; [visited_solver|done].
          -- intros (k & r & Hk & Hkr & Hnot & ->).
             apply elem_of_union in Hk as [Hk|Hk].
             ++ apply elem_of_singleton in Hk. subst k. congruence.
             ++ by exists k, r.
      + assert (Hopen' : isOpen acc h = true).
        { apply isOpen_true in Hopen as (s & Hs & Hrs). apply isOpen_true.
          exists (ws_sendAll msgs s). rewrite Hso, lookup_alter_eq, Hs. done. }
        unfold sendMessage. rewrite Hopen'. subst P. simpl.
        split; [done|]. split.
        * intros k. destruct (decide (k = sid)) as [->|Hne].
          -- rewrite lookup_insert_eq. rewrite decide_True by visited_solver.
             rewrite Hr. simpl. unfold redelivered.
             by rewrite bool_decide_eq_false_2.
          -- rewrite lookup_insert_ne by done. rewrite Hp.
             destruct (decide (k ∈ visited)).
             ++ by rewrite decide_True by visited_solver.
             ++ by rewrite decide_False by visited_solver.
        * exists (msgs ++ [inputRequired now request]). split.
          -- rewrite Hso, alter_alter_eq. apply alter_ext.
             intros s _. apply ws_send_sendAll.
          -- intros msg. rewrite elem_of_app, list_elem_of_singleton, Hmsgs.
             split.
             ++ intros [(k & r & Hk & ?)| ->].
                ** exists k, r. split; [visited_solver|done].
                ** exists sid, request. split; [visited_solver|done].
             ++ intros (k & r & Hk & Hkr & Hnot & ->).
                apply elem_of_union in Hk as [Hk|Hk].
                ** apply elem_of_singleton in Hk. subst k. right. congruence.
                ** left. by exists k, r. }
  destruct HP as (Hc & Hp & msgs & Hso & Hmsgs).
  split; [done|]. split.
  - apply map_eq. intros k. rewrite Hp, lookup_fmap.
    destruct (decide (k ∈ dom (pendingRequests m))) as [|Hk]; [done|].
    apply not_elem_of_dom in Hk. by rewrite Hk.
  - exists msgs. split; [done|]. intros msg. rewrite Hmsgs. split.
    + intros (k & r & _ & ?). by exists k, r.
    + intros (k & r & Hkr & ?). exists k, r. split; [|done].
      apply elem_of_dom. by exists r.
Qed.

(** The tail of [handleConnection] on a socket that has just been opened:
    redelivery, then the acknowledgment and the handlers when the manager
    is configured. *)
Lemma welcome_spec dev name h now m :
  sockets m !! h = Some freshSocket →
  let m4 := resendPendingRequestsToDevice dev h now m in
  let m5 := match config m4 with
            | None => m4
            | Some cfg =>
              updateSocket (ws_on dev name) h
                (sendMessage h (handshakeAck cfg now m4) m4)
            end in
  tracking m m5
  ∧ clients m5 = clients m
  ∧ pendingRequests m5 = redelivered dev <$> pendingRequests m
  ∧ (∀ h', h' ≠ h → sockets m5 !! h' = sockets m !! h')
  ∧ ∃ (msgs : list MonitoringMessage) s,
      sockets m5 !! h = Some s
      ∧ readyState s = OPEN
      ∧ sent s = msgs ++ match config m with
                         | Some cfg => [handshakeAck cfg now m4]
                         | None => []
                         end
      ∧ ∀ msg, msg ∈ msgs ↔
               (∃ sid request, pendingRequests m !! sid = Some request
                              ∧ (dev ∉ notifiedDevices request)
                              ∧ msg = inputRequired now request).
Proof.
  intros Hfresh. simpl.
  assert (Hopen : isOpen m h = true).
  { apply isOpen_true. by exists freshSocket. }
  destruct (resend_spec dev h now m Hopen) as (Htr & Hc & Hp & msgs & Hso & Hmsgs).
  split; [apply tracking_welcome|].
  assert (Hh4 : sockets (resendPendingRequestsToDevice dev h now m) !! h
                = Some (ws_sendAll msgs freshSocket)).
  { by rewrite Hso, lookup_alter_eq, Hfresh. }
  rewrite (tr_config _ _ Htr).
  destruct (config m) as [cfg|] eqn:Hcfg.
  - assert (Hopen4 : isOpen (resendPendingRequestsToDevice dev h now m) h = true).
    { apply isOpen_true. by exists (ws_sendAll msgs freshSocket). }
    unfold sendMessage. rewrite Hopen4. simpl.
    split; [done|]. split; [done|]. split.
    + intros h' Hne. rewrite !lookup_alter_ne by done.
      by rewrite Hso, lookup_alter_ne.
    + exists msgs. eexists. rewrite !lookup_alter_eq, Hh4. simpl.
      split; [done|]. split; [done|]. split; [done|]. exact Hmsgs.
  - split; [done|]. split; [done|]. split.
    + intros h' Hne. by rewrite Hso, lookup_alter_ne.
    + exists msgs. eexists. rewrite Hh4.
      split; [done|]. split; [done|]. split; [|exact Hmsgs].
      simpl. by rewrite app_nil_r.
Qed.

Lemma ws_close_closed frame s : readyState s ≠ OPEN → ws_close frame s = s.
Proof. unfold ws_close. by destruct (readyState s). Qed.

Lemma onConnection_spec qd qn qt now m :
  wf m →
  let dev := orElse qd "unknown" in
  let name := orElse qn "Unknown Device" in
  let h := nextSocket m in
  let m' := onConnection qd qn qt now m in
  clients m'
  = <[dev := mkClient h (installed dev name (orUndefined qt) now (clients m !! dev))
               true]> (clients m)
  ∧ pendingRequests m' = redelivered dev <$> pendingRequests m
  ∧ (∀ h', h' ≠ h → (∀ c, clients m !! dev = Some c → ws c ≠ h') →
       sockets m' !! h' = sockets m !! h')
  ∧ (∀ c, clients m !! dev = Some c →
       sockets m' !! ws c = ws_close None <$> sockets m !! ws c)
  ∧ ∃ (msgs : list MonitoringMessage) s,
      sockets m' !! h = Some s
      ∧ readyState s = OPEN
      ∧ (∀ msg, msg ∈ sent s →
           msg ∈ msgs ∨ type msg = handshake_ack)
      ∧ (∀ msg, msg ∈ msgs → msg ∈ sent s)
      ∧ ∀ msg, msg ∈ msgs ↔
               (∃ sid request, pendingRequests m !! sid = Some request
                              ∧ (dev ∉ notifiedDevices request)
                              ∧ msg = inputRequired now request).
Proof.
  intros Hwf. simpl. unfold onConnection, handleConnection.
  set (dev := orElse qd "unknown"). set (name := orElse qn "Unknown Device").
  set (h := nextSocket m).
  set (m0 := set_nextSocket (S h) (set_sockets (<[h := freshSocket]> (sockets m)) m)).
  set (m1 := match orUndefined qt with
             | Some t => setToken dev t m0
             | None => m0
             end).
  assert (Hm1 : clients m1 = clients m ∧ sockets m1 = <[h := freshSocket]> (sockets m)
                ∧ pendingRequests m1 = pendingRequests m ∧ config m1 = config m).
  { subst m1. by destruct (orUndefined qt). }
  destruct Hm1 as (Hc1 & Hso1 & Hp1 & Hcfg1).
  rewrite Hc1.
  assert (Hfinish : ∀ m3 sess,
    clients m3 = <[dev := mkClient h sess true]> (clients m) →
    pendingRequests m3 = pendingRequests m →
    sockets m3 !! h = Some freshSocket →
    let m4 := resendPendingRequestsToDevice dev h now m3 in
    let m5 := match config m4 with
              | None => m4
              | Some cfg =>
                updateSocket (ws_on dev name) h
                  (sendMessage h (handshakeAck cfg now m4) m4)
              end in
    clients m5 = <[dev := mkClient h sess true]> (clients m)
    ∧ pendingRequests m5 = redelivered dev <$> pendingRequests m
    ∧ (∀ h', h' ≠ h → sockets m5 !! h' = sockets m3 !! h')
    ∧ ∃ (msgs : list MonitoringMessage) s,
        sockets m5 !! h = Some s
        ∧ readyState s = OPEN
        ∧ (∀ msg, msg ∈ sent s → msg ∈ msgs ∨ type msg = handshake_ack)
        ∧ (∀ msg, msg ∈ msgs → msg ∈ sent s)
        ∧ ∀ msg, msg ∈ msgs ↔
                 (∃ sid request, pendingRequests m !! sid = Some request
                                ∧ (dev ∉ notifiedDevices request)
                                ∧ msg = inputRequired now request)).
  { intros m3 sess Hc3 Hp3 Hh3.
    destruct (welcome_spec dev name h now m3 Hh3)
      as (_ & Hc5 & Hp5 & Hso5 & msgs & s & Hs & Hrs & Hsent & Hmsgs).
    simpl. rewrite Hc5, Hp5, Hc3, Hp3.
    split; [done|]. split; [done|]. split; [done|].
    exists msgs, s. split; [done|]. split; [done|]. rewrite Hsent.
    split; [|split].
    - intros msg [Hin|Hin]%elem_of_app; [by left|]. right.
      destruct (config m3); [|by apply elem_of_nil in Hin].
      apply list_elem_of_singleton in Hin. by subst msg.
    - intros msg Hin. apply elem_of_app. by left.
    - by rewrite <- Hp3. }
  destruct (clients m !! dev) as [existing|] eqn:Hex.
  - pose proof (wf_clients _ Hwf _ _ Hex) as Hlt. fold h in Hlt.
    set (m2 := if isOpen m1 (ws existing)
               then updateSocket (ws_close None) (ws existing) m1 else m1).
    assert (Hm2 : clients m2 = clients m ∧ pendingRequests m2 = pendingRequests m
                  ∧ sockets m2 = alter (ws_close None) (ws existing)
                                   (<[h := freshSocket]> (sockets m))).
    { subst m2. destruct (isOpen m1 (ws existing)) eqn:Hopen; simpl.
      - by rewrite Hso1.
      - split; [done|]. split; [done|]. rewrite Hso1. symmetry.
        apply alter_id. intros s Hs. apply ws_close_closed. intros Hrs.
        assert (isOpen m1 (ws existing) = true); [|congruence].
        apply isOpen_true. exists s. by rewrite Hso1. }
    destruct Hm2 as (Hc2 & Hp2 & Hso2).
    match goal with
    | |- context [resendPendingRequestsToDevice dev h now ?m3] =>
      destruct (Hfinish m3 (installed dev name (orUndefined qt) now (Some existing)))
        as (Hc5 & Hp5 & Hso5 & Hnew)
    end.
    { simpl. by rewrite Hc2. }
    { done. }
    { simpl. rewrite Hso2, lookup_alter_ne by lia. apply lookup_insert_eq. }
    simpl in *. split; [exact Hc5|]. split; [exact Hp5|].
    split; [|split; [|exact Hnew]].
    + intros h' Hne Hold. rewrite Hso5 by done. rewrite Hso2.
      rewrite lookup_alter_ne by (by apply Hold).
      by rewrite lookup_insert_ne.
    + intros c [= <-]. rewrite Hso5 by lia. rewrite Hso2, lookup_alter_eq.
      by rewrite lookup_insert_ne by lia.
  - match goal with
    | |- context [resendPendingRequestsToDevice dev h now ?m3] =>
      destruct (Hfinish m3 (installed dev name (orUndefined qt) now None))
        as (Hc5 & Hp5 & Hso5 & Hnew)
    end.
    { simpl. by rewrite Hc1. }
    { done. }
    { simpl. rewrite Hso1. apply lookup_insert_eq. }
    simpl in *. split; [exact Hc5|]. split; [exact Hp5|].
    split; [|split; [|exact Hnew]].
    + intros h' Hne _. rewrite Hso5 by done. rewrite Hso1.
      by rewrite lookup_insert_ne.
    + intros c [=].
Qed.

Lemma truthy_Some (o : option string) :
  truthy o = true ↔ ∃ s, o = Some s ∧ s ≠ "".
Proof.
  unfold truthy. destruct o as [s|]; [|split; [done|by intros (? & ? & _)]].
  destruct (String.eqb_spec s "") as [->|Hne]; simpl.
  - split; [done|]. by intros (s & [= <-] & Hne).
  - split; [|done]. intros _. by exists s.
Qed.

(** ** Live channels *)

Lemma elem_of_liveChannels dev m h :
  h ∈ liveChannels dev m
  ↔ ∃ s, sockets m !! h = Some s ∧ readyState s = OPEN
         ∧ fst <$> listeners s = Some dev.
Proof.
  unfold liveChannels. rewrite list_elem_of_fmap. split.
  - intros ([h' s] & -> & Hin).
    apply list_elem_of_filter in Hin as [[Hrs Hl] Hin].
    apply elem_of_map_to_list in Hin. by exists s.
  - intros (s & Hs & Hrs & Hl). exists (h, s). split; [done|].
    apply list_elem_of_filter. split; [done|]. by apply elem_of_map_to_list.
Qed.

Lemma two_elements {A : Type} (x y : A) (l : list A) :
  x ∈ l → y ∈ l → x ≠ y → (2 ≤ length l)%nat.
Proof.
  intros Hx Hy Hne. destruct l as [|a [|b l]]; simpl; [|exfalso|lia].
  - by apply elem_of_nil in Hx.
  - apply list_elem_of_singleton in Hx, Hy. congruence.
Qed.

(** ** The durable token table *)

Lemma step_deviceApnsTokens m e :
  deviceApnsTokens (step m e) = learnToken (deviceApnsTokens m) e.
Proof.
  destruct e; cbn [step learnToken].
  - unfold initialize, initializeApns, setInterval. simpl.
    repeat match goal with
           | |- context [match ?x with _ => _ end] => destruct x
           end; simpl; done.
  - unfold onConnection.
    match goal with
    | |- context [handleConnection ?h ?a ?b ?c ?d ?x] =>
      destruct (handleConnection_frame h a b c d x) as [_ ->]
    end.
    by destruct (orUndefined qApnsToken).
  - unfold onMessage.
    destruct (sockets m !! h ≫= listeners) as [[dev name]|]; [|done].
    destruct data; [|done]. by destruct (handleMessage_frame dev m0 now m) as [_ ->].
  - by destruct (onPong_frame h now m) as [_ ->].
  - by destruct (onClose_frame h m) as [_ ->].
  - by destruct (fireTimer_frame h m) as (_ & -> & _).
  - unfold tick. case_bool_decide; [|done].
    apply (tr_deviceApnsTokens _ _ (tracking_checkHeartbeats m)).
  - by destruct (requestMobileInput_frame tag question opts ity timeoutMs now rnd m)
      as [_ ->].
  - by destruct (cancelInputRequest_frame sid m) as [_ ->].
  - by destruct (shutdown_spec m)
      as (_ & _ & _ & _ & _ & _ & _ & _ & _ & _ & _ & _ & _ & -> & _).
  - apply (tr_deviceApnsTokens _ _ (tracking_onPushSettled p now m)).
Qed.



(** ** Push fallback *)

Lemma isConnected_same m m' dev :
  clients m' = clients m → sockets m' = sockets m →
  isConnected dev m' = isConnected dev m.
Proof. intros Hc Hs. unfold isConnected, isOpen. by rewrite Hc, Hs. Qed.

Lemma isOpen_readyState m m' h :
  readyState <$> sockets m' !! h = readyState <$> sockets m !! h →
  isOpen m' h = isOpen m h.
Proof. intros Heq. unfold isOpen. by rewrite Heq. Qed.


(** [sendApnsPush] up to its [await] writes the log of the provider's calls
    and nothing else: it calls the provider once when the provider is there
    and the bundle id is configured, and returns at its guard otherwise. *)
Lemma sendApnsPush_spec token payload now m :
  let result := sendApnsPush token payload now m in
  result.2 = set_pushes (pushes result.2) m
  ∧ match apnsProvider m, configuredBundleId m with
    | Some provider, Some bundle =>
      if String.eqb bundle ""
      then result.1 = None ∧ pushes result.2 = pushes m
      else result.1 = Some (send provider (newNotification payload now bundle) token)
           ∧ pushes result.2
             = pushes m ++ [(token, newNotification payload now bundle)]
    | _, _ => result.1 = None ∧ pushes result.2 = pushes m
    end.
Proof.
  simpl. unfold sendApnsPush.
  destruct (apnsProvider m) as [provider|]; [|by destruct m].
  unfold truthy. destruct (configuredBundleId m) as [bundle|]; [|by destruct m].
  destruct (String.eqb bundle ""); simpl; by destruct m.
Qed.

(** The loop writes the push bookkeeping and nothing else. *)
Lemma pushFrom_frame payload sid p pushed now entries i m :
  let m' := pushFrom payload sid p pushed now entries i m in
  m' = set_pushLoops (pushLoops m')
         (set_attempted (attempted m') (set_pushes (pushes m') m)).
Proof.
  revert i m. induction entries as [|dev entries IH]; intros i m; simpl;
    [by destruct m|].
  destruct (deviceApnsTokens m !! dev) as [token|]; [|apply IH].
  destruct (negb _ && negb _); [|apply IH].
  set (m1 := set_attempted _ m).
  destruct (sendApnsPush_spec token payload now m1) as [Heq _].
  destruct (sendApnsPush token payload now m1) as [[answer|] m2]; simpl in Heq.
  - rewrite Heq. by destruct m.
  - specialize (IH (S i) m2). simpl in IH. rewrite IH at 1. rewrite Heq.
    by destruct m.
Qed.

Lemma markPushed_frame p sid dev m :
  let m' := markPushed p sid dev m in
  m' = set_pendingRequests (pendingRequests m') m
  ∧ ∀ sid', notifiedDevices <$> pendingRequests m' !! sid'
            = notifiedDevices <$> pendingRequests m !! sid'.
Proof.
  simpl. unfold markPushed.
  destruct (pendingRequests m !! sid) as [r|] eqn:Hr; [|by destruct m].
  case_bool_decide; [|by destruct m]. split; [by destruct m|].
  intros sid'. simpl. destruct (decide (sid = sid')) as [->|Hne].
  - by rewrite lookup_insert_eq, Hr.
  - by rewrite lookup_insert_ne.
Qed.

(** The push loops leave clients, sockets and notified sets alone. *)
Lemma push_sockets payload sid p now m :
  let m' := sendApnsPushToDisconnectedDevices payload sid p now m in
  sockets m' = sockets m
  ∧ notifiedDevices <$> pendingRequests m' = notifiedDevices <$> pendingRequests m.
Proof.
  simpl. unfold sendApnsPushToDisconnectedDevices.
  destruct (apnsProvider m); [|done].
  by rewrite pushFrom_frame.
Qed.

Lemma push_clients payload sid p now m :
  clients (sendApnsPushToDisconnectedDevices payload sid p now m) = clients m.
Proof.
  unfold sendApnsPushToDisconnectedDevices.
  destruct (apnsProvider m); [|done]. by rewrite pushFrom_frame.
Qed.


Lemma onPushSettled_frame p now m :
  let m' := onPushSettled p now m in
  clients m' = clients m
  ∧ sockets m' = sockets m
  ∧ settled m' = settled m
  ∧ timers m' = timers m
  ∧ ∀ sid, notifiedDevices <$> pendingRequests m' !! sid
           = notifiedDevices <$> pendingRequests m !! sid.
Proof.
  simpl. unfold onPushSettled. destruct (pushLoops m !! p) as [loop|]; [|done].
  cbv zeta. rewrite pushFrom_frame. simpl.
  destruct (pushDelivered (plAnswer loop)); [|done].
  match goal with
  | |- context [markPushed ?p ?sid ?dev ?x] =>
    destruct (markPushed_frame p sid dev x) as [Heq Hn]; rewrite Heq
  end.
  split_and!; try done.
Qed.

Lemma sendMessage_quiet h message m :
  let m' := sendMessage h message m in
  pushes m' = pushes m
  ∧ clients m' = clients m
  ∧ pendingRequests m' = pendingRequests m
  ∧ ∀ h', readyState <$> sockets m' !! h' = readyState <$> sockets m !! h'.
Proof.
  simpl. unfold sendMessage. destruct (isOpen m h); [|done]. simpl.
  split; [done|]. split; [done|]. split; [done|]. intros h'.
  destruct (decide (h = h')) as [->|Hne].
  - rewrite lookup_alter_eq. by destruct (sockets m !! h').
  - by rewrite lookup_alter_ne.
Qed.

(** The live fan-out leaves the push bookkeeping and the state of the
    channels alone. *)
Lemma notifyInputRequired_quiet payload pendingRequest now m :
  let m' := notifyInputRequired payload pendingRequest now m in
  pushes m' = pushes m
  ∧ clients m' = clients m
  ∧ (∀ h, readyState <$> sockets m' !! h = readyState <$> sockets m !! h)
  ∧ ∀ sid, pushedFor sid m' = pushedFor sid m.
Proof.
  simpl. unfold notifyInputRequired.
  apply (forEach_invariant (λ acc,
    pushes acc = pushes m ∧ clients acc = clients m
    ∧ (∀ h, readyState <$> sockets acc !! h = readyState <$> sockets m !! h)
    ∧ ∀ sid, pushedFor sid acc = pushedFor sid m)); [done|].
  intros dev client acc _ (Hpu & Hc & Hrs & Hpf).
  destruct (isOpen acc (ws client)); [|done].
  match goal with
  | |- context [sendMessage ?h ?msg acc] =>
    destruct (sendMessage_quiet h msg acc) as (Hpu1 & Hc1 & Hp1 & Hrs1);
      set (acc1 := sendMessage h msg acc) in *
  end.
  assert (Hpf1 : ∀ sid, pushedFor sid acc1 = pushedFor sid m).
  { intros sid. rewrite <- Hpf. unfold pushedFor. by rewrite Hp1. }
  assert (Hrs1' : ∀ h, readyState <$> sockets acc1 !! h = readyState <$> sockets m !! h).
  { intros h. by rewrite Hrs1. }
  destruct pendingRequest as [sid0|]; simpl.
  - split; [congruence|]. split; [congruence|]. split; [done|].
    intros sid. rewrite <- Hpf1. unfold pushedFor. simpl.
    destruct (decide (sid0 = sid)) as [->|Hne].
    + rewrite lookup_alter_eq. by destruct (pendingRequests acc1 !! sid).
    + by rewrite lookup_alter_ne.
  - split; [congruence|]. split; [congruence|]. done.
Qed.


























(** ** Promises out of reach *)

Lemma abandoned_tracking p m m' : tracking m m' → abandoned p m → abandoned p m'.
Proof.
  intros Htr [H1 H2 H3]. constructor.
  - by rewrite (tr_nextPromise _ _ Htr).
  - intros sid request Hr.
    pose proof (tr_pendingRequests _ _ Htr) as Heq.
    apply (f_equal (λ t, t !! sid)) in Heq. rewrite !lookup_fmap, Hr in Heq.
    destruct (pendingRequests m !! sid) as [r0|] eqn:Hr0; simpl in Heq; [|done].
    apply (inj Some) in Heq.
    rewrite (f_equal promise Heq : promise request = promise r0). by eapply H2.
  - by rewrite (tr_timers _ _ Htr).
Qed.

Lemma settlements_tracking p m m' :
  tracking m m' → settlements p m' = settlements p m.
Proof. intros Htr. unfold settlements. by rewrite (tr_settled _ _ Htr). Qed.

(** Removing requests and timers and settling another promise keeps an
    abandoned promise abandoned and unsettled. *)
Lemma abandoned_shrink p m m' :
  abandoned p m →
  (∀ sid request, pendingRequests m' !! sid = Some request →
     pendingRequests m !! sid = Some request) →
  (∀ h t, timers m' !! h = Some t → timers m !! h = Some t) →
  nextPromise m' = nextPromise m →
  abandoned p m'.
Proof.
  intros [H1 H2 H3] Hp Ht Hn. constructor.
  - by rewrite Hn.
  - intros sid request Hr. by eapply H2, Hp.
  - intros h d sid ms Hh. by eapply H3, Ht.
Qed.

Lemma handleInputResponse_abandoned p sid answer name m :
  abandoned p m →
  abandoned p (handleInputResponse sid answer name m)
  ∧ settlements p (handleInputResponse sid answer name m) = settlements p m.
Proof.
  intros Hab. unfold handleInputResponse.
  destruct (pendingRequests m !! sid) as [request|] eqn:Hr; [|done]. split.
  - apply (abandoned_shrink p m); simpl; try done.
    + by intros sid' r' [_ ?]%lookup_delete_Some.
    + by intros h t [_ ?]%lookup_delete_Some.
  - rewrite settlements_resolve. rewrite decide_False; [by rewrite app_nil_r|].
    by apply (ab_pending _ _ Hab sid).
Qed.

Lemma handleConnection_requests h qd qn qt now m :
  let m' := handleConnection h qd qn qt now m in
  timers m' = timers m ∧ settled m' = settled m
  ∧ nextPromise m' = nextPromise m
  ∧ core <$> pendingRequests m' = core <$> pendingRequests m.
Proof.
  simpl. unfold handleConnection.
  destruct (orUndefined qt); simpl;
    destruct (clients _ !! orElse qd "unknown"); simpl;
    try destruct (isOpen _ _); simpl;
    match goal with
    | |- context [resendPendingRequestsToDevice ?dev h now ?m3] =>
      pose proof (tracking_welcome dev (orElse qn "Unknown Device") h now m3)
        as Htr
    end;
    by rewrite (tr_timers _ _ Htr), (tr_settled _ _ Htr),
      (tr_nextPromise _ _ Htr), (tr_pendingRequests _ _ Htr).
Qed.

Lemma abandoned_step p m e :
  abandoned p m →
  abandoned p (step m e) ∧ settlements p (step m e) = settlements p m.
Proof.
  intros Hab. destruct e; cbn [step].
  - split.
    + destruct Hab as [H1 H2 H3].
      constructor; unfold initialize, initializeApns, setInterval; simpl;
        repeat match goal with
               | |- context [match ?x with _ => _ end] => destruct x
               end; simpl; done.
    + unfold settlements, initialize, initializeApns, setInterval. simpl.
      repeat match goal with
             | |- context [match ?x with _ => _ end] => destruct x
             end; simpl; done.
  - unfold onConnection.
    match goal with
    | |- context [handleConnection ?h ?a ?b ?c ?d ?x] =>
      destruct (handleConnection_requests h a b c d x) as (Ht & Hs & Hn & Hp)
    end.
    simpl in *. split.
    + destruct Hab as [H1 H2 H3]. constructor.
      * by rewrite Hn.
      * intros sid request Hr.
        apply (f_equal (λ t, t !! sid)) in Hp. rewrite !lookup_fmap, Hr in Hp.
        destruct (pendingRequests m !! sid) as [r0|] eqn:Hr0; simpl in Hp; [|done].
        apply (inj Some) in Hp.
        rewrite (f_equal promise Hp : promise request = promise r0). by eapply H2.
      * by rewrite Ht.
    + unfold settlements. by rewrite Hs.
  - unfold onMessage.
    destruct (sockets m !! h ≫= listeners) as [[dev name]|]; [|done].
    destruct data as [message|]; [|done]. unfold handleMessage.
    destruct (clients m !! dev) as [client|] eqn:Hc; [|done].
    pose proof (tracking_touch dev client now m Hc) as Htouch.
    pose proof (abandoned_tracking p _ _ Htouch Hab) as Hab'.
    pose proof (settlements_tracking p _ _ Htouch) as Hs'.
    destruct (type message); try done.
    + destruct (payload message); [|done].
      match goal with
      | |- context [set_clients (<[dev := ?c]> (clients ?x)) ?x] =>
        assert (Htr : tracking x (set_clients (<[dev := c]> (clients x)) x))
      end.
      { eapply (tracking_set_client dev (withSession (touch now) client));
          [apply lookup_insert_eq|done]. }
      split; [by eapply abandoned_tracking|].
      by rewrite (settlements_tracking p _ _ Htr).
    + match goal with
      | |- context [sendMessage ?h ?msg ?x] =>
        pose proof (tracking_sendMessage h msg x) as Htr
      end.
      split; [by eapply abandoned_tracking|].
      by rewrite (settlements_tracking p _ _ Htr).
    + destruct (truthy _); [|done].
      match goal with
      | |- context [handleInputResponse ?a ?b ?c ?x] =>
        destruct (handleInputResponse_abandoned p a b c x Hab') as [? ->]
      end. done.
  - assert (Htr : tracking m (onPong h now m)).
    { unfold onPong.
      destruct (sockets m !! h ≫= listeners) as [[dev name]|]; [|done].
      destruct (clients m !! dev) as [client|] eqn:Hc; [|done].
      by eapply tracking_set_client. }
    split; [by eapply abandoned_tracking|by apply settlements_tracking].
  - unfold onClose.
    pose proof (tracking_updateSocket ws_closed h m) as Htr.
    destruct (sockets m !! h ≫= listeners) as [[dev name]|];
      [|split; [by eapply abandoned_tracking|by apply settlements_tracking]].
    destruct (clients (updateSocket ws_closed h m) !! dev) as [client|] eqn:Hc;
      [|split; [by eapply abandoned_tracking|by apply settlements_tracking]].
    match goal with
    | |- context [setTimeout ?cb ?d ?x] =>
      assert (Htr2 : tracking m x)
    end.
    { etrans; [exact Htr|]. by eapply tracking_set_client. }
    pose proof (abandoned_tracking p _ _ Htr2 Hab) as [H1 H2 H3].
    split.
    + constructor; simpl; try done.
      intros h' d sid ms [[_ ?]|[_ Hh]]%lookup_insert_Some; [done|].
      by eapply H3.
    + unfold settlements. simpl. by rewrite ?(tr_settled _ _ Htr2).
  - unfold fireTimer.
    destruct (timers m !! h) as [[d [sid q ms|dev]]|] eqn:Hh; simpl; [| |done].
    + split.
      * apply (abandoned_shrink p m); simpl; try done.
        -- by intros sid' r' [_ ?]%lookup_delete_Some.
        -- by intros h' t [_ ?]%lookup_delete_Some.
      * rewrite settlements_reject. rewrite decide_False; [by rewrite app_nil_r|].
        intros ->. by eapply (ab_timers _ _ Hab).
    + assert (Hdel : abandoned p (set_timers (delete h (timers m)) m)).
      { apply (abandoned_shrink p m); simpl; try done.
        by intros h' t [_ ?]%lookup_delete_Some. }
      destruct (clients m !! dev); [case_bool_decide|]; try done.
      split; [|done]. by destruct Hdel.
  - unfold tick. case_bool_decide; [|done].
    pose proof (tracking_checkHeartbeats m) as Htr.
    split; [by eapply abandoned_tracking|by apply settlements_tracking].
  - destruct (requestMobileInput_tracking tag question opts ity timeoutMs now rnd m)
      as [->|[_ Htr]]; [done|].
    rewrite (settlements_tracking p _ _ Htr).
    split; [|done]. eapply abandoned_tracking; [exact Htr|].
    destruct Hab as [H1 H2 H3]. constructor; simpl.
    + lia.
    + intros sid' r [[_ <-]|[_ Hr]]%lookup_insert_Some; simpl; [lia|].
      by eapply H2.
    + intros h d sid' ms [[_ Heq]|[_ Hh]]%lookup_insert_Some;
        [simplify_eq; lia|].
      by eapply H3.
  - unfold cancelInputRequest.
    destruct (pendingRequests m !! sid) as [request|] eqn:Hr; [|done]. split.
    + apply (abandoned_shrink p m); simpl; try done.
      * by intros sid' r' [_ ?]%lookup_delete_Some.
      * by intros h t [_ ?]%lookup_delete_Some.
    + cbn [snd]. rewrite settlements_reject.
      rewrite decide_False; [by rewrite app_nil_r|].
      by apply (ab_pending _ _ Hab sid).
  - destruct (shutdown_spec m)
      as (_ & _ & _ & Hp & _ & _ & _ & _ & _ & _ & Hsub & _ & Hse & _ & _ & _
          & Hnp & _).
    split.
    + apply (abandoned_shrink p m); try done.
    + unfold settlements. by rewrite Hse.
  - match goal with
    | |- context [onPushSettled ?q ?t m] =>
      pose proof (tracking_onPushSettled q t m) as Htr
    end.
    split; [by eapply abandoned_tracking|by apply settlements_tracking].
Qed.

Lemma abandoned_run p es m :
  abandoned p m →
  abandoned p (run es m) ∧ settlements p (run es m) = settlements p m.
Proof.
  revert m. induction es as [|e es IH]; intros m Hab; [done|].
  simpl. destruct (abandoned_step p m e Hab) as [Hab' Hs'].
  destruct (IH _ Hab') as [Hab'' Hs'']. split; [done|congruence].
Qed.

(** ** No promise is settled twice *)

(** An event settles nothing, or completes one request whose deadline
    timer was armed. *)
Lemma step_settles m e :
  wf m →
  settled (step m e) = settled m
  ∨ ∃ tid sid q s d ms,
      timers m !! tid = Some (mkTimer d (InputDeadline sid q ms))
      ∧ settled (step m e) = settled m ++ [(q, s)]
      ∧ timers (step m e) = delete tid (timers m)
      ∧ pendingRequests (step m e) = delete sid (pendingRequests m)
      ∧ nextPromise (step m e) = nextPromise m.
Proof.
  intros Hwf. destruct e; cbn [step].
  - left. unfold initialize, initializeApns, setInterval. simpl.
    repeat match goal with
           | |- context [match ?x with _ => _ end] => destruct x
           end; simpl; done.
  - left. unfold onConnection.
    match goal with
    | |- context [handleConnection ?h ?a ?b ?c ?d ?x] =>
      by destruct (handleConnection_requests h a b c d x) as (_ & -> & _)
    end.
  - unfold onMessage.
    destruct (sockets m !! h ≫= listeners) as [[dev name]|]; [|by left].
    destruct data as [message|]; [|by left]. unfold handleMessage.
    destruct (clients m !! dev) as [client|]; [|by left].
    destruct (type message); try by left.
    + left. by destruct (payload message).
    + left. by rewrite (tr_settled _ _ (tracking_sendMessage _ _ _)).
    + destruct (truthy _); [|by left].
      unfold handleInputResponse. simpl.
      destruct (pendingRequests m !! _) as [request|] eqn:Hr; [|by left].
      destruct (wf_pending _ Hwf _ _ Hr) as [ms Hms].
      right. by eexists _, _, _, _, _, _.
  - left. unfold onPong.
    destruct (sockets m !! h ≫= listeners) as [[dev name]|]; [|done].
    by destruct (clients m !! dev).
  - left. unfold onClose.
    destruct (sockets m !! h ≫= listeners) as [[dev name]|]; [|done].
    by destruct (clients _ !! dev).
  - unfold fireTimer.
    destruct (timers m !! h) as [[d [sid q ms|dev]]|] eqn:Hh; simpl; [| |by left].
    + right. by eexists _, _, _, _, _, _.
    + left. destruct (clients m !! dev); [|done]. by case_bool_decide.
  - left. unfold tick. case_bool_decide; [|done].
    apply (tr_settled _ _ (tracking_checkHeartbeats m)).
  - left.
    destruct (requestMobileInput_tracking tag question opts ity timeoutMs now rnd m)
      as [->|[_ Htr]]; [done|].
    by rewrite (tr_settled _ _ Htr).
  - unfold cancelInputRequest.
    destruct (pendingRequests m !! sid) as [request|] eqn:Hr; [|by left].
    destruct (wf_pending _ Hwf _ _ Hr) as [ms Hms].
    right. by eexists _, _, _, _, _, _.
  - left. by destruct (shutdown_spec m)
      as (_ & _ & _ & _ & _ & _ & _ & _ & _ & _ & _ & _ & -> & _).
  - left. apply (tr_settled _ _ (tracking_onPushSettled p now m)).
Qed.

(** Once a request is complete nothing refers to its promise. *)
Lemma finish_abandons m m' tid sid p d ms :
  wf m →
  timers m !! tid = Some (mkTimer d (InputDeadline sid p ms)) →
  timers m' = delete tid (timers m) →
  pendingRequests m' = delete sid (pendingRequests m) →
  nextPromise m' = nextPromise m →
  abandoned p m'.
Proof.
  intros Hwf Htid Ht Hp Hn. constructor.
  - rewrite Hn. by destruct (wf_unsettled _ Hwf _ _ _ _ _ Htid).
  - rewrite Hp. intros sid' r' [Hne Hr']%lookup_delete_Some Hpr.
    destruct (wf_pending _ Hwf _ _ Hr') as [ms' Hms']. rewrite Hpr in Hms'.
    assert (timeoutId r' = tid) as Heq by by eapply (wf_deadlines _ Hwf).
    rewrite Heq in Hms'. congruence.
  - rewrite Ht. intros h d' sid' ms' [Hne Hh]%lookup_delete_Some.
    destruct Hne. by eapply (wf_deadlines _ Hwf).
Qed.

Lemma settledOnce_step m e : wf m → settledOnce m → settledOnce (step m e).
Proof.
  intros Hwf Honce p. destruct (Honce p) as [Hnil|[Hlen Hab]].
  - destruct (step_settles m e Hwf)
      as [Hsame|(tid & sid & q & s & d & ms & Htid & Hs & Ht & Hp & Hn)].
    + left. unfold settlements in *. by rewrite Hsame.
    + unfold settlements in *. rewrite Hs, filter_app, fmap_app, Hnil.
      rewrite filter_cons, filter_nil. simpl.
      destruct (decide (q = p)) as [->|]; [|by left].
      right. split; [done|]. by eapply (finish_abandons m).
  - right. destruct (abandoned_step p m e Hab) as [Hab' Hs'].
    split; [by rewrite Hs'|done].
Qed.

Lemma settledOnce_reachable m : reachable m → settledOnce m.
Proof.
  intros [es ->]. unfold run.
  induction es as [|e es IH] using rev_ind; [by left|].
  rewrite foldl_app. simpl. apply settledOnce_step; [|done].
  apply wf_run, wf_newManager.
Qed.

Lemma settled_at_most_once p m : reachable m → (length (settlements p m) ≤ 1)%nat.
Proof.
  intros Hreach.
  destruct (settledOnce_reachable m Hreach p) as [->|[-> _]]; simpl; lia.
Qed.

Lemma kept_refl m : kept m m.
Proof. intros dev c' Hc. by exists c'. Qed.

Lemma kept_trans m1 m2 m3 : kept m1 m2 → kept m2 m3 → kept m1 m3.
Proof.
  intros H12 H23 dev c3 Hc3.
  destruct (H23 _ _ Hc3) as (c2 & Hc2 & Heq23).
  destruct (H12 _ _ Hc2) as (c1 & Hc1 & Heq12).
  exists c1. split; [done|congruence].
Qed.

Lemma kept_same m m' : clients m' = clients m → kept m m'.
Proof. intros Heq dev c' Hc. rewrite Heq in Hc. by exists c'. Qed.

Lemma kept_insert m m' dev c c' :
  clients m !! dev = Some c → identity c' = identity c →
  clients m' = <[dev := c']> (clients m) →
  kept m m'.
Proof.
  intros Hc Hid Heq dev' c'' Hc''. rewrite Heq in Hc''.
  destruct (decide (dev' = dev)) as [->|Hne].
  - rewrite lookup_insert_eq in Hc''. injection Hc'' as <-. by exists c.
  - rewrite lookup_insert_ne in Hc'' by done. by exists c''.
Qed.

Lemma kept_delete m m' dev :
  clients m' = delete dev (clients m) → kept m m'.
Proof.
  intros Heq dev' c' Hc'. rewrite Heq in Hc'.
  apply lookup_delete_Some in Hc' as [_ Hc']. by exists c'.
Qed.

(** ** Sessions across events *)

Lemma initialize_clients newProvider cfg m :
  clients (initialize newProvider cfg m) = clients m
  ∧ sockets (initialize newProvider cfg m) = sockets m
  ∧ pendingRequests (initialize newProvider cfg m) = pendingRequests m.
Proof.
  unfold initialize, initializeApns, setInterval.
  repeat (case_match; simpl); done.
Qed.

Lemma sendMessage_clients h message m :
  clients (sendMessage h message m) = clients m.
Proof. unfold sendMessage. by destruct (isOpen m h). Qed.

Lemma notifyInputRequired_clients payload pendingRequest now m :
  clients (notifyInputRequired payload pendingRequest now m) = clients m.
Proof.
  unfold notifyInputRequired.
  apply (forEach_invariant (λ acc, clients acc = clients m)); [done|].
  intros dev client acc _ Hacc. destruct (isOpen acc (ws client)); [|done].
  destruct pendingRequest; simpl; by rewrite sendMessage_clients.
Qed.

Lemma requestMobileInput_clients tag question opts ity timeoutMs now rnd m :
  clients (requestMobileInput tag question opts ity timeoutMs now rnd m).2
  = clients m.
Proof.
  unfold requestMobileInput. destruct (_ && _); [done|]. simpl.
  by rewrite push_clients, notifyInputRequired_clients.
Qed.

Lemma handleMessage_kept dev message now m :
  kept m (handleMessage dev message now m).
Proof.
  unfold handleMessage.
  destruct (clients m !! dev) as [client|] eqn:Hc; [|apply kept_refl].
  assert (Htouch : kept m (set_clients
            (<[dev := withSession (touch now) client]> (clients m)) m)).
  { by apply (kept_insert _ _ dev client (withSession (touch now) client)). }
  destruct (type message); try exact Htouch.
  - destruct (payload message); [|exact Htouch].
    apply (kept_insert _ _ dev client
             (withSession (rename (orElse (payloadDeviceName (Some p))
                (deviceName (session (withSession (touch now) client)))))
                (withSession (touch now) client))); [done..|].
    simpl. by rewrite insert_insert_eq.
  - eapply kept_trans; [exact Htouch|]. apply kept_same, sendMessage_clients.
  - destruct (truthy _); [|exact Htouch].
    eapply kept_trans; [exact Htouch|]. apply kept_same.
    match goal with
    | |- context [handleInputResponse ?a ?b ?c ?d] =>
      destruct (handleInputResponse_frame a b c d) as (_ & _ & -> & _)
    end. done.
Qed.

Lemma checkHeartbeats_kept m : kept m (checkHeartbeats m).
Proof.
  unfold checkHeartbeats.
  apply (forEach_invariant (kept m)); [apply kept_refl|].
  intros dev client acc Hc Hacc.
  destruct (negb (isAlive client) && isOpen acc (ws client)).
  { eapply kept_trans; [exact Hacc|]. by apply kept_same. }
  assert (Hk : kept m (set_clients (<[dev := setAlive false client]> (clients acc)) acc)).
  { intros dev' c' Hc'. simpl in Hc'.
    destruct (decide (dev' = dev)) as [->|Hne].
    - rewrite lookup_insert_eq in Hc'. injection Hc' as <-. by exists client.
    - rewrite lookup_insert_ne in Hc' by done. by apply Hacc. }
  destruct (isOpen _ _); [|exact Hk].
  eapply kept_trans; [exact Hk|]. by apply kept_same.
Qed.

Lemma step_kept m e :
  match e with
  | Connection _ _ _ _ => True
  | _ => kept m (step m e)
  end.
Proof.
  destruct e as [np cfg|qd qn qt now|h data now|h now|h|h|h
                 |tag question opts ity timeoutMs now rnd|sid| |q t];
    cbn [step]; [|done|..].
  - apply kept_same, initialize_clients.
  - unfold onMessage.
    destruct (sockets m !! h ≫= listeners) as [[dev name]|]; [|apply kept_refl].
    destruct data; [apply handleMessage_kept|apply kept_refl].
  - unfold onPong.
    destruct (sockets m !! h ≫= listeners) as [[dev name]|]; [|apply kept_refl].
    destruct (clients m !! dev) as [client|] eqn:Hc; [|apply kept_refl].
    eapply (kept_insert _ _ dev client); [done| |simpl; reflexivity]; done.
  - unfold onClose.
    destruct (sockets m !! h ≫= listeners) as [[dev name]|];
      [|by apply kept_same].
    simpl. destruct (clients m !! dev) as [client|] eqn:Hc; [|by apply kept_same].
    eapply (kept_insert _ _ dev client); [done| |simpl; reflexivity]; done.
  - unfold fireTimer.
    destruct (timers m !! h) as [[d [sid p ms|dev]]|]; simpl;
      [by apply kept_same| |apply kept_refl].
    destruct (clients m !! dev); [|by apply kept_same].
    case_bool_decide; [by eapply kept_delete|by apply kept_same].
  - unfold tick. case_bool_decide; [apply checkHeartbeats_kept|apply kept_refl].
  - apply kept_same, requestMobileInput_clients.
  - apply kept_same. unfold cancelInputRequest.
    by destruct (pendingRequests m !! sid).
  - intros dev c' Hc'.
    destruct (shutdown_spec m) as (_ & _ & Hcl & _).
    by rewrite Hcl in Hc'.
  - apply kept_same. by destruct (onPushSettled_frame q t m) as [-> _].
Qed.

Lemma coherent_newManager : coherent newManager.
Proof. constructor; intros *; simpl; by rewrite lookup_empty. Qed.

Lemma orUndefined_Some o t : orUndefined o = Some t → o = Some t ∧ t ≠ "".
Proof.
  unfold orUndefined, truthy. destruct o as [s|]; [|done].
  destruct (String.eqb_spec s "") as [->|Hne]; simpl; [done|].
  by intros [= ->].
Qed.

Lemma coherent_kept m m' :
  kept m m' → deviceApnsTokens m' = deviceApnsTokens m →
  coherent m → coherent m'.
Proof.
  intros Hk Htok [Hws Hid Htoken]. constructor.
  - intros d1 d2 c1 c2 H1 H2 Heq.
    destruct (Hk _ _ H1) as (c1' & H1' & Hi1).
    destruct (Hk _ _ H2) as (c2' & H2' & Hi2).
    apply (Hws d1 d2 c1' c2' H1' H2').
    unfold identity in *. congruence.
  - intros dev c Hc. destruct (Hk _ _ Hc) as (c' & Hc' & Hi).
    rewrite <- (Hid dev c' Hc'). unfold identity in Hi. congruence.
  - intros dev c t Hc Ht. destruct (Hk _ _ Hc) as (c' & Hc' & Hi).
    rewrite Htok. apply (Htoken dev c' t Hc').
    unfold identity in Hi. congruence.
Qed.

Lemma coherent_onConnection qd qn qt now m :
  wf m → coherent m → coherent (onConnection qd qn qt now m).
Proof.
  intros Hwf [Hws Hid Htoken].
  destruct (onConnection_spec qd qn qt now m Hwf) as (Hcl & _).
  pose proof (step_deviceApnsTokens m (Connection qd qn qt now)) as Htok.
  cbn [step learnToken] in Htok.
  set (dev := orElse qd "unknown") in *.
  set (name := orElse qn "Unknown Device") in *.
  set (m' := onConnection qd qn qt now m) in *.
  assert (Hfresh : ∀ d c, clients m !! d = Some c → ws c ≠ nextSocket m).
  { intros d c Hc. pose proof (wf_clients _ Hwf d c Hc). lia. }
  constructor.
  - intros d1 d2 c1 c2 H1 H2 Heq. rewrite Hcl in H1, H2.
    destruct (decide (d1 = dev)) as [->|Hne1];
      destruct (decide (d2 = dev)) as [->|Hne2]; [done|..].
    + rewrite lookup_insert_eq in H1. rewrite lookup_insert_ne in H2 by done.
      injection H1 as <-. simpl in Heq. by destruct (Hfresh _ _ H2).
    + rewrite lookup_insert_eq in H2. rewrite lookup_insert_ne in H1 by done.
      injection H2 as <-. simpl in Heq. by destruct (Hfresh _ _ H1).
    + rewrite lookup_insert_ne in H1, H2 by done. by apply (Hws d1 d2 c1 c2).
  - intros d c Hc. rewrite Hcl in Hc.
    destruct (decide (d = dev)) as [->|Hne].
    + rewrite lookup_insert_eq in Hc. injection Hc as <-.
      simpl. unfold installed. by destruct (clients m !! dev).
    + rewrite lookup_insert_ne in Hc by done. by apply Hid.
  - intros d c t Hc Ht. rewrite Hcl in Hc. rewrite Htok.
    destruct (decide (d = dev)) as [->|Hne].
    + rewrite lookup_insert_eq in Hc. injection Hc as <-. simpl in Ht.
      destruct (orUndefined qt) as [t'|] eqn:Hqt.
      * assert (t = t') as ->.
        { unfold installed in Ht. destruct (clients m !! dev); simpl in Ht;
            congruence. }
        rewrite lookup_insert_eq. split; [|done].
        by destruct (orUndefined_Some _ _ Hqt).
      * unfold installed in Ht.
        destruct (clients m !! dev) as [existing|] eqn:Hex; simpl in Ht; [|done].
        destruct (truthy (apnsToken (session existing))); simpl in Ht; [|done].
        by apply (Htoken dev existing).
    + rewrite lookup_insert_ne in Hc by done.
      destruct (Htoken d c t Hc Ht) as [Hne' Hlk]. split; [done|].
      destruct (orUndefined qt); [|done]. by rewrite lookup_insert_ne.
Qed.

Lemma coherent_step m e : wf m → coherent m → coherent (step m e).
Proof.
  intros Hwf Hco.
  pose proof (step_kept m e) as Hk.
  pose proof (step_deviceApnsTokens m e) as Htok.
  destruct e; try (by apply (coherent_kept m)).
  by apply coherent_onConnection.
Qed.

Lemma coherent_run es m : wf m → coherent m → coherent (run es m).
Proof.
  revert m. induction es as [|e es IH]; intros m Hwf Hco; [done|].
  apply IH; [by apply wf_step|by apply coherent_step].
Qed.

Lemma reachable_coherent m : reachable m → coherent m.
Proof.
  intros [es ->]. apply coherent_run; [apply wf_newManager|apply coherent_newManager].
Qed.

(** ** Who gets in *)

Lemma configuredTimeout_minutes t e :
  (60000 | t) → (60000 | configuredTimeout t e).
Proof.
  intros Ht. destruct e; try done. simpl.
  destruct (monitoring cfg) as [mc|]; [|done].
  case_bool_decide; [|done].
  exists (input_timeout_minutes mc). lia.
Qed.

Lemma reachable_minutes m : reachable m → (60000 | inputTimeoutMs m).
Proof.
  intros [es ->]. rewrite run_inputTimeoutMs.
  generalize (inputTimeoutMs newManager), (ltac:(by exists 30) : (60000 | inputTimeoutMs newManager)).
  induction es as [|e es IH]; intros t Ht; [done|].
  simpl. by apply IH, configuredTimeout_minutes.
Qed.

Lemma getAllSessions_devices m :
  coherent m → deviceId <$> getAllSessions m = (map_to_list (clients m)).*1.
Proof.
  intros Hco. unfold getAllSessions. rewrite <- !list_fmap_compose.
  apply Forall_fmap_ext_1, Forall_forall. intros [dev c] Hin. simpl.
  apply elem_of_map_to_list in Hin. by apply (co_id _ Hco).
Qed.

(** ** Broadcasts *)

(** A loop that writes [message] to the socket of every client whose
    channel is open, and does [extra] bookkeeping beside: each open
    registered socket gets the message once, no other socket changes. *)
Lemma broadcast_spec (extra : string → Manager → Manager) message m :
  (∀ dev acc, sockets (extra dev acc) = sockets acc
              ∧ clients (extra dev acc) = clients acc) →
  (∀ d1 d2 c1 c2, clients m !! d1 = Some c1 → clients m !! d2 = Some c2 →
                  ws c1 = ws c2 → d1 = d2) →
  let m' := forEach (λ client dev acc,
              if isOpen acc (ws client)
              then extra dev (sendMessage (ws client) message acc)
              else acc) (clients m) m in
  clients m' = clients m
  ∧ (∀ dev c, clients m !! dev = Some c → isOpen m (ws c) = true →
       sockets m' !! ws c = ws_send message <$> sockets m !! ws c)
  ∧ (∀ h, (∀ dev c, clients m !! dev = Some c → isOpen m (ws c) = true →
             ws c ≠ h) →
       sockets m' !! h = sockets m !! h).
Proof.
  intros Hextra Hinj m'.
  set (P := λ (visited : gset string) (acc : Manager),
    clients acc = clients m
    ∧ ∀ h,
        (∃ dev c, dev ∈ visited ∧ clients m !! dev = Some c ∧ ws c = h
                  ∧ isOpen m h = true
                  ∧ sockets acc !! h = ws_send message <$> sockets m !! h)
        ∨ ((∀ dev c, dev ∈ visited → clients m !! dev = Some c →
              isOpen m (ws c) = true → ws c ≠ h)
           ∧ sockets acc !! h = sockets m !! h)).
  assert (HP : P (dom (clients m)) m').
  { apply forEach_ind.
    { split; [done|]. intros h. right. split; [|done].
      intros dev c Hin. set_solver. }
    intros k v visited acc Hk Hnew Hsub [Hcl Hsock].
    assert (Hv : sockets acc !! ws v = sockets m !! ws v).
    { destruct (Hsock (ws v)) as [(dev & c & Hin & Hc & Hws & _)|[_ H]]; [|done].
      destruct Hnew. by rewrite <- (Hinj dev k c v Hc Hk Hws). }
    assert (Hopen : isOpen acc (ws v) = isOpen m (ws v)).
    { unfold isOpen. by rewrite Hv. }
    rewrite Hopen. destruct (isOpen m (ws v)) eqn:Hov.
    - destruct (Hextra k (sendMessage (ws v) message acc)) as [Hs Hc].
      split; [by rewrite Hc, sendMessage_clients|].
      intros h. rewrite Hs. unfold sendMessage. rewrite Hopen. simpl.
      destruct (decide (h = ws v)) as [->|Hne].
      + left. exists k, v. rewrite lookup_alter_eq, Hv.
        split; [visited_solver|]. done.
      + rewrite lookup_alter_ne by done.
        destruct (Hsock h) as [(dev & c & Hin & Hc' & Hws & Ho & Hl)|[Hnone Hl]].
        * left. exists dev, c. split; [visited_solver|]. done.
        * right. split; [|done]. intros dev c Hin Hc' Ho.
          apply elem_of_union in Hin as [Hin|Hin].
          -- apply elem_of_singleton in Hin as ->. rewrite Hk in Hc'.
             injection Hc' as <-. done.
          -- by apply (Hnone dev c).
    - split; [done|]. intros h.
      destruct (Hsock h) as [(dev & c & Hin & Hc' & Hws & Ho & Hl)|[Hnone Hl]].
      + left. exists dev, c. split; [visited_solver|]. done.
      + right. split; [|done]. intros dev c Hin Hc' Ho.
        apply elem_of_union in Hin as [Hin|Hin].
        * apply elem_of_singleton in Hin as ->. rewrite Hk in Hc'.
          injection Hc' as <-. congruence.
        * by apply (Hnone dev c). }
  destruct HP as [Hcl Hsock]. split; [done|]. split.
  - intros dev c Hc Ho.
    destruct (Hsock (ws c)) as [(_ & _ & _ & _ & _ & _ & Hl)|[Hnone _]]; [done|].
    destruct (Hnone dev c); [by apply elem_of_dom|done..].
  - intros h Hh.
    destruct (Hsock h) as [(dev & c & _ & Hc & Hws & Ho & _)|[_ Hl]]; [|done].
    subst h. by destruct (Hh dev c).
Qed.

Lemma notifyInputRequired_sockets payload pendingRequest now m :
  (∀ d1 d2 c1 c2, clients m !! d1 = Some c1 → clients m !! d2 = Some c2 →
                  ws c1 = ws c2 → d1 = d2) →
  let message := mkMessage input_required now (Some (PInputRequired payload)) in
  let m' := notifyInputRequired payload pendingRequest now m in
  (∀ dev c, clients m !! dev = Some c → isOpen m (ws c) = true →
     sockets m' !! ws c = ws_send message <$> sockets m !! ws c)
  ∧ (∀ h, (∀ dev c, clients m !! dev = Some c → isOpen m (ws c) = true →
             ws c ≠ h) →
       sockets m' !! h = sockets m !! h).
Proof.
  intros Hinj message m'.
  refine (proj2 (broadcast_spec
    (λ dev acc, match pendingRequest with
                | Some sid =>
                  set_pendingRequests
                    (alter (addNotified dev) sid (pendingRequests acc)) acc
                | None => acc
                end) message m _ Hinj)).
  intros dev acc. by destruct pendingRequest.
Qed.

(** The devices that the loop of [notifyInputRequired] records in the
    request filed under [sid] are those whose channel is open. *)
Lemma notifyInputRequired_notified payload sid now m request0 :
  pendingRequests m !! sid = Some request0 →
  let m' := notifyInputRequired payload (Some sid) now m in
  ∃ request,
    pendingRequests m' !! sid = Some request
    ∧ core request = core request0
    ∧ pushedViaApns request = pushedViaApns request0
    ∧ ∀ dev, dev ∈ notifiedDevices request
             ↔ dev ∈ notifiedDevices request0 ∨ isConnected dev m = true.
Proof.
  intros Hreq0 m'.
  set (P := λ (visited : gset string) (acc : Manager),
    (∀ h, isOpen acc h = isOpen m h)
    ∧ ∃ request,
        pendingRequests acc !! sid = Some request
        ∧ core request = core request0
        ∧ pushedViaApns request = pushedViaApns request0
        ∧ ∀ dev, dev ∈ notifiedDevices request
                 ↔ dev ∈ notifiedDevices request0
                   ∨ (dev ∈ visited ∧ isConnected dev m = true)).
  assert (HP : P (dom (clients m)) m').
  { subst m'. unfold notifyInputRequired. apply forEach_ind.
    { split; [done|]. exists request0. split_and!; [done..|].
      intros dev. rewrite elem_of_empty. tauto. }
    intros k v visited acc Hk Hnew Hsub (Hopen & request & Hreq & Hcore & Hpushed & Hiff).
    assert (Hkc : isConnected k m = isOpen m (ws v)).
    { unfold isConnected. by rewrite Hk. }
    rewrite Hopen. destruct (isOpen m (ws v)) eqn:Hov.
    - destruct (sendMessage_quiet (ws v) (mkMessage input_required now
                  (Some (PInputRequired payload))) acc) as (_ & _ & Hp & Hrs).
      split.
      { intros h. rewrite <- Hopen. by apply isOpen_readyState. }
      exists (addNotified k request). simpl. rewrite Hp, lookup_alter_eq, Hreq.
      split; [done|]. split; [by rewrite core_addNotified|]. split; [done|].
      intros dev. simpl. rewrite elem_of_union, elem_of_singleton, Hiff.
      split.
      + intros [->|[H|[H1 H2]]]; [right|by left|right]; split;
          try done; visited_solver.
      + intros [H|[H1 H2]]; [by right; left|].
        apply elem_of_union in H1 as [H1|H1].
        * apply elem_of_singleton in H1. by left.
        * right. right. done.
    - split; [done|]. exists request. split_and!; [done..|]. intros dev. split.
      + intros Hin. apply Hiff in Hin as [H|[H1 H2]]; [by left|].
        right. split; [visited_solver|done].
      + intros [H|[H1 H2]]; apply Hiff; [by left|].
        apply elem_of_union in H1 as [H1|H1].
        * apply elem_of_singleton in H1 as ->. congruence.
        * right. done. }
  destruct HP as (_ & request & Hreq & Hcore & Hpushed & Hiff).
  exists request. split_and!; [done..|]. intros dev. split.
  - intros Hin. apply Hiff in Hin as [H|[_ H]]; [by left|by right].
  - intros [H|H]; apply Hiff; [by left|]. right. split; [|done].
    unfold isConnected in H. apply elem_of_dom.
    by destruct (clients m !! dev).
Qed.

(** ** The welcome of a new connection *)

Lemma welcome_ack dev name h now m cfg :
  sockets m !! h = Some freshSocket →
  config m = Some cfg →
  let m4 := resendPendingRequestsToDevice dev h now m in
  let m5 := match config m4 with
            | None => m4
            | Some cfg =>
              updateSocket (ws_on dev name) h
                (sendMessage h (handshakeAck cfg now m4) m4)
            end in
  clients m5 = clients m
  ∧ ∃ (msgs : list MonitoringMessage) s,
      sockets m5 !! h = Some s
      ∧ listeners s = Some (dev, name)
      ∧ sent s = msgs ++ [handshakeAck cfg now m]
      ∧ ∀ msg, msg ∈ msgs ↔
               (∃ sid request, pendingRequests m !! sid = Some request
                              ∧ (dev ∉ notifiedDevices request)
                              ∧ msg = inputRequired now request).
Proof.
  intros Hh Hcfg m4 m5.
  destruct (welcome_spec dev name h now m Hh)
    as (_ & Hc5 & _ & _ & msgs & s & Hs & _ & Hsent & Hmsgs).
  fold m4 m5 in Hc5, Hs, Hsent. split; [done|].
  exists msgs, s. split; [done|].
  assert (Hc4 : clients m4 = clients m ∧ config m4 = config m).
  { pose proof (tracking_resend dev h now m) as Htr. fold m4 in Htr.
    split; [|apply (tr_config _ _ Htr)].
    assert (Hopen : isOpen m h = true).
    { apply isOpen_true. by exists freshSocket. }
    by destruct (resend_spec dev h now m Hopen) as (_ & ? & _). }
  destruct Hc4 as [Hc4 Hcfg4].
  split; [|split; [|done]].
  - subst m5. rewrite Hcfg4, Hcfg in Hs. simpl in Hs.
    rewrite lookup_alter_eq in Hs.
    destruct (sockets (sendMessage h _ m4) !! h); [|done].
    by injection Hs as <-.
  - rewrite Hsent, Hcfg. unfold handshakeAck. by rewrite Hc4.
Qed.

Lemma onConnection_ack qd qn qt now m cfg :
  wf m → config m = Some cfg →
  let dev := orElse qd "unknown" in
  let name := orElse qn "Unknown Device" in
  let m' := onConnection qd qn qt now m in
  ∃ (msgs : list MonitoringMessage) s,
    sockets m' !! nextSocket m = Some s
    ∧ listeners s = Some (dev, name)
    ∧ sent s
      = msgs ++ [mkMessage handshake_ack now
                   (Some (PHandshakeAck
                            (mkHandshakeAck (listener_id cfg)
                               (listener_friendly_name cfg) "1.0.0"
                               (size (clients m')))))]
    ∧ ∀ msg, msg ∈ msgs ↔
             (∃ sid request, pendingRequests m !! sid = Some request
                            ∧ (dev ∉ notifiedDevices request)
                            ∧ msg = inputRequired now request).
Proof.
  intros Hwf Hcfg dev name m'. subst m'. unfold onConnection, handleConnection.
  fold dev name. set (h := nextSocket m).
  set (m0 := set_nextSocket (S h) (set_sockets (<[h := freshSocket]> (sockets m)) m)).
  set (m1 := match orUndefined qt with
             | Some t => setToken dev t m0
             | None => m0
             end).
  assert (Hm1 : clients m1 = clients m ∧ sockets m1 = <[h := freshSocket]> (sockets m)
                ∧ pendingRequests m1 = pendingRequests m ∧ config m1 = Some cfg).
  { subst m1. by destruct (orUndefined qt). }
  destruct Hm1 as (Hc1 & Hso1 & Hp1 & Hcfg1).
  assert (Hfinish : ∀ m3,
    pendingRequests m3 = pendingRequests m → config m3 = Some cfg →
    sockets m3 !! h = Some freshSocket →
    let m4 := resendPendingRequestsToDevice dev h now m3 in
    let m5 := match config m4 with
              | None => m4
              | Some cfg =>
                updateSocket (ws_on dev name) h
                  (sendMessage h (handshakeAck cfg now m4) m4)
              end in
    ∃ (msgs : list MonitoringMessage) s,
      sockets m5 !! h = Some s
      ∧ listeners s = Some (dev, name)
      ∧ sent s
        = msgs ++ [mkMessage handshake_ack now
                     (Some (PHandshakeAck
                              (mkHandshakeAck (listener_id cfg)
                                 (listener_friendly_name cfg) "1.0.0"
                                 (size (clients m5)))))]
      ∧ ∀ msg, msg ∈ msgs ↔
               (∃ sid request, pendingRequests m !! sid = Some request
                              ∧ (dev ∉ notifiedDevices request)
                              ∧ msg = inputRequired now request)).
  { intros m3 Hp3 Hcfg3 Hh3.
    destruct (welcome_ack dev name h now m3 cfg Hh3 Hcfg3)
      as (Hc5 & msgs & s & Hs & Hl & Hsent & Hmsgs).
    simpl. exists msgs, s. rewrite Hc5. split; [done|]. split; [done|].
    split; [done|]. by rewrite <- Hp3. }
  destruct (clients m1 !! dev) as [existing|] eqn:Hex.
  - rewrite Hc1 in Hex. pose proof (wf_clients _ Hwf _ _ Hex) as Hlt. fold h in Hlt.
    apply Hfinish.
    + by destruct (isOpen m1 (ws existing)).
    + by destruct (isOpen m1 (ws existing)).
    + destruct (isOpen m1 (ws existing)); simpl; rewrite Hso1.
      * rewrite lookup_alter_ne by lia. apply lookup_insert_eq.
      * apply lookup_insert_eq.
  - apply Hfinish; [done|done|]. simpl. rewrite Hso1. apply lookup_insert_eq.
Qed.

(** ** Heartbeats *)

(** One round of [checkHeartbeats], client by client. *)
Lemma checkHeartbeats_spec m :
  (∀ d1 d2 c1 c2, clients m !! d1 = Some c1 → clients m !! d2 = Some c2 →
                  ws c1 = ws c2 → d1 = d2) →
  let m' := checkHeartbeats m in
  ∀ dev c, clients m !! dev = Some c →
    if negb (isAlive c) && isOpen m (ws c)
    then clients m' !! dev = Some c
         ∧ sockets m' !! ws c = ws_terminate <$> sockets m !! ws c
    else clients m' !! dev = Some (setAlive false c)
         ∧ sockets m' !! ws c
           = (if isOpen m (ws c) then ws_ping <$> sockets m !! ws c
              else sockets m !! ws c).
Proof.
  intros Hinj m'.
  set (P := λ (visited : gset string) (acc : Manager),
    ∀ dev c, clients m !! dev = Some c →
      if decide (dev ∈ visited) then
        if negb (isAlive c) && isOpen m (ws c)
        then clients acc !! dev = Some c
             ∧ sockets acc !! ws c = ws_terminate <$> sockets m !! ws c
        else clients acc !! dev = Some (setAlive false c)
             ∧ sockets acc !! ws c
               = (if isOpen m (ws c) then ws_ping <$> sockets m !! ws c
                  else sockets m !! ws c)
      else clients acc !! dev = Some c
           ∧ sockets acc !! ws c = sockets m !! ws c).
  assert (HP : P (dom (clients m)) m').
  { subst m'. unfold checkHeartbeats. apply forEach_ind.
    { intros dev c Hc. by rewrite decide_False by apply not_elem_of_empty. }
    intros k v visited acc Hk Hnew Hsub Hacc.
    pose proof (Hacc k v Hk) as Hv. rewrite decide_False in Hv by done.
    destruct Hv as [Hkacc Hv].
    assert (Hopen : isOpen acc (ws v) = isOpen m (ws v)).
    { unfold isOpen. by rewrite Hv. }
    assert (Hother : ∀ dev c, clients m !! dev = Some c → dev ≠ k →
              ws v ≠ ws c).
    { intros dev c Hc Hne Heq. by destruct Hne, (Hinj k dev v c Hk Hc Heq). }
    intros dev c Hc. specialize (Hacc dev c Hc).
    rewrite Hopen.
    destruct (decide (dev = k)) as [->|Hne].
    - rewrite Hk in Hc. injection Hc as <-.
      rewrite decide_True by visited_solver.
      destruct (negb (isAlive v) && isOpen m (ws v)) eqn:Hcase.
      + unfold updateSocket. simpl. by rewrite lookup_alter_eq, Hv.
      + assert (Hopen' : isOpen (set_clients (<[k:=setAlive false v]> (clients acc)) acc)
                           (ws v) = isOpen m (ws v)) by exact Hopen.
        rewrite Hopen'. destruct (isOpen m (ws v)); simpl.
        * by rewrite lookup_insert_eq, lookup_alter_eq, Hv.
        * by rewrite lookup_insert_eq.
    - pose proof (Hother dev c Hc Hne) as Hws.
      assert (Hsame : ∀ acc' : Manager,
                clients acc' !! dev = clients acc !! dev →
                sockets acc' !! ws c = sockets acc !! ws c →
                if decide (dev ∈ {[k]} ∪ visited) then
                  if negb (isAlive c) && isOpen m (ws c)
                  then clients acc' !! dev = Some c
                       ∧ sockets acc' !! ws c = ws_terminate <$> sockets m !! ws c
                  else clients acc' !! dev = Some (setAlive false c)
                       ∧ sockets acc' !! ws c
                         = (if isOpen m (ws c) then ws_ping <$> sockets m !! ws c
                            else sockets m !! ws c)
                else clients acc' !! dev = Some c
                     ∧ sockets acc' !! ws c = sockets m !! ws c).
      { intros acc' Hcl' Hs'. rewrite Hcl', Hs'.
        destruct (decide (dev ∈ visited)) as [Hin|Hnin].
        - rewrite decide_True by visited_solver. done.
        - rewrite decide_False by visited_solver. done. }
      destruct (negb (isAlive v) && isOpen m (ws v)).
      + apply Hsame; simpl; [done|]. by rewrite lookup_alter_ne.
      + assert (Hopen' : isOpen (set_clients (<[k:=setAlive false v]> (clients acc)) acc)
                           (ws v) = isOpen m (ws v)) by exact Hopen.
        rewrite Hopen'. destruct (isOpen m (ws v)); apply Hsame; simpl;
          rewrite ?lookup_insert_ne, ?lookup_alter_ne by done; done. }
  intros dev c Hc. specialize (HP dev c Hc).
  rewrite decide_True in HP by (by apply elem_of_dom). done.
Qed.

Lemma isOpen_lookup m h s :
  sockets m !! h = Some s → isOpen m h = bool_decide (readyState s = OPEN).
Proof.
  intros Hs. unfold isOpen. rewrite Hs. simpl.
  apply bool_decide_ext. split; congruence.
Qed.

Lemma tick_live h m :
  is_Some (intervals m !! h) →
  tick h m = checkHeartbeats m ∧ is_Some (intervals (tick h m) !! h).
Proof.
  intros Hh. unfold tick. rewrite bool_decide_eq_true_2 by done.
  split; [done|]. by rewrite (tr_intervals _ _ (tracking_checkHeartbeats m)).
Qed.

(** ** Eviction of closed sessions *)

Lemma onClose_registered h dev name c m :
  sockets m !! h ≫= listeners = Some (dev, name) →
  clients m !! dev = Some c →
  onClose h m
  = set_nextTimer (S (nextTimer m))
      (set_timers (<[nextTimer m := mkTimer SESSION_TIMEOUT (SessionExpiry dev)]>
                     (timers m))
         (set_clients (<[dev := withSession (setStatus disconnected) c]>
                         (clients m))
            (updateSocket ws_closed h m))).
Proof. intros Hl Hc. unfold onClose. rewrite Hl. simpl. by rewrite Hc. Qed.

(** ** Channels only close *)

Lemma closing_refl m : closing m m.
Proof. by intros h. Qed.

Lemma closing_trans m1 m2 m3 : closing m1 m2 → closing m2 m3 → closing m1 m3.
Proof. intros H12 H23 h Hh. by apply H12, H23. Qed.

Lemma closing_sockets m m' : sockets m' = sockets m → closing m m'.
Proof. intros Heq h. unfold isOpen. by rewrite Heq. Qed.

Lemma closing_readyState m m' :
  (∀ h, readyState <$> sockets m' !! h = readyState <$> sockets m !! h) →
  closing m m'.
Proof. intros Heq h. unfold isOpen. by rewrite Heq. Qed.

Lemma closing_updateSocket f h m :
  (∀ s, readyState (f s) = OPEN → readyState s = OPEN) →
  closing m (updateSocket f h m).
Proof.
  intros Hf h'. rewrite !isOpen_true. simpl. intros (s' & Hs' & Hopen).
  destruct (decide (h = h')) as [->|Hne].
  - rewrite lookup_alter_eq in Hs'. destruct (sockets m !! h') as [s|]; [|done].
    injection Hs' as <-. exists s. split; [done|]. by apply Hf.
  - rewrite lookup_alter_ne in Hs' by done. by exists s'.
Qed.

Lemma closing_sendMessage h message m : closing m (sendMessage h message m).
Proof.
  apply closing_readyState.
  by destruct (sendMessage_quiet h message m) as (_ & _ & _ & ?).
Qed.

Lemma ws_close_open frame s :
  readyState (ws_close frame s) = OPEN → readyState s = OPEN.
Proof. unfold ws_close. destruct (readyState s) eqn:Hrs; simpl; congruence. Qed.

Lemma ws_terminate_open s :
  readyState (ws_terminate s) = OPEN → readyState s = OPEN.
Proof. unfold ws_terminate. destruct (readyState s) eqn:Hrs; simpl; congruence. Qed.

Lemma closing_resend dev h now m :
  closing m (resendPendingRequestsToDevice dev h now m).
Proof.
  unfold resendPendingRequestsToDevice.
  apply (forEach_invariant (closing m)); [apply closing_refl|].
  intros sid request acc _ Hacc. case_bool_decide; [done|].
  eapply closing_trans; [exact Hacc|].
  eapply closing_trans; [apply closing_sendMessage|]. by apply closing_sockets.
Qed.

Lemma closing_welcome dev name h now m :
  closing m
    match config (resendPendingRequestsToDevice dev h now m) with
    | None => resendPendingRequestsToDevice dev h now m
    | Some cfg =>
      updateSocket (ws_on dev name) h
        (sendMessage h
           (handshakeAck cfg now (resendPendingRequestsToDevice dev h now m))
           (resendPendingRequestsToDevice dev h now m))
    end.
Proof.
  destruct (config _); [|apply closing_resend].
  eapply closing_trans; [apply closing_resend|].
  eapply closing_trans; [apply closing_sendMessage|].
  by apply closing_updateSocket.
Qed.

Lemma closing_handleConnection h qd qn qt now m :
  closing m (handleConnection h qd qn qt now m).
Proof.
  unfold handleConnection.
  destruct (orUndefined qt); simpl;
    destruct (clients _ !! orElse qd "unknown"); simpl;
    try destruct (isOpen _ _) eqn:Hopen; simpl;
    match goal with
    | |- context [resendPendingRequestsToDevice ?dev h now ?m3] =>
      apply (closing_trans _ m3);
        [|apply (closing_welcome dev (orElse qn "Unknown Device") h now m3)]
    end;
    try (by apply closing_sockets);
    match goal with
    | |- context [updateSocket ?f ?h' ?m0] =>
      apply (closing_trans _ (updateSocket f h' m0));
        [|by apply closing_sockets];
      apply (closing_trans _ m0);
        [by apply closing_sockets|apply closing_updateSocket, ws_close_open]
    end.
Qed.

Lemma closing_checkHeartbeats m : closing m (checkHeartbeats m).
Proof.
  unfold checkHeartbeats.
  apply (forEach_invariant (closing m)); [apply closing_refl|].
  intros dev client acc _ Hacc. eapply closing_trans; [exact Hacc|].
  destruct (negb (isAlive client) && isOpen acc (ws client)).
  { apply closing_updateSocket, ws_terminate_open. }
  apply (closing_trans _ (set_clients (<[dev:=setAlive false client]> (clients acc)) acc));
    [by apply closing_sockets|].
  destruct (isOpen _ _); [|apply closing_refl]. by apply closing_updateSocket.
Qed.

Lemma closing_requestMobileInput tag question opts ity timeoutMs now rnd m :
  closing m (requestMobileInput tag question opts ity timeoutMs now rnd m).2.
Proof.
  unfold requestMobileInput. destruct (_ && _); [apply closing_refl|]. simpl.
  match goal with
  | |- context [sendApnsPushToDisconnectedDevices ?payload ?sid ?p ?now ?m0] =>
    destruct (push_sockets payload sid p now m0) as [Hpush _];
    generalize dependent (sendApnsPushToDisconnectedDevices payload sid p now m0);
    intros m2 Hpush
  end.
  simpl in *. eapply closing_trans; [|by apply closing_sockets].
  match goal with
  | |- context [notifyInputRequired ?payload ?sid ?now ?m0] =>
    destruct (notifyInputRequired_quiet payload sid now m0) as (_ & _ & Hrs & _)
  end.
  eapply closing_trans; [|by apply closing_readyState]. by apply closing_sockets.
Qed.

(** Only a connection opens a socket: the one it brings. *)
Lemma step_closing m e h :
  isOpen (step m e) h = true → isOpen m h = true ∨ h = nextSocket m.
Proof.
  assert (Hc : closing m (step m e) → isOpen (step m e) h = true →
               isOpen m h = true ∨ h = nextSocket m).
  { intros Hcl Ho. left. by apply Hcl. }
  destruct e as [np cfg|qd qn qt now|h' data now|h' now|h'|h'|h'
                 |tag question opts ity timeoutMs now rnd|sid| |q t]; cbn [step].
  - apply Hc. apply closing_sockets, initialize_clients.
  - clear Hc. intros Ho. unfold onConnection in Ho.
    apply closing_handleConnection in Ho.
    destruct (decide (h = nextSocket m)) as [->|Hne]; [by right|left].
    unfold isOpen in *. simpl in Ho. by rewrite lookup_insert_ne in Ho.
  - apply Hc. cbn [step]. unfold onMessage.
    destruct (sockets m !! h' ≫= listeners) as [[dev name]|]; [|apply closing_refl].
    destruct data as [message|]; [|apply closing_refl]. unfold handleMessage.
    destruct (clients m !! dev) as [client|]; [|apply closing_refl].
    destruct (type message); try (by apply closing_sockets).
    + destruct (payload message); by apply closing_sockets.
    + eapply closing_trans; [|apply closing_sendMessage]. by apply closing_sockets.
    + destruct (truthy _); [|by apply closing_sockets].
      apply closing_sockets.
      match goal with
      | |- context [handleInputResponse ?a ?b ?c ?d] =>
        destruct (handleInputResponse_frame a b c d) as (_ & _ & _ & ->)
      end. done.
  - apply Hc. cbn [step]. apply closing_sockets. unfold onPong.
    destruct (sockets m !! h' ≫= listeners) as [[dev name]|]; [|done].
    by destruct (clients m !! dev).
  - apply Hc. cbn [step]. unfold onClose.
    eapply closing_trans; [by apply (closing_updateSocket ws_closed h')|].
    apply closing_sockets.
    destruct (sockets m !! h' ≫= listeners) as [[dev name]|]; [|done].
    by destruct (clients _ !! dev).
  - apply Hc. cbn [step]. apply closing_sockets.
    by destruct (fireTimer_frame h' m) as (_ & _ & ?).
  - apply Hc. cbn [step]. unfold tick.
    case_bool_decide; [apply closing_checkHeartbeats|apply closing_refl].
  - apply Hc. cbn [step]. apply closing_requestMobileInput.
  - apply Hc. cbn [step]. apply closing_sockets. unfold cancelInputRequest.
    by destruct (pendingRequests m !! sid).
  - apply Hc. cbn [step]. intros h0. rewrite !isOpen_true. intros (s' & Hs' & Ho).
    destruct (shutdown_spec m) as (_ & _ & _ & _ & _ & _ & _ & _ & Hsock & _).
    destruct (Hsock h0) as [Heq|(s & Hs & Hopen & Heq)].
    + exists s'. by rewrite <- Heq.
    + by exists s.
  - apply Hc. cbn [step]. apply closing_sockets.
    by destruct (onPushSettled_frame q t m) as (_ & -> & _).
Qed.

(** ** Notified sets only grow *)

Lemma checkHeartbeats_pending m :
  pendingRequests (checkHeartbeats m) = pendingRequests m.
Proof.
  unfold checkHeartbeats.
  apply (forEach_invariant (λ acc, pendingRequests acc = pendingRequests m));
    [done|].
  intros dev client acc _ Hacc.
  destruct (negb (isAlive client) && isOpen acc (ws client)); [done|].
  by destruct (isOpen _ _).
Qed.

(** Apart from a connection, a new request and the settling of a push, an
    event leaves the pending requests as they are or removes some. *)
Lemma step_pending m e :
  match e with
  | Connection _ _ _ _ | RequestInput _ _ _ _ _ _ _ | PushSettled _ _ => True
  | _ => pendingRequests (step m e) ⊆ pendingRequests m
  end.
Proof.
  destruct e as [np cfg|qd qn qt now|h data now|h now|h|h|h
                 |tag question opts ity timeoutMs now rnd|sid| |q t]; cbn [step];
    try done.
  - by destruct (initialize_clients np cfg m) as (_ & _ & ->).
  - unfold onMessage.
    destruct (sockets m !! h ≫= listeners) as [[dev name]|]; [|done].
    destruct data as [message|]; [|done]. unfold handleMessage.
    destruct (clients m !! dev) as [client|]; [|done].
    destruct (type message); try done.
    + by destruct (payload message).
    + match goal with
      | |- context [sendMessage ?h ?msg ?x] =>
        by destruct (sendMessage_quiet h msg x) as (_ & _ & -> & _)
      end.
    + destruct (truthy _); [|done]. unfold handleInputResponse. simpl.
      destruct (pendingRequests m !! _); [|done]. simpl. apply delete_subseteq.
  - unfold onPong.
    destruct (sockets m !! h ≫= listeners) as [[dev name]|]; [|done].
    by destruct (clients m !! dev).
  - unfold onClose.
    destruct (sockets m !! h ≫= listeners) as [[dev name]|]; [|done].
    by destruct (clients _ !! dev).
  - unfold fireTimer.
    destruct (timers m !! h) as [[d [sid p ms|dev]]|]; simpl; try done.
    + apply delete_subseteq.
    + destruct (clients m !! dev); [|done]. by case_bool_decide.
  - unfold tick. case_bool_decide; [|done]. by rewrite checkHeartbeats_pending.
  - unfold cancelInputRequest. destruct (pendingRequests m !! sid); [|done].
    simpl. apply delete_subseteq.
  - destruct (shutdown_spec m) as (_ & _ & _ & -> & _). apply map_empty_subseteq.
Qed.

Lemma notifyInputRequired_others payload sid now m sid' :
  sid' ≠ sid →
  pendingRequests (notifyInputRequired payload (Some sid) now m) !! sid'
  = pendingRequests m !! sid'.
Proof.
  intros Hne. unfold notifyInputRequired.
  apply (forEach_invariant (λ acc,
    pendingRequests acc !! sid' = pendingRequests m !! sid')); [done|].
  intros dev client acc _ Hacc. destruct (isOpen acc (ws client)); [|done].
  simpl. rewrite lookup_alter_ne by done.
  by destruct (sendMessage_quiet (ws client)
    (mkMessage input_required now (Some (PInputRequired payload))) acc)
    as (_ & _ & -> & _).
Qed.

Lemma isConnected_open m dev c :
  clients m !! dev = Some c → isConnected dev m = isOpen m (ws c).
Proof. intros Hc. unfold isConnected. by rewrite Hc. Qed.

Lemma notifiedAll_requestMobileInput tag question opts ity timeoutMs now rnd m :
  notifiedAll m →
  notifiedAll (requestMobileInput tag question opts ity timeoutMs now rnd m).2.
Proof.
  intros Hd dev c sid request Hc Hopen Hreq.
  rewrite requestMobileInput_clients in Hc.
  apply closing_requestMobileInput in Hopen.
  revert Hreq. unfold requestMobileInput.
  destruct (_ && _); [by apply (Hd dev c sid request)|]. simpl.
  set (sid0 := newSessionId now rnd).
  set (payload := mkInputRequired sid0 tag question opts ity).
  set (request0 := mkPending sid0 sid0 tag question opts ity now (nextPromise m)
                     (nextTimer m) ∅ ∅).
  set (m0 := set_pendingRequests _ _).
  assert (Hreq0 : pendingRequests m0 !! sid0 = Some request0)
    by (subst m0; simpl; apply lookup_insert_eq).
  destruct (notifyInputRequired_notified payload sid0 now m0 request0 Hreq0)
    as (request1 & Hreq1 & _ & _ & Hiff).
  pose proof (notifyInputRequired_others payload sid0 now m0) as Hothers.
  set (m1 := notifyInputRequired payload (Some sid0) now m0) in *.
  destruct (push_sockets payload sid0 (nextPromise m) now m1) as [_ Hn2].
  generalize dependent
    (sendApnsPushToDisconnectedDevices payload sid0 (nextPromise m) now m1).
  intros m2 Hn2. simpl in *. intros Hreq.
  pose proof (f_equal (λ t, t !! sid) Hn2) as Hlk. simpl in Hlk.
  rewrite !lookup_fmap, Hreq in Hlk. simpl in Hlk.
  destruct (decide (sid = sid0)) as [->|Hne].
  - rewrite Hreq1 in Hlk. injection Hlk as ->. apply Hiff. right.
    rewrite (isConnected_same m m0) by done.
    by rewrite (isConnected_open m dev c).
  - rewrite Hothers in Hlk by done. subst m0. simpl in Hlk.
    rewrite lookup_insert_ne in Hlk by done.
    destruct (pendingRequests m !! sid) as [request'|] eqn:Hreq'; [|done].
    injection Hlk as ->. by apply (Hd dev c sid request').
Qed.

Lemma notifiedAll_onConnection qd qn qt now m :
  wf m → coherent m → notifiedAll m → notifiedAll (onConnection qd qn qt now m).
Proof.
  intros Hwf Hco Hd dev c sid request Hc Hopen Hreq.
  destruct (onConnection_spec qd qn qt now m Hwf) as (Hcl & Hpend & _).
  cbv zeta in Hcl, Hpend. rewrite Hcl in Hc. rewrite Hpend in Hreq.
  rewrite lookup_fmap in Hreq.
  destruct (pendingRequests m !! sid) as [request0|] eqn:Hreq0; [|done].
  injection Hreq as <-.
  destruct (decide (dev = orElse qd "unknown")) as [->|Hne].
  - unfold redelivered. case_bool_decide; [done|].
    simpl. apply elem_of_union_l. by apply elem_of_singleton.
  - rewrite lookup_insert_ne in Hc by done.
    pose proof (step_closing m (Connection qd qn qt now) (ws c) Hopen) as Ho.
    destruct Ho as [Ho|Ho].
    + pose proof (Hd dev c sid request0 Hc Ho Hreq0) as Hin.
      unfold redelivered. case_bool_decide; [done|].
      simpl. by apply elem_of_union_r.
    + pose proof (wf_clients _ Hwf dev c Hc). lia.
Qed.

Lemma notifiedAll_step m e : wf m → coherent m → notifiedAll m → notifiedAll (step m e).
Proof.
  intros Hwf Hco Hd.
  pose proof (step_kept m e) as Hk. pose proof (step_pending m e) as Hp.
  assert (Hrest : kept m (step m e) →
            pendingRequests (step m e) ⊆ pendingRequests m →
            notifiedAll (step m e)).
  { intros Hkept Hsub dev c' sid request Hc' Hopen Hreq.
    destruct (Hkept _ _ Hc') as (c & Hc & Hid).
    assert (Hws : ws c' = ws c) by (unfold identity in Hid; congruence).
    destruct (step_closing m e (ws c') Hopen) as [Ho|Ho].
    - rewrite Hws in Ho. apply (Hd dev c sid request Hc Ho).
      by apply (lookup_weaken _ _ _ _ Hreq).
    - pose proof (wf_clients _ Hwf dev c Hc). lia. }
  destruct e; try (by apply Hrest).
  - by apply notifiedAll_onConnection.
  - by apply notifiedAll_requestMobileInput.
  - intros dev c sid request Hc Hopen Hreq. cbn [step] in *.
    destruct (onPushSettled_frame p now m) as (Hcl & Hso & _ & _ & Hn).
    rewrite Hcl in Hc.
    assert (Ho : isOpen m (ws c) = true) by (unfold isOpen in *; by rewrite <- Hso).
    specialize (Hn sid). rewrite Hreq in Hn. simpl in Hn.
    destruct (pendingRequests m !! sid) as [request0|] eqn:Hreq0; [|done].
    injection Hn as ->. by apply (Hd dev c sid request0).
Qed.

Lemma reachable_notifiedAll m : reachable m → notifiedAll m.
Proof.
  intros [es ->].
  assert (H : ∀ m, wf m → coherent m → notifiedAll m → notifiedAll (run es m)).
  { induction es as [|e es IH]; intros m Hwf Hco Hd; [done|].
    apply IH; [by apply wf_step|by apply coherent_step|by apply notifiedAll_step]. }
  apply H; [apply wf_newManager|apply coherent_newManager|].
  intros dev c sid request Hc. simpl in Hc. by rewrite lookup_empty in Hc.
Qed.

(** ** Sockets that are not open *)

Section not_open.

Variables (h : nat) (s : Socket).

Hypothesis Hclosed : readyState s ≠ OPEN.

Lemma still_isOpen m h' : still h s m → isOpen m h' = true → h' ≠ h.
Proof.
  intros Hs Ho ->. apply isOpen_true in Ho as (s' & Hs' & Hopen).
  unfold still in Hs. congruence.
Qed.

Lemma still_updateSocket f h' m :
  still h s m → isOpen m h' = true → still h s (updateSocket f h' m).
Proof.
  intros Hs Ho. unfold still. simpl.
  rewrite lookup_alter_ne; [done|]. by apply (still_isOpen m).
Qed.

Lemma still_sendMessage h' message m : still h s m → still h s (sendMessage h' message m).
Proof.
  intros Hs. unfold sendMessage. destruct (isOpen m h') eqn:Ho; [|done].
  by apply still_updateSocket.
Qed.

Lemma still_resend dev h' now m :
  still h s m → still h s (resendPendingRequestsToDevice dev h' now m).
Proof.
  intros Hs. unfold resendPendingRequestsToDevice.
  apply (forEach_invariant (still h s)); [done|].
  intros sid request acc _ Hacc. case_bool_decide; [done|].
  unfold still. simpl. by apply still_sendMessage.
Qed.

Lemma still_welcome dev name h' now m :
  still h s m → h' ≠ h →
  still h s match config (resendPendingRequestsToDevice dev h' now m) with
        | None => resendPendingRequestsToDevice dev h' now m
        | Some cfg =>
          updateSocket (ws_on dev name) h'
            (sendMessage h'
               (handshakeAck cfg now (resendPendingRequestsToDevice dev h' now m))
               (resendPendingRequestsToDevice dev h' now m))
        end.
Proof.
  intros Hs Hne. pose proof (still_resend dev h' now m Hs) as H1.
  destruct (config _) as [cfg|]; [|done].
  pose proof (still_sendMessage h' (handshakeAck cfg now
    (resendPendingRequestsToDevice dev h' now m)) _ H1) as H2.
  unfold still in *. simpl. by rewrite lookup_alter_ne.
Qed.

Lemma still_handleConnection h' qd qn qt now m :
  still h s m → h' ≠ h → still h s (handleConnection h' qd qn qt now m).
Proof.
  intros Hs Hne. unfold handleConnection.
  destruct (orUndefined qt); simpl;
    destruct (clients _ !! orElse qd "unknown"); simpl;
    try destruct (isOpen _ _) eqn:Hopen; simpl;
    match goal with
    | |- context [resendPendingRequestsToDevice ?dev h' now ?m3] =>
      apply (still_welcome dev (orElse qn "Unknown Device") h' now m3); [|done]
    end;
    try done;
    unfold still; simpl; (rewrite lookup_alter_ne; [done|]);
    (eapply still_isOpen; [|exact Hopen]); done.
Qed.

Lemma still_checkHeartbeats m : still h s m → still h s (checkHeartbeats m).
Proof.
  intros Hs. unfold checkHeartbeats.
  apply (forEach_invariant (still h s)); [done|].
  intros dev client acc _ Hacc.
  destruct (negb (isAlive client)); simpl.
  - destruct (isOpen acc (ws client)) eqn:Ho; simpl.
    + by apply still_updateSocket.
    + change (isOpen (set_clients _ acc) (ws client)) with (isOpen acc (ws client)).
      by rewrite Ho.
  - change (isOpen (set_clients ?c acc) (ws client)) with (isOpen acc (ws client)).
    destruct (isOpen acc (ws client)) eqn:Ho; [|done].
    by apply (still_updateSocket ws_ping (ws client)
                (set_clients (<[dev:=setAlive false client]> (clients acc)) acc)).
Qed.

Lemma still_notifyInputRequired payload pendingRequest now m :
  still h s m → still h s (notifyInputRequired payload pendingRequest now m).
Proof.
  intros Hs. unfold notifyInputRequired.
  apply (forEach_invariant (still h s)); [done|].
  intros dev client acc _ Hacc. destruct (isOpen acc (ws client)); [|done].
  pose proof (still_sendMessage (ws client)
    (mkMessage input_required now (Some (PInputRequired payload))) acc Hacc).
  by destruct pendingRequest.
Qed.

Lemma still_step m e :
  wf m → still h s m →
  sockets (step m e) !! h
  = Some match e with
         | Close h' => if decide (h' = h) then ws_closed s else s
         | _ => s
         end.
Proof.
  intros Hwf Hs.
  destruct e as [np cfg|qd qn qt now|h' data now|h' now|h'|h'|h'
                 |tag question opts ity timeoutMs now rnd|sid| |q t]; cbn [step].
  - by destruct (initialize_clients np cfg m) as (_ & -> & _).
  - unfold onConnection.
    pose proof (wf_sockets _ Hwf h s Hs) as Hlt.
    apply still_handleConnection; [|lia].
    unfold still. simpl. by rewrite lookup_insert_ne by lia.
  - unfold onMessage.
    destruct (sockets m !! h' ≫= listeners) as [[dev name]|]; [|done].
    destruct data as [message|]; [|done]. unfold handleMessage.
    destruct (clients m !! dev) as [client|]; [|done].
    destruct (type message); try done.
    + by destruct (payload message).
    + by apply still_sendMessage.
    + destruct (truthy _); [|done].
      match goal with
      | |- context [handleInputResponse ?a ?b ?c ?d] =>
        destruct (handleInputResponse_frame a b c d) as (_ & _ & _ & ->)
      end. done.
  - unfold onPong.
    destruct (sockets m !! h' ≫= listeners) as [[dev name]|]; [|done].
    by destruct (clients m !! dev).
  - assert (Hsock : sockets (onClose h' m) = alter ws_closed h' (sockets m)).
    { unfold onClose.
      destruct (sockets m !! h' ≫= listeners) as [[dev name]|]; [|done].
      by destruct (clients _ !! dev). }
    rewrite Hsock. destruct (decide (h' = h)) as [->|Hne].
    + by rewrite lookup_alter_eq, Hs.
    + by rewrite lookup_alter_ne.
  - by destruct (fireTimer_frame h' m) as (_ & _ & ->).
  - unfold tick. case_bool_decide; [by apply still_checkHeartbeats|done].
  - unfold requestMobileInput. destruct (_ && _); [done|]. simpl.
    match goal with
    | |- context [sendApnsPushToDisconnectedDevices ?payload ?sid ?p ?now ?m0] =>
      destruct (push_sockets payload sid p now m0) as [-> _]
    end.
    by apply still_notifyInputRequired.
  - unfold cancelInputRequest. by destruct (pendingRequests m !! sid).
  - destruct (shutdown_spec m) as (_ & _ & _ & _ & _ & _ & _ & _ & Hsock & _).
    destruct (Hsock h) as [->|(s' & Hs' & Hopen & _)]; [done|].
    unfold still in Hs. congruence.
  - by destruct (onPushSettled_frame q t m) as (_ & -> & _).
Qed.

End not_open.

(** ** The push provider *)

Lemma initialize_apns newProvider cfg m :
  let m' := initialize newProvider cfg m in
  config m' = Some cfg
  ∧ apnsProvider m' = apnsProvider (initializeApns newProvider (monitoring cfg ≫= apns) m)
  ∧ pushes m' = pushes m.
Proof.
  simpl. unfold initialize, initializeApns, setInterval.
  repeat (case_match; simpl); done.
Qed.

Lemma utf8Char_inj c1 c2 r1 r2 :
  utf8Char c1 ++ r1 = utf8Char c2 ++ r2 → c1 = c2 ∧ r1 = r2.
Proof.
  unfold utf8Char.
  pose proof (Ascii.N_ascii_bounded c1) as Hb1.
  pose proof (Ascii.N_ascii_bounded c2) as Hb2.
  assert (Hinj : Z.of_N (Ascii.N_of_ascii c1) = Z.of_N (Ascii.N_of_ascii c2) → c1 = c2).
  { intros Heq. apply N2Z.inj in Heq.
    rewrite <- (Ascii.ascii_N_embedding c1), <- (Ascii.ascii_N_embedding c2).
    by rewrite Heq. }
  assert (0 ≤ Z.of_N (Ascii.N_of_ascii c1) < 256) by lia.
  assert (0 ≤ Z.of_N (Ascii.N_of_ascii c2) < 256) by lia.
  clear Hb1 Hb2.
  generalize dependent (Z.of_N (Ascii.N_of_ascii c1)).
  generalize dependent (Z.of_N (Ascii.N_of_ascii c2)).
  intros n2 Hn2 n1 Hinj Hn1.
  repeat case_bool_decide; simpl; intros Heq.
  - injection Heq as Hn Hr. split; [by apply Hinj|done].
  - injection Heq as Hn _. exfalso. Z.div_mod_to_equations. lia.
  - injection Heq as Hn _. exfalso. Z.div_mod_to_equations. lia.
  - injection Heq as Hq Hm Hr. split; [|done]. apply Hinj.
    Z.div_mod_to_equations. lia.
Qed.

Lemma bufferFrom_inj a b : bufferFrom a = bufferFrom b → a = b.
Proof.
  revert b. induction a as [|c a IH]; intros [|c' b] Heq; simpl in *.
  - done.
  - unfold utf8Char in Heq. by case_bool_decide.
  - unfold utf8Char in Heq. by case_bool_decide.
  - apply utf8Char_inj in Heq as [-> Heq]. by rewrite (IH b).
Qed.

Lemma constantTimeCompare_true a b :
  constantTimeCompare a b = Normal true ↔ a = b.
Proof.
  unfold constantTimeCompare, timingSafeEqual. split.
  - destruct (Nat.eqb_spec (String.length a) (String.length b)) as [Hlen|Hlen];
      simpl.
    + case_bool_decide; [|done]. intros [= Heq].
      apply bool_decide_eq_true in Heq. by apply bufferFrom_inj.
    + by rewrite bool_decide_eq_true_2.
  - intros ->. rewrite Nat.eqb_refl. simpl.
    by rewrite !bool_decide_eq_true_2.
Qed.

Lemma constantTimeCompare_throws a b :
  (∃ e, constantTimeCompare a b = Throw e)
  ↔ String.length a = String.length b
    ∧ length (bufferFrom a) ≠ length (bufferFrom b).
Proof.
  unfold constantTimeCompare, timingSafeEqual.
  destruct (Nat.eqb_spec (String.length a) (String.length b)) as [Hlen|Hlen];
    simpl.
  - case_bool_decide.
    + split; [by intros [e ?]|by intros [_ ?]].
    + split; [done|]. intros _. eauto.
  - rewrite bool_decide_eq_true_2 by done.
    split; [by intros [e ?]|by intros [? _]].
Qed.

Lemma prefix_slice p s :
  String.prefix p s = true ↔ s = p +:+ slice (String.length p) s.
Proof.
  revert s. induction p as [|c p IH]; intros s.
  { by destruct s. }
  destruct s as [|c' s]; [split; discriminate|].
  change (String.prefix (String c p) (String c' s))
    with (if Ascii.ascii_dec c c' then String.prefix p s else false).
  change (String c p +:+ slice (String.length (String c p)) (String c' s))
    with (String c (p +:+ slice (String.length p) s)).
  destruct (Ascii.ascii_dec c c') as [<-|Hne].
  - rewrite IH. split; [intros Heq; by f_equal|intros [= Heq]; done].
  - split; [done|]. intros [= Heq _]. done.
Qed.

Lemma slice_app p t : slice (String.length p) (p +:+ t) = t.
Proof. induction p as [|c p IH]; [by destruct t|done]. Qed.

(** ** The input-request endpoint *)

Lemma prefix_app n s t :
  String.prefix n s = true → String.prefix n (s +:+ t) = true.
Proof.
  revert s. induction n as [|c n IH]; intros s.
  { intros _. by destruct (s +:+ t). }
  destruct s as [|c' s]; [done|].
  change (String c' s +:+ t) with (String c' (s +:+ t)).
  change (String.prefix (String c n) (String c' s))
    with (if Ascii.ascii_dec c c' then String.prefix n s else false).
  change (String.prefix (String c n) (String c' (s +:+ t)))
    with (if Ascii.ascii_dec c c' then String.prefix n (s +:+ t) else false).
  destruct (Ascii.ascii_dec c c'); [apply IH|done].
Qed.

Lemma includes_unfold n s :
  includes n s
  = String.prefix n s
    || match s with
       | EmptyString => false
       | String _ s' => includes n s'
       end.
Proof. by destruct s. Qed.

Lemma includes_app n s t : includes n s = true → includes n (s +:+ t) = true.
Proof.
  induction s as [|c s IH]; rewrite includes_unfold; intros Hin.
  - rewrite orb_false_r in Hin. rewrite includes_unfold.
    apply orb_true_intro. left. by apply (prefix_app n "" t).
  - change (String c s +:+ t) with (String c (s +:+ t)).
    rewrite includes_unfold. apply orb_true_iff in Hin as [Hp|Hin].
    + apply orb_true_intro. left. by apply (prefix_app n (String c s) t).
    + apply orb_true_intro. right. by apply IH.
Qed.

Lemma failureStatus_errorMessage e :
  failureStatus (errorMessage e)
  = match e with TimedOut _ => 504 | Cancelled => 503 end.
Proof.
  destruct e as [ms|]; [|reflexivity].
  unfold failureStatus, errorMessage.
  by rewrite (includes_app "timed out" "Mobile input request timed out after ").
Qed.

Lemma inputRequestCall_pending body now rnd m p m' :
  inputRequestCall body now rnd m = (inr p, m') →
  let sid := newSessionId now rnd in
  let deadline :=
    match rq_timeout_seconds body with
    | Some s => if bool_decide (s = 0) then inputTimeoutMs m else s * 1000
    | None => inputTimeoutMs m
    end in
  p = nextPromise m
  ∧ timers m' !! nextTimer m = Some (mkTimer deadline (InputDeadline sid p deadline))
  ∧ ∃ request,
      pendingRequests m' !! sid = Some request
      ∧ Some (prompt request) = rq_prompt body
      ∧ projectTag request = orElse (rq_project_tag body) "unknown"
      ∧ options request = default [] (rq_options body)
      ∧ inputType request
        = match rq_input_type body, options request with
          | Some ity, _ => ity
          | None, [] => text
          | None, _ :: _ => numeric
          end.
Proof.
  intros Hcall sid deadline. revert Hcall.
  unfold inputRequestCall. destruct (truthy (rq_prompt body)) eqn:Hprompt;
    cbn [negb]; [|done]. cbv zeta.
  set (timeoutMs := match rq_timeout_seconds body with
                    | Some s => if bool_decide (s ≠ 0) then Some (s * 1000) else None
                    | None => None
                    end).
  set (ity := default _ (rq_input_type body)).
  pose proof (requestMobileInput_tracking
                (orElse (rq_project_tag body) "unknown")
                (default "" (rq_prompt body)) (default [] (rq_options body))
                ity timeoutMs now rnd m) as Hreq.
  cbv zeta in Hreq.
  destruct (requestMobileInput _ _ _ _ _ _ _ _) as [[p0|e] m0]; [|done].
  intros [= <- <-].
  destruct Hreq as [Hthrow|[Hp Htr]]; [done|]. cbn [fst snd] in Hp, Htr.
  injection Hp as ->. split; [done|].
  assert (Hdeadline : default (inputTimeoutMs m) timeoutMs = deadline).
  { subst timeoutMs deadline. destruct (rq_timeout_seconds body) as [s|]; [|done].
    by repeat case_bool_decide. }
  rewrite Hdeadline in Htr. split.
  - rewrite (tr_timers _ _ Htr). simpl. apply lookup_insert_eq.
  - destruct (tracking_pending_lookup _ _ sid
                (mkPending sid sid (orElse (rq_project_tag body) "unknown")
                   (default "" (rq_prompt body)) (default [] (rq_options body))
                   ity now (nextPromise m) (nextTimer m) ∅ ∅) Htr)
      as (request & Hlk & Hcore).
    { simpl. apply lookup_insert_eq. }
    exists request. split; [done|].
    unfold core in Hcore. injection Hcore as _ _ Htag Hq Hopts Hity _ _ _.
    rewrite Hq, Htag, Hopts, Hity. split_and!; try done.
    + apply truthy_Some in Hprompt as (q & -> & _). done.
    + subst ity. destruct (rq_input_type body); [done|]. simpl.
      by destruct (default [] (rq_options body)).
Qed.

(** ** The matcher finds the words of a pattern *)

Lemma many_sound {R : Type} greedy cs (k : list Ascii.ascii → option R) s res :
  many greedy cs k s = Some res →
  ∃ w s', s = w ++ s' ∧ Forall (λ c, cs c = true) w ∧ k s' = Some res.
Proof.
  induction s as [|c s IH]; simpl.
  - intros H. exists [], []. split; [done|]. split; [done|].
    destruct greedy; [done|]. by destruct (k []).
  - assert (Hmore : (if cs c then many greedy cs k s else None) = Some res →
              ∃ w s', c :: s = w ++ s' ∧ Forall (λ c, cs c = true) w
                      ∧ k s' = Some res).
    { destruct (cs c) eqn:Hc; [|done]. intros Hm.
      destruct (IH Hm) as (w & s' & -> & Hw & Hk).
      exists (c :: w), s'. split; [done|]. split; [by constructor|done]. }
    assert (Hhere : k (c :: s) = Some res →
              ∃ w s', c :: s = w ++ s' ∧ Forall (λ c, cs c = true) w
                      ∧ k s' = Some res).
    { intros Hk. exists [], (c :: s). done. }
    destruct greedy.
    + destruct (if cs c then many true cs k s else None) as [r|] eqn:Hm.
      * intros [= ->]. by apply Hmore.
      * exact Hhere.
    + destruct (k (c :: s)) as [r|] eqn:Hk.
      * intros [= ->]. by apply Hhere.
      * exact Hmore.
Qed.

Lemma many_complete {R : Type} greedy cs (k : list Ascii.ascii → option R) w s' :
  Forall (λ c, cs c = true) w → is_Some (k s') →
  is_Some (many greedy cs k (w ++ s')).
Proof.
  intros Hw Hk. induction Hw as [|c w Hc Hw IH]; simpl.
  - destruct s' as [|c s']; simpl.
    + destruct greedy; [done|]. by destruct (k []).
    + destruct greedy.
      * by destruct (if cs c then many true cs k s' else None).
      * destruct (k (c :: s')); [done|]. by destruct Hk.
  - rewrite Hc. destruct greedy.
    + by destruct (many true cs k (w ++ s')).
    + destruct (k (c :: w ++ s')); done.
Qed.

Lemma matcher_sound {R : Type} r s caps
    (k : list Ascii.ascii → gmap nat string → option R) res :
  NoDup (groups r).*1 →
  matcher r s caps k = Some res →
  ∃ w s' caps',
    s = w ++ s' ∧ lang r w ∧ k s' caps' = Some res
    ∧ (∀ i, i ∉ (groups r).*1 → caps' !! i = caps !! i)
    ∧ (∀ i r', (i, r') ∈ groups r →
         ∃ t, caps' !! i = Some (String.string_of_list_ascii t) ∧ lang r' t).
Proof.
  revert s caps k. induction r as [cs|greedy cs|r1 IH1 r2 IH2|i r' IH|];
    intros s caps k Hnd Hm; simpl in *.
  - destruct s as [|c s]; [done|]. destruct (cs c) eqn:Hc; [|done].
    exists [c], s, caps. split_and!; try done; [by exists c|].
    intros i r' Hin. by apply elem_of_nil in Hin.
  - apply many_sound in Hm as (w & s' & -> & Hw & Hk).
    exists w, s', caps. split_and!; try done.
    intros i r' Hin. by apply elem_of_nil in Hin.
  - rewrite fmap_app in Hnd. apply NoDup_app in Hnd as (Hnd1 & Hdisj & Hnd2).
    destruct (IH1 _ _ _ Hnd1 Hm) as (w1 & s1 & caps1 & -> & Hw1 & Hk1 & Hout1 & Hin1).
    destruct (IH2 _ _ _ Hnd2 Hk1) as (w2 & s2 & caps2 & -> & Hw2 & Hk2 & Hout2 & Hin2).
    exists (w1 ++ w2), s2, caps2. split_and!.
    + by rewrite app_assoc.
    + by exists w1, w2.
    + done.
    + intros i Hi. rewrite fmap_app, elem_of_app in Hi.
      rewrite Hout2, Hout1; [done|tauto..].
    + intros i r' [Hin|Hin]%elem_of_app; [|by apply Hin2].
      destruct (Hin1 i r' Hin) as (t & Ht & Hl). exists t. split; [|done].
      rewrite Hout2; [done|]. apply Hdisj.
      apply list_elem_of_fmap. by exists (i, r').
  - apply NoDup_cons in Hnd as [Hi Hnd].
    destruct (IH _ _ _ Hnd Hm) as (w & s' & caps1 & -> & Hw & Hk & Hout & Hin).
    rewrite length_app, Nat.add_sub, take_app_length in Hk.
    exists w, s', (<[i := String.string_of_list_ascii w]> caps1).
    split; [done|]. split; [done|]. split; [done|]. split.
    + intros j Hj. rewrite elem_of_cons in Hj.
      rewrite lookup_insert_ne by (intros ->; tauto). apply Hout. tauto.
    + intros j r'' [Heq|Hin']%elem_of_cons.
      * injection Heq as -> ->. exists w. by rewrite lookup_insert_eq.
      * destruct (Hin j r'' Hin') as (t & Ht & Hl). exists t. split; [|done].
        rewrite lookup_insert_ne; [done|]. intros ->. apply Hi.
        apply list_elem_of_fmap. by exists (j, r'').
  - exists [], s, caps. split_and!; try done.
    intros i r' Hin. by apply elem_of_nil in Hin.
Qed.

Lemma matcher_complete {R : Type} r w s' caps
    (k : list Ascii.ascii → gmap nat string → option R) :
  lang r w → (∀ caps', is_Some (k s' caps')) →
  is_Some (matcher r (w ++ s') caps k).
Proof.
  revert w s' caps k. induction r as [cs|greedy cs|r1 IH1 r2 IH2|i r' IH|];
    intros w s' caps k Hw Hk; simpl in *.
  - destruct Hw as (c & -> & Hc). simpl. by rewrite Hc.
  - by apply many_complete.
  - destruct Hw as (w1 & w2 & -> & Hw1 & Hw2). rewrite <- app_assoc.
    apply IH1; [done|]. intros caps'. by apply IH2.
  - apply IH; [done|]. intros caps'. apply Hk.
  - subst w. apply Hk.
Qed.

Lemma search_sound r s caps :
  NoDup (groups r).*1 →
  search r s = Some caps →
  (∃ pre w post, s = pre ++ w ++ post ∧ lang r w)
  ∧ (∀ i, i ∉ (groups r).*1 → caps !! i = None)
  ∧ (∀ i r', (i, r') ∈ groups r →
       ∃ t, caps !! i = Some (String.string_of_list_ascii t) ∧ lang r' t).
Proof.
  intros Hnd. induction s as [|c s IH]; simpl.
  - destruct (matcher r [] ∅ _) as [caps0|] eqn:Hm; [|done]. intros [= ->].
    apply matcher_sound in Hm as (w & s' & caps' & Hs & Hw & [= ->] & Hout & Hin);
      [|done].
    split; [by exists [], w, s'|]. split; [|done].
    intros i Hi. by rewrite Hout.
  - destruct (matcher r (c :: s) ∅ _) as [caps0|] eqn:Hm.
    + intros [= ->].
      apply matcher_sound in Hm as (w & s' & caps' & Hs & Hw & [= ->] & Hout & Hin);
        [|done].
      split; [by exists [], w, s'|]. split; [|done].
      intros i Hi. by rewrite Hout.
    + intros Hs. destruct (IH Hs) as ((pre & w & post & -> & Hw) & Hrest).
      split; [|done]. by exists (c :: pre), w, post.
Qed.

Lemma search_complete r pre w post :
  lang r w → is_Some (search r (pre ++ w ++ post)).
Proof.
  intros Hw.
  assert (Hhere : ∀ s, s = w ++ post → is_Some (search r s)).
  { intros s ->.
    pose proof (matcher_complete r w post ∅ (λ _ caps, Some caps) Hw
                  (λ _, ltac:(done))) as [caps Hm].
    destruct (w ++ post); simpl; simpl in Hm; by rewrite Hm. }
  induction pre as [|c pre IH]; simpl; [by apply Hhere|].
  by destruct (matcher r _ ∅ _).
Qed.

Lemma detectIn_spec ps txt :
  Forall (λ p, NoDup (groups p.1).*1) ps →
  match detectIn ps txt with
  | NotDetected => Forall (λ p, ¬ occurs p.1 txt) ps
  | Detected ty opts =>
    ∃ ps1 r ps2 caps,
      ps = ps1 ++ (r, ty) :: ps2
      ∧ Forall (λ p, ¬ occurs p.1 txt) ps1
      ∧ occurs r txt
      ∧ (∀ i r', (i, r') ∈ groups r →
           ∃ t, caps !! i = Some (String.string_of_list_ascii t) ∧ lang r' t)
      ∧ opts = match ty with
               | numeric => filterBoolean (slice1 r caps)
               | yesno => ["Yes"; "No"]
               | text => []
               end
  end.
Proof.
  induction 1 as [|[r ty] ps Hnd _ IH]; simpl; [done|].
  destruct (search r (String.list_ascii_of_string txt)) as [caps|] eqn:Hs.
  - destruct (search_sound r _ caps Hnd Hs) as (Hocc & _ & Hin).
    exists [], r, ps, caps. done.
  - assert (Hno : ¬ occurs r txt).
    { intros (pre & w & post & Heq & Hw).
      destruct (search_complete r pre w post Hw) as [caps Hsome]. congruence. }
    fold (detectIn ps txt). destruct (detectIn ps txt) as [|ty' opts].
    + by constructor.
    + destruct IH as (ps1 & r' & ps2 & caps & -> & Hps1 & Hrest).
      exists ((r, ty) :: ps1), r', ps2, caps. split; [done|].
      split; [by constructor|done].
Qed.

Lemma INPUT_PATTERNS_groups :
  Forall (λ p, NoDup (groups p.1).*1) INPUT_PATTERNS.
Proof.
  unfold INPUT_PATTERNS.
  repeat (constructor; [apply (bool_decide_unpack _); vm_compute; reflexivity|]).
  constructor.
Qed.

Lemma oneOrMore_digit_number t :
  lang (oneOrMore digit) t → isNumber (String.string_of_list_ascii t).
Proof.
  intros (w1 & w2 & -> & (c & -> & Hc) & Hw2). split; [done|].
  rewrite String.list_ascii_of_string_of_list_ascii. by constructor.
Qed.

Lemma filterBoolean_cons s l :
  s ≠ "" → filterBoolean (Some s :: l) = s :: filterBoolean l.
Proof.
  intros Hne. unfold filterBoolean. simpl.
  by destruct (String.eqb_spec s "").
Qed.

Lemma numbers_captured (caps : gmap nat string) (gs : list (nat * Regex)) :
  Forall (λ g, ∃ t, caps !! g.1 = Some (String.string_of_list_ascii t)
                    ∧ lang (oneOrMore digit) t) gs →
  let opts := filterBoolean ((λ i, caps !! i) <$> gs.*1) in
  length opts = length gs ∧ Forall isNumber opts.
Proof.
  induction 1 as [|[i r] gs (t & Ht & Hl) _ [IH1 IH2]]; [done|].
  simpl in Ht. rewrite !fmap_cons. cbn [fst]. rewrite Ht.
  pose proof (oneOrMore_digit_number t Hl) as Hnum.
  rewrite filterBoolean_cons by apply Hnum.
  split; [simpl; by f_equal|by constructor].
Qed.

(** * The claims *)

(** C1. A pending request of a reachable state completes once.  Whichever
    of an answer, the deadline and a cancellation comes first takes the
    entry out of the table and settles the caller's promise; every later
    answer, deadline or cancellation for the same request leaves the
    manager exactly as it is, and no later event of any kind settles the
    promise again: it is settled exactly once. *)
Theorem request_settles_once m sid request c :
  reachable m →
  pendingRequests m !! sid = Some request →
  let tid := timeoutId request in
  let p := promise request in
  let m1 := complete sid tid c m in
  ∃ ms,
    timers m !! tid = Some (mkTimer ms (InputDeadline sid p ms))
    ∧ settlements p m = []
    ∧ pendingRequests m1 !! sid = None
    ∧ settlements p m1 = [outcome ms c]
    ∧ (∀ cs, foldl (λ acc c', complete sid tid c' acc) m1 cs = m1)
    ∧ (∀ es, settlements p (run es m1) = [outcome ms c]).
Proof.
  intros Hreach Hr. simpl. pose proof (reachable_wf _ Hreach) as Hwf.
  destruct (wf_pending _ Hwf _ _ Hr) as [ms Hms]. exists ms.
  destruct (wf_unsettled _ Hwf _ _ _ _ _ Hms) as [_ Hnil].
  destruct (complete_first sid request ms ms m Hr Hms c) as (Ht1 & Hp1 & Hs1 & Hn1).
  assert (Hone : settlements (promise request)
                   (complete sid (timeoutId request) c m) = [outcome ms c]).
  { unfold settlements in *. rewrite Hs1, filter_app, fmap_app, Hnil.
    rewrite filter_cons, filter_nil. simpl. by rewrite decide_True. }
  assert (Hgone : pendingRequests (complete sid (timeoutId request) c m) !! sid
                  = None) by (rewrite Hp1; apply lookup_delete_eq).
  assert (Hdisarmed : timers (complete sid (timeoutId request) c m)
                        !! timeoutId request = None)
    by (rewrite Ht1; apply lookup_delete_eq).
  split_and!; try done.
  - intros cs. by apply complete_done_all.
  - intros es.
    pose proof (finish_abandons m _ _ _ _ _ _ Hwf Hms Ht1 Hp1 Hn1) as Hab.
    destruct (abandoned_run _ es _ Hab) as [_ ->]. exact Hone.
Qed.

Lemma request_settles_once_witness :
  let m := run oneRequest newManager in
  let m1 := complete "input_5000_k3x9aa" 1 (Answer "2" "Phone") m in
  ∃ ms,
    timers m !! 1%nat
    = Some (mkTimer ms (InputDeadline "input_5000_k3x9aa" 0 ms))
    ∧ settlements 0 m = []
    ∧ pendingRequests m1 !! "input_5000_k3x9aa" = None
    ∧ settlements 0 m1 = [outcome ms (Answer "2" "Phone")]
    ∧ (∀ cs, foldl (λ acc c', complete "input_5000_k3x9aa" 1 c' acc) m1 cs = m1)
    ∧ (∀ es, settlements 0 (run es m1) = [outcome ms (Answer "2" "Phone")]).
Proof.
  apply (request_settles_once (run oneRequest newManager) "input_5000_k3x9aa"
           sampleRequest (Answer "2" "Phone")).
  - by exists oneRequest.
  - vm_compute. reflexivity.
Defined.

(** C2. With no open channel and no stored APNs token, [requestMobileInput]
    fails at once with the 'no recipients' error and leaves the manager as
    it was: no pending entry is inserted and no timer is armed. *)
Theorem requestMobileInput_no_recipients tag question opts ity timeoutMs now rnd m :
  getConnectedDeviceCount m = 0%nat →
  size (deviceApnsTokens m) = 0%nat →
  let result := requestMobileInput tag question opts ity timeoutMs now rnd m in
  result = (Throw noRecipients, m)
  ∧ pendingRequests result.2 = pendingRequests m
  ∧ timers result.2 = timers m
  ∧ nextTimer result.2 = nextTimer m.
Proof.
  intros Hcount Htokens. unfold requestMobileInput.
  rewrite Hcount, Htokens. simpl. done.
Qed.

Lemma requestMobileInput_no_recipients_witness :
  let result := requestMobileInput "proj" "Continue? (y/n)" ["Yes"; "No"] yesno
                  (Some 2000) 1700000000000 "k3x9aa" newManager in
  result = (Throw noRecipients, newManager)
  ∧ pendingRequests result.2 = pendingRequests newManager
  ∧ timers result.2 = timers newManager
  ∧ nextTimer result.2 = nextTimer newManager.
Proof.
  apply (requestMobileInput_no_recipients "proj" "Continue? (y/n)" ["Yes"; "No"]
           yesno (Some 2000) 1700000000000 "k3x9aa" newManager);
    reflexivity.
Defined.

(** C3, as stated, fails: the phone "phone-1" answers "2" half a second
    after the request; the caller's promise is fulfilled with "2" and the
    reply of the handler names "mobile" as the responder, which is neither
    the identifier nor the name of the phone. *)
Lemma responded_by_is_not_the_device :
  let m := run oneRequest newManager in
  let m' := step m (Message 0 (Some (inputResponse "input_5000_k3x9aa" "2" 5500)) 5500) in
  let reply := inputRequestReply 5000 5500 "2" in
  (sockets m !! 0%nat ≫= listeners) = Some ("phone-1", "Phone")
  ∧ settlements 0 m' = [Resolved "2"]
  ∧ ¬ (responded_by reply = "phone-1" ∨ responded_by reply = "Phone").
Proof.
  split; [vm_compute; reflexivity|]. split; [vm_compute; reflexivity|].
  intros [H|H]; vm_compute in H; discriminate H.
Qed.

(** C3, amended.  An answer for a pending request takes the entry out of
    the table, disarms its timer and fulfils the caller's promise with the
    answer string and nothing else; the reply of the handler carries that
    string, the time elapsed since the handler started and the constant
    "mobile" as the responder, whichever device answered. *)
Theorem answer_reaches_caller m h dev name client sid request answer now :
  sockets m !! h ≫= listeners = Some (dev, name) →
  clients m !! dev = Some client →
  pendingRequests m !! sid = Some request →
  sid ≠ "" →
  let m' := step m (Message h (Some (inputResponse sid answer now)) now) in
  settled m' = settled m ++ [(promise request, Resolved answer)]
  ∧ pendingRequests m' !! sid = None
  ∧ timers m' !! timeoutId request = None
  ∧ ∀ started finished,
      inputRequestReply started finished answer
      = mkInputRequestResponse answer "mobile" (finished - started).
Proof.
  intros Hl Hc Hr Hsid. simpl. unfold onMessage. rewrite Hl.
  unfold handleMessage. rewrite Hc. simpl.
  assert (Htruthy : negb (String.eqb sid "") = true).
  { apply negb_true_iff. by apply String.eqb_neq. }
  rewrite Htruthy. unfold handleInputResponse. simpl. rewrite Hr. simpl.
  by rewrite !lookup_delete_eq.
Qed.

Lemma answer_reaches_caller_witness :
  let m := run oneRequest newManager in
  let m' := step m (Message 0 (Some (inputResponse "input_5000_k3x9aa" "2" 5500)) 5500) in
  settled m' = [(0%nat, Resolved "2")]
  ∧ pendingRequests m' !! "input_5000_k3x9aa" = None
  ∧ inputRequestReply 5000 5500 "2" = mkInputRequestResponse "2" "mobile" 500.
Proof.
  intros m m'.
  destruct (answer_reaches_caller m 0%nat "phone-1" "Phone"
              (mkClient 0 (mkSession "phone-1" "Phone" None 1000 1000 active 0) true)
              "input_5000_k3x9aa" sampleRequest "2" 5500)
    as (Hsettled & Hgone & _ & Hreply).
  - vm_compute. reflexivity.
  - vm_compute. reflexivity.
  - vm_compute. reflexivity.
  - discriminate.
  - split; [exact Hsettled|]. split; [exact Hgone|]. exact (Hreply 5000 5500).
Defined.

(** For C4.  [shutdown] stops the heartbeat interval, closes every open
    registered channel with code 1001 and the reason 'Server shutting
    down', releases the provider and disarms the deadline timer of every
    pending request.  It empties the table without calling [reject]: the
    promise of a request that was pending is settled neither by [shutdown]
    nor by anything that happens later. *)
Theorem shutdown_leaves_caller_waiting m sid request es :
  reachable m →
  pendingRequests m !! sid = Some request →
  let m' := shutdown m in
  heartbeatInterval m' = None
  ∧ (∀ h, heartbeatInterval m = Some h → intervals m' !! h = None)
  ∧ (∀ dev client, clients m !! dev = Some client → isOpen m (ws client) = true →
       ∃ s, sockets m !! ws client = Some s
            ∧ sockets m' !! ws client = Some (ws_close shutdownFrame s))
  ∧ apnsProvider m' = None
  ∧ providerShutdowns m'
    = match apnsProvider m with
      | Some _ => S (providerShutdowns m)
      | None => providerShutdowns m
      end
  ∧ timers m' !! timeoutId request = None
  ∧ pendingRequests m' = ∅
  ∧ settled m' = settled m
  ∧ settlements (promise request) m' = []
  ∧ settlements (promise request) (run es m') = [].
Proof.
  intros Hreach Hr. simpl. pose proof (reachable_wf _ Hreach) as Hwf.
  destruct (shutdown_spec m)
    as (Hhb & Hiv & _ & Hp & _ & Hprov & Hps & Hclose & _ & Hclear & Hsub & _
        & Hse & _ & _ & _ & Hnp & _).
  destruct (wf_pending _ Hwf _ _ Hr) as [ms Hms].
  destruct (wf_unsettled _ Hwf _ _ _ _ _ Hms) as [Hlt Hnil].
  assert (Hnil' : settlements (promise request) (shutdown m) = []).
  { unfold settlements in *. by rewrite Hse. }
  assert (Hab : abandoned (promise request) (shutdown m)).
  { constructor.
    - by rewrite Hnp.
    - rewrite Hp. intros sid' r' Hr'. by rewrite lookup_empty in Hr'.
    - intros h d sid' ms' Hh. pose proof (Hsub _ _ Hh) as Hh0.
      assert (h = timeoutId request) as -> by by eapply (wf_deadlines _ Hwf).
      rewrite (Hclear _ _ Hr) in Hh. done. }
  destruct (abandoned_run _ es _ Hab) as [_ Hrun].
  split_and!; try done.
  - by eapply Hclear.
  - by rewrite Hrun.
Qed.

Lemma shutdown_leaves_caller_waiting_witness :
  let m := run oneRequest newManager in
  let m' := shutdown m in
  let later := [Message 0 (Some (inputResponse "input_5000_k3x9aa" "2" 5500)) 5500;
                TimerDue 1; CancelInput "input_5000_k3x9aa"] in
  pendingRequests m !! "input_5000_k3x9aa" = Some sampleRequest
  ∧ (closeFrame <$> sockets m' !! 0%nat) = Some (Some shutdownFrame)
  ∧ timers m' !! 1%nat = None
  ∧ pendingRequests m' = ∅
  ∧ settlements 0 m' = []
  ∧ settlements 0 (run later m') = [].
Proof.
  intros m m' later.
  destruct (shutdown_leaves_caller_waiting m "input_5000_k3x9aa" sampleRequest later)
    as (_ & _ & _ & _ & _ & Htimer & Hpending & _ & Hnow & Hlater).
  - by exists oneRequest.
  - vm_compute. reflexivity.
  - split; [vm_compute; reflexivity|]. split; [vm_compute; reflexivity|].
    split; [exact Htimer|]. split; [exact Hpending|].
    split; [exact Hnow|exact Hlater].
Defined.

(** For C5.  [handleConnection] closes the socket that the client table
    holds for the device, and no other.  A device that has an open socket
    and no entry in the table (its session was evicted while the socket was
    open) keeps that socket when it connects again: afterwards two open
    sockets act for the device, the old one as it was and the new one, which
    alone is registered. *)
Theorem evicted_channel_stays_open qd qn qt now m h0 s0 name0 cfg :
  reachable m →
  let dev := orElse qd "unknown" in
  sockets m !! h0 = Some s0 →
  readyState s0 = OPEN →
  listeners s0 = Some (dev, name0) →
  clients m !! dev = None →
  config m = Some cfg →
  let h := nextSocket m in
  let m' := onConnection qd qn qt now m in
  h0 ≠ h
  ∧ sockets m' !! h0 = Some s0
  ∧ isOpen m' h0 = true
  ∧ isOpen m' h = true
  ∧ (ws <$> clients m' !! dev) = Some h
  ∧ h0 ∈ liveChannels dev m'
  ∧ h ∈ liveChannels dev m'
  ∧ (2 ≤ length (liveChannels dev m'))%nat.
Proof.
  intros Hreach dev Hs0 Hopen0 Hl0 Hnone Hcfg h m'.
  pose proof (reachable_wf _ Hreach) as Hwf.
  destruct (onConnection_spec qd qn qt now m Hwf)
    as (Hc & _ & Hother & _ & msgs & s & Hs & Hrs & _).
  destruct (onConnection_ack qd qn qt now m cfg Hwf Hcfg)
    as (msgs' & s' & Hs' & Hl & _).
  fold dev h m' in Hc, Hother, Hs, Hs', Hl. rewrite Hs in Hs'. injection Hs' as <-.
  pose proof (wf_sockets _ Hwf _ _ Hs0) as Hlt. fold h in Hlt.
  assert (Hne : h0 ≠ h) by lia.
  assert (Hkept : sockets m' !! h0 = Some s0).
  { rewrite Hother; [done..|]. intros c. by rewrite Hnone. }
  assert (Hin0 : h0 ∈ liveChannels dev m').
  { apply elem_of_liveChannels. exists s0. by rewrite Hl0. }
  assert (Hin : h ∈ liveChannels dev m').
  { apply elem_of_liveChannels. exists s. by rewrite Hl. }
  split_and!; try done.
  - apply isOpen_true. by exists s0.
  - apply isOpen_true. by exists s.
  - by rewrite Hc, lookup_insert_eq.
  - by apply (two_elements h0 h).
Qed.

(** The phone of [staleClose] connects again, at 310 s: the sockets 2 and 3
    are open for it. *)
Lemma evicted_channel_stays_open_witness :
  let m := run staleClose newManager in
  let m' := onConnection (Some "phone-1") (Some "Phone") None 310000 m in
  clients m !! "phone-1" = None
  ∧ isOpen m 2 = true
  ∧ isOpen m' 2 = true
  ∧ isOpen m' 3 = true
  ∧ liveChannels "phone-1" m' = [2%nat; 3%nat].
Proof.
  intros m m'.
  assert (Hs : sockets m !! 2%nat
            = Some (mkSocket OPEN
                      [mkMessage handshake_ack 299000
                         (Some (PHandshakeAck
                                  (mkHandshakeAck "listener-1" "Desk" "1.0.0" 1)))]
                      1 None false (Some ("phone-1", "Phone"))))
    by (vm_compute; reflexivity).
  assert (Hnone : clients m !! "phone-1" = None) by (vm_compute; reflexivity).
  destruct (evicted_channel_stays_open (Some "phone-1") (Some "Phone") None 310000
              m 2 _ "Phone" sampleConfig ltac:(by eexists) Hs eq_refl eq_refl Hnone)
    as (_ & _ & Hold & Hnew & _).
  - vm_compute. reflexivity.
  - split; [exact Hnone|]. split; [vm_compute; reflexivity|].
    split; [exact Hold|]. split; [exact Hnew|]. vm_compute. reflexivity.
Defined.

(** C6. When a device connects, every pending request that has not been
    sent to it is written to the new socket as an 'input_required' message,
    which carries the session id, project tag, prompt, options and input
    type of the request, and the device is added to the request's notified
    set; a request whose set already holds the device is left as it is and
    is not written. *)
Theorem reconnect_redelivers qd qn qt now m sid request :
  reachable m →
  pendingRequests m !! sid = Some request →
  let dev := orElse qd "unknown" in
  let m' := onConnection qd qn qt now m in
  ∃ client s,
    clients m' !! dev = Some client
    ∧ sockets m' !! ws client = Some s
    ∧ if bool_decide (dev ∈ notifiedDevices request)
      then pendingRequests m' !! sid = Some request
           ∧ ∀ msg, msg ∈ sent s → type msg = input_required →
                    payloadSessionId (payload msg) ≠ Some sid
      else pendingRequests m' !! sid = Some (addNotified dev request)
           ∧ mkMessage input_required now
               (Some (PInputRequired
                        (mkInputRequired (sessionId request) (projectTag request)
                           (prompt request) (options request)
                           (inputType request))))
             ∈ sent s.
Proof.
  intros Hreach Hr. simpl. pose proof (reachable_wf _ Hreach) as Hwf.
  destruct (onConnection_spec qd qn qt now m Hwf)
    as (Hc & Hp & _ & _ & msgs & s & Hs & _ & Hsent & Hmsgs_sent & Hmsgs).
  simpl in *. eexists. exists s. rewrite Hc, lookup_insert_eq. simpl.
  split; [done|]. split; [done|].
  rewrite Hp, lookup_fmap, Hr. simpl. unfold redelivered.
  case_bool_decide as Hdev.
  - split; [done|]. intros msg Hin Hty.
    destruct (Hsent msg Hin) as [Hmsg|Hack]; [|congruence].
    apply Hmsgs in Hmsg as (sid' & r' & Hr' & Hnot & ->). simpl.
    rewrite (wf_keys _ Hwf _ _ Hr'). intros [= ->]. congruence.
  - split; [done|]. apply Hmsgs_sent, Hmsgs. by exists sid, request.
Qed.

Lemma reconnect_redelivers_witness :
  let m := run (oneRequest ++ [Close 0]) newManager in
  let m' := onConnection (Some "tablet-7") (Some "Tablet") None 9000 m in
  ∃ client s,
    clients m' !! "tablet-7" = Some client
    ∧ sockets m' !! ws client = Some s
    ∧ pendingRequests m' !! "input_5000_k3x9aa"
      = Some (addNotified "tablet-7" sampleRequest)
    ∧ mkMessage input_required 9000
        (Some (PInputRequired
                 (mkInputRequired "input_5000_k3x9aa" "proj" "Choose 1, 2, or 3"
                    ["1"; "2"; "3"] numeric)))
      ∈ sent s.
Proof.
  intros m m'.
  destruct (reconnect_redelivers (Some "tablet-7") (Some "Tablet") None 9000 m
              "input_5000_k3x9aa" sampleRequest)
    as (client & s & Hc & Hs & Hrest).
  - by exists (oneRequest ++ [Close 0]).
  - vm_compute. reflexivity.
  - exists client, s. split; [exact Hc|]. split; [exact Hs|]. exact Hrest.
Defined.






(** C9. The token table changes only when a connection brings a token:
    the token then replaces the entry of the device.  A connection without
    a token, the closing of a channel and the eviction of the session after
    the grace period leave the table as it is; with an entry in the table
    [requestMobileInput] still accepts requests. *)
Theorem push_token_is_durable m e :
  deviceApnsTokens (step m e) = learnToken (deviceApnsTokens m) e
  ∧ (∀ tid d dev client,
       e = TimerDue tid →
       timers m !! tid = Some (mkTimer d (SessionExpiry dev)) →
       clients m !! dev = Some client →
       status (session client) = disconnected →
       clients (step m e) !! dev = None
       ∧ deviceApnsTokens (step m e) = deviceApnsTokens m)
  ∧ (∀ tag question opts ity timeoutMs now rnd,
       deviceApnsTokens (step m e) ≠ ∅ →
       (requestMobileInput tag question opts ity timeoutMs now rnd (step m e)).1
       = Normal (nextPromise (step m e))).
Proof.
  split; [apply step_deviceApnsTokens|]. split.
  - intros tid d dev client -> Htid Hc Hst. simpl. split.
    + unfold fireTimer. rewrite Htid. simpl. rewrite Hc.
      rewrite bool_decide_eq_true_2 by done. simpl. apply lookup_delete_eq.
    + by destruct (fireTimer_frame tid m) as (_ & -> & _).
  - intros tag question opts ity timeoutMs now rnd Hne.
    destruct (requestMobileInput_tracking tag question opts ity timeoutMs now rnd
                (step m e)) as [Hthrow|[Hp _]]; [|done].
    exfalso. unfold requestMobileInput in Hthrow.
    apply map_size_non_empty_iff in Hne.
    rewrite (bool_decide_eq_true_2 (0 < size _)%nat) in Hthrow by lia.
    rewrite andb_false_r in Hthrow. simpl in Hthrow.
    destruct (sendApnsPushToDisconnectedDevices _ _ _ _). discriminate Hthrow.
Qed.

Lemma push_token_is_durable_witness :
  let m := run phoneGone newManager in
  deviceApnsTokens m !! "phone-1" = Some "a1b2c3d4e5f6"
  ∧ clients (step m (TimerDue 1)) !! "phone-1" = None
  ∧ deviceApnsTokens (step m (TimerDue 1)) = deviceApnsTokens m.
Proof.
  intros m.
  destruct (push_token_is_durable m (TimerDue 1)) as (_ & Hevict & _).
  destruct (Hevict 1%nat SESSION_TIMEOUT "phone-1"
              (mkClient 0 (mkSession "phone-1" "Phone" (Some "a1b2c3d4e5f6")
                             1000 1000 disconnected 0) true))
    as [Hgone Hkept].
  - reflexivity.
  - vm_compute. reflexivity.
  - vm_compute. reflexivity.
  - reflexivity.
  - split; [vm_compute; reflexivity|]. split; [exact Hgone|exact Hkept].
Defined.

(** C10. Tokens are stored, the provider is not initialised and no channel
    is open: [requestMobileInput] does not fail.  It hands out a promise,
    arms the deadline timer and inserts a pending request whose tracking
    sets are empty; nothing is written to any socket and the provider is
    never called.  The promise then stays unsettled through every event
    other than the deadline, a cancellation, an answer for the request and
    [shutdown]. *)
Theorem requestMobileInput_tokens_without_provider
    tag question opts ity timeoutMs now rnd m es :
  reachable m →
  getConnectedDeviceCount m = 0%nat →
  (0 < size (deviceApnsTokens m))%nat →
  apnsProvider m = None →
  let sid := newSessionId now rnd in
  let effectiveTimeout := default (inputTimeoutMs m) timeoutMs in
  let result := requestMobileInput tag question opts ity timeoutMs now rnd m in
  result.1 = Normal (nextPromise m)
  ∧ pendingRequests result.2
    = <[sid := mkPending sid sid tag question opts ity now (nextPromise m)
                 (nextTimer m) ∅ ∅]> (pendingRequests m)
  ∧ timers result.2
    = <[nextTimer m := mkTimer effectiveTimeout
                         (InputDeadline sid (nextPromise m) effectiveTimeout)]>
        (timers m)
  ∧ sockets result.2 = sockets m
  ∧ pushes result.2 = pushes m
  ∧ settled result.2 = settled m
  ∧ (Forall (λ e, ¬ completes sid (nextTimer m) e) es →
     settlements (nextPromise m) (run es result.2) = []).
Proof.
  intros Hreach Hcount Htokens Hprovider sid eff result.
  pose proof (reachable_wf _ Hreach) as Hwf.
  pose proof (wf_requestMobileInput tag question opts ity timeoutMs now rnd m Hwf)
    as Hwf1.
  fold result in Hwf1.
  assert (Hresult : result
    = (Normal (nextPromise m),
       set_pendingRequests
         (<[sid := mkPending sid sid tag question opts ity now (nextPromise m)
                     (nextTimer m) ∅ ∅]> (pendingRequests m))
         (setTimeout (InputDeadline sid (nextPromise m) eff) eff
            (set_nextPromise (S (nextPromise m)) m)).2)).
  { subst result. unfold requestMobileInput.
    rewrite Hcount. rewrite (bool_decide_eq_true_2 _ Htokens). simpl.
    rewrite notifyInputRequired_nobody by done.
    unfold sendApnsPushToDisconnectedDevices. simpl. by rewrite Hprovider. }
  rewrite Hresult in Hwf1 |- *. simpl in Hwf1 |- *.
  split_and!; try done.
  intros Hquiet.
  match type of Hwf1 with
  | wf ?m1 =>
    pose proof (armed_run sid (nextTimer m) (nextPromise m) eff eff es m1 Hwf1) as Harmed;
      pose proof (wf_run es m1 Hwf1) as Hwf2
  end.
  simpl in Harmed. rewrite lookup_insert_eq in Harmed.
  specialize (Harmed eq_refl Hquiet).
  by destruct (wf_unsettled _ Hwf2 _ _ _ _ _ Harmed).
Qed.

Lemma requestMobileInput_tokens_without_provider_witness :
  let m := run phoneGone newManager in
  let result := requestMobileInput "proj" "Continue? (y/n)" ["Yes"; "No"] yesno
                  None 5000 "k3x9aa" m in
  result.1 = Normal 0%nat
  ∧ pendingRequests result.2
    = {["input_5000_k3x9aa" :=
          mkPending "input_5000_k3x9aa" "input_5000_k3x9aa" "proj"
            "Continue? (y/n)" ["Yes"; "No"] yesno 5000 0 2 ∅ ∅]}
  ∧ sockets result.2 = sockets m
  ∧ pushes result.2 = []
  ∧ settlements 0 (run [Tick 0; TimerDue 1; Pong 0 6000] result.2) = [].
Proof.
  intros m result.
  destruct (requestMobileInput_tokens_without_provider "proj" "Continue? (y/n)"
              ["Yes"; "No"] yesno None 5000 "k3x9aa" m
              [Tick 0; TimerDue 1; Pong 0 6000])
    as (Hp & Hpending & _ & Hsockets & Hpushes & _ & Hwaiting).
  - by exists phoneGone.
  - vm_compute. reflexivity.
  - vm_compute. lia.
  - vm_compute. reflexivity.
  - split; [exact Hp|]. split; [|split; [exact Hsockets|split; [exact Hpushes|]]].
    + etrans; [exact Hpending|]. vm_compute. reflexivity.
    + apply Hwaiting. repeat constructor; simpl; try tauto.
      intros Heq. vm_compute in Heq. discriminate Heq.
Defined.

(** * Further properties *)

(** Properties of the code beside the claims: of the manager, of the
    handlers of the HTTP layer that call it, and of the input patterns. *)

(** X1. A request that [requestMobileInput] accepts is written, as one
    [input_required] message, once to the socket of every registered client
    whose channel is open.  No other socket changes, the client table stays
    as it was, and the notified set of the new request holds exactly the
    devices whose channel is open. *)
Theorem request_reaches_every_connected_device
    tag question opts ity timeoutMs now rnd m :
  reachable m →
  getConnectedDeviceCount m ≠ 0%nat ∨ (0 < size (deviceApnsTokens m))%nat →
  let sid := newSessionId now rnd in
  let message :=
    mkMessage input_required now
      (Some (PInputRequired (mkInputRequired sid tag question opts ity))) in
  let m' := (requestMobileInput tag question opts ity timeoutMs now rnd m).2 in
  clients m' = clients m
  ∧ (∀ dev c, clients m !! dev = Some c → isOpen m (ws c) = true →
       sockets m' !! ws c = ws_send message <$> sockets m !! ws c)
  ∧ (∀ h, (∀ dev c, clients m !! dev = Some c → isOpen m (ws c) = true →
             ws c ≠ h) →
       sockets m' !! h = sockets m !! h)
  ∧ ∃ request,
      pendingRequests m' !! sid = Some request
      ∧ ∀ dev, dev ∈ notifiedDevices request ↔ isConnected dev m = true.
Proof.
  intros Hreach Hsome sid message m'.
  pose proof (reachable_coherent _ Hreach) as Hco.
  split; [apply requestMobileInput_clients|].
  subst m'. unfold requestMobileInput.
  replace (bool_decide (getConnectedDeviceCount m = 0%nat)
           && negb (bool_decide (0 < size (deviceApnsTokens m))%nat))
    with false.
  2: { symmetry. apply andb_false_iff. destruct Hsome as [H|H].
       - left. by apply bool_decide_eq_false.
       - right. apply negb_false_iff. by apply bool_decide_eq_true. }
  cbv zeta. unfold setTimeout. cbn [fst snd].
  set (request0 := mkPending sid sid tag question opts ity now (nextPromise m)
                     (nextTimer m) ∅ ∅).
  set (m0 := set_pendingRequests _ _).
  assert (Hcl0 : clients m0 = clients m) by done.
  assert (Hs0 : sockets m0 = sockets m) by done.
  assert (Hreq0 : pendingRequests m0 !! sid = Some request0)
    by (subst m0; simpl; apply lookup_insert_eq).
  assert (Hopen0 : ∀ h, isOpen m0 h = isOpen m h) by done.
  destruct (notifyInputRequired_sockets
              (mkInputRequired sid tag question opts ity) (Some sid) now m0)
    as [Hsent Hrest].
  { rewrite Hcl0. apply (co_ws _ Hco). }
  destruct (notifyInputRequired_notified
              (mkInputRequired sid tag question opts ity) sid now m0 request0 Hreq0)
    as (request & Hreq & _ & _ & Hiff).
  set (m1 := notifyInputRequired _ _ _ m0) in *.
  destruct (push_sockets (mkInputRequired sid tag question opts ity) sid
              (nextPromise m) now m1) as [Hs2 Hn2].
  fold sid. cbn [snd].
  generalize dependent (sendApnsPushToDisconnectedDevices
                          (mkInputRequired sid tag question opts ity) sid
                          (nextPromise m) now m1).
  intros m2 Hs2 Hn2. rewrite Hs2. split_and!.
  - intros dev c' Hc Ho. rewrite <- Hs0. apply (Hsent dev); by rewrite ?Hcl0, ?Hopen0.
  - intros h Hh. rewrite <- Hs0. apply Hrest. intros dev c' Hc Ho.
    rewrite Hcl0 in Hc. rewrite Hopen0 in Ho. by apply (Hh dev).
  - pose proof (f_equal (λ t, t !! sid) Hn2) as Hlk. simpl in Hlk.
    rewrite !lookup_fmap, Hreq in Hlk.
    destruct (pendingRequests m2 !! sid) as [request2|]; [|done].
    injection Hlk as Hlk. exists request2. split; [done|].
    intros dev. rewrite Hlk, Hiff. subst request0. simpl.
    rewrite (isConnected_same m m0) by done. rewrite elem_of_empty. tauto.
Qed.

Lemma request_reaches_every_connected_device_witness :
  let m := run onePhone newManager in
  let sid := newSessionId 5000 "k3x9aa" in
  let message :=
    mkMessage input_required 5000
      (Some (PInputRequired
               (mkInputRequired sid "proj" "Choose 1, 2, or 3" ["1"; "2"; "3"]
                  numeric))) in
  let m' := (requestMobileInput "proj" "Choose 1, 2, or 3" ["1"; "2"; "3"]
               numeric (Some 2000) 5000 "k3x9aa" m).2 in
  isOpen m 0 = true
  ∧ sockets m' !! 0%nat = ws_send message <$> sockets m !! 0%nat
  ∧ ∃ request,
      pendingRequests m' !! sid = Some request
      ∧ ∀ dev, dev ∈ notifiedDevices request ↔ isConnected dev m = true.
Proof.
  intros m sid message m'.
  assert (Hopen : isOpen m 0 = true) by (vm_compute; reflexivity).
  destruct (request_reaches_every_connected_device "proj" "Choose 1, 2, or 3"
              ["1"; "2"; "3"] numeric (Some 2000) 5000 "k3x9aa" m)
    as (_ & Hsent & _ & Hreq).
  - by exists onePhone.
  - left. vm_compute. discriminate.
  - split; [exact Hopen|]. split; [|exact Hreq].
    exact (Hsent "phone-1"
      (mkClient 0 (mkSession "phone-1" "Phone" None 1000 1000 active 0) true)
      ltac:(vm_compute; reflexivity) Hopen).
Defined.

(** X2. [notifyTaskComplete] writes the [task_complete] message once to
    the socket of every registered client whose channel is open, and changes
    nothing else: every other socket and every other field of the manager
    are as before. *)
Theorem task_complete_reaches_every_connected_device sid tag summary now m :
  reachable m →
  let message :=
    mkMessage task_complete now (Some (PTaskComplete sid tag summary)) in
  let m' := notifyTaskComplete sid tag summary now m in
  m' = set_sockets (sockets m') m
  ∧ (∀ dev c, clients m !! dev = Some c → isOpen m (ws c) = true →
       sockets m' !! ws c = ws_send message <$> sockets m !! ws c)
  ∧ (∀ h, (∀ dev c, clients m !! dev = Some c → isOpen m (ws c) = true →
             ws c ≠ h) →
       sockets m' !! h = sockets m !! h).
Proof.
  intros Hreach message m'. split.
  - subst m'. unfold notifyTaskComplete.
    apply (forEach_invariant (λ acc, acc = set_sockets (sockets acc) m));
      [by destruct m|].
    intros dev client acc _ Hacc. destruct (isOpen acc (ws client)); [|done].
    unfold sendMessage. destruct (isOpen acc (ws client)); [|done].
    unfold updateSocket. rewrite Hacc at 2. done.
  - refine (proj2 (broadcast_spec (λ _ acc, acc) message m _ _)); [done|].
    apply (co_ws _ (reachable_coherent _ Hreach)).
Qed.

Lemma task_complete_reaches_every_connected_device_witness :
  let m := run onePhone newManager in
  let message :=
    mkMessage task_complete 7000
      (Some (PTaskComplete "input_5000_k3x9aa" "proj" (Some "done"))) in
  let m' := notifyTaskComplete "input_5000_k3x9aa" "proj" (Some "done") 7000 m in
  isOpen m 0 = true
  ∧ sockets m' !! 0%nat = ws_send message <$> sockets m !! 0%nat
  ∧ m' = set_sockets (sockets m') m.
Proof.
  intros m message m'.
  assert (Hopen : isOpen m 0 = true) by (vm_compute; reflexivity).
  destruct (task_complete_reaches_every_connected_device "input_5000_k3x9aa"
              "proj" (Some "done") 7000 m) as (Hsame & Hsent & _).
  - by exists onePhone.
  - split; [exact Hopen|]. split; [|exact Hsame].
    exact (Hsent "phone-1"
      (mkClient 0 (mkSession "phone-1" "Phone" None 1000 1000 active 0) true)
      ltac:(vm_compute; reflexivity) Hopen).
Defined.

(** X3. In every reachable state, every device whose registered channel
    is open is in the notified set of every pending request: a request goes
    to the devices that are connected when it is made, and a device that
    connects later is sent what is pending. *)
Theorem connected_devices_are_notified m dev c sid request :
  reachable m →
  clients m !! dev = Some c → isOpen m (ws c) = true →
  pendingRequests m !! sid = Some request →
  dev ∈ notifiedDevices request.
Proof. intros Hreach. apply (reachable_notifiedAll m Hreach). Qed.

(** A request is made while nobody is there; then a phone connects. *)
Lemma connected_devices_are_notified_witness :
  let m := run (phoneGone ++
                [RequestInput "proj" "Continue? (y/n)" [] yesno None 5000 "k3x9aa";
                 Connection (Some "phone-2") (Some "Tablet") None 6000])
             newManager in
  isOpen m 1 = true
  ∧ (notifiedDevices <$> pendingRequests m !! "input_5000_k3x9aa")
    = Some {["phone-2"]}.
Proof.
  intros m.
  assert (Hreq : pendingRequests m !! "input_5000_k3x9aa"
            = Some (mkPending "input_5000_k3x9aa" "input_5000_k3x9aa" "proj"
                      "Continue? (y/n)" [] yesno 5000 0 2 {["phone-2"]} ∅))
    by (vm_compute; reflexivity).
  assert (Hopen : isOpen m 1 = true) by (vm_compute; reflexivity).
  pose proof (connected_devices_are_notified m "phone-2"
                (mkClient 1 (mkSession "phone-2" "Tablet" None 6000 6000 active 0)
                   true)
                "input_5000_k3x9aa" _ ltac:(by eexists)
                ltac:(vm_compute; reflexivity) Hopen Hreq) as Hin.
  split; [exact Hopen|]. by rewrite Hreq.
Defined.

(** X4. On a connection, the configuration being set, the new socket is
    sent the pending requests that its device has not been told of, each as
    an [input_required] message with the session id, project tag, prompt,
    options and input type of the request, and then the handshake
    acknowledgement, which is the last message written.  The
    acknowledgement carries the listener's id and name, the version 1.0.0
    and the size of the client table after the connection, sessions marked
    disconnected included.  The handlers of the socket are installed for the
    connecting device. *)
Theorem pending_requests_come_before_the_ack qd qn qt now m cfg :
  reachable m →
  config m = Some cfg →
  let dev := orElse qd "unknown" in
  let name := orElse qn "Unknown Device" in
  let m' := onConnection qd qn qt now m in
  ∃ (msgs : list MonitoringMessage) s,
    sockets m' !! nextSocket m = Some s
    ∧ listeners s = Some (dev, name)
    ∧ sent s
      = msgs ++ [mkMessage handshake_ack now
                   (Some (PHandshakeAck
                            (mkHandshakeAck (listener_id cfg)
                               (listener_friendly_name cfg) "1.0.0"
                               (size (clients m')))))]
    ∧ ∀ msg, msg ∈ msgs ↔
             (∃ sid request, pendingRequests m !! sid = Some request
                            ∧ (dev ∉ notifiedDevices request)
                            ∧ msg
                              = mkMessage input_required now
                                  (Some (PInputRequired
                                           (mkInputRequired (sessionId request)
                                              (projectTag request)
                                              (prompt request)
                                              (options request)
                                              (inputType request))))).
Proof. intros Hreach. apply onConnection_ack. by apply reachable_wf. Qed.

(** A second phone connects while the request of the sample run is
    pending. *)
Lemma pending_requests_come_before_the_ack_witness :
  let m := run oneRequest newManager in
  let m' := onConnection (Some "phone-2") (Some "Tablet") None 6000 m in
  (sent <$> sockets m' !! 1%nat)
  = Some [mkMessage input_required 6000
            (Some (PInputRequired
                     (mkInputRequired "input_5000_k3x9aa" "proj"
                        "Choose 1, 2, or 3" ["1"; "2"; "3"] numeric)));
          mkMessage handshake_ack 6000
            (Some (PHandshakeAck (mkHandshakeAck "listener-1" "Desk" "1.0.0" 2)))].
Proof.
  intros m m'.
  destruct (pending_requests_come_before_the_ack (Some "phone-2") (Some "Tablet")
              None 6000 m sampleConfig) as (msgs & s & Hs & _ & Hsent & _).
  - by exists oneRequest.
  - vm_compute. reflexivity.
  - vm_compute. reflexivity.
Defined.

(** X5. Two heartbeat rounds with no pong in between terminate the open
    socket of a registered client: it is left closing and marked terminated,
    nothing more has been written to it, and the client stays in the table.
    If the client was alive and its pong arrives between the two rounds, the
    socket has been pinged twice and is still the open channel of an active
    session. *)
Theorem silent_device_is_terminated m h dev name c s now :
  reachable m →
  is_Some (intervals m !! h) →
  clients m !! dev = Some c →
  sockets m !! ws c = Some s →
  readyState s = OPEN →
  let silent := run [Tick h; Tick h] m in
  let ponged := run [Tick h; Pong (ws c) now; Tick h] m in
  (∃ c2 s2,
     clients silent !! dev = Some c2 ∧ ws c2 = ws c
     ∧ sockets silent !! ws c = Some s2
     ∧ readyState s2 = CLOSING ∧ terminated s2 = true ∧ sent s2 = sent s)
  ∧ (isAlive c = true → listeners s = Some (dev, name) →
     sockets ponged !! ws c = Some (ws_ping (ws_ping s))
     ∧ ∃ c2, clients ponged !! dev = Some c2 ∧ ws c2 = ws c
             ∧ status (session c2) = active).
Proof.
  intros Hreach Hh Hc Hs Hopen silent ponged.
  destruct (tick_live h m Hh) as [Htick1 Hh1].
  pose proof (reachable_step m (Tick h) Hreach) as Hreach1.
  cbn [step] in Hreach1.
  pose proof (checkHeartbeats_spec m (co_ws _ (reachable_coherent _ Hreach)) dev c Hc)
    as H1.
  rewrite (isOpen_lookup m (ws c) s Hs), bool_decide_eq_true_2 in H1 by done.
  split.
  - subst silent. cbn [run foldl step].
    destruct (tick_live h (tick h m) Hh1) as [-> _].
    pose proof (checkHeartbeats_spec (tick h m)
                  (co_ws _ (reachable_coherent _ Hreach1))) as H2.
    rewrite Htick1 in *.
    destruct (isAlive c) eqn:Halive; simpl in H1; destruct H1 as [Hc1 Hs1];
      rewrite Hs in Hs1; simpl in Hs1.
    + specialize (H2 dev (setAlive false c) Hc1). simpl in H2.
      rewrite (isOpen_lookup _ _ _ Hs1), bool_decide_eq_true_2 in H2 by done.
      destruct H2 as [Hc2 Hs2]. rewrite Hs1 in Hs2. simpl in Hs2.
      eexists _, _. split; [exact Hc2|]. split; [done|]. split; [exact Hs2|].
      unfold ws_terminate, ws_ping. simpl. by rewrite Hopen.
    + specialize (H2 dev c Hc1). rewrite Halive in H2. simpl in H2.
      rewrite (isOpen_lookup _ _ _ Hs1) in H2.
      rewrite bool_decide_eq_false_2 in H2
        by (unfold ws_terminate; rewrite Hopen; done).
      destruct H2 as [Hc2 Hs2]. rewrite Hs1 in Hs2.
      eexists _, _. split; [exact Hc2|]. split; [done|]. split; [exact Hs2|].
      unfold ws_terminate. by rewrite Hopen.
  - intros Halive Hl. subst ponged. cbn [run foldl step].
    rewrite Halive in H1. simpl in H1. destruct H1 as [Hc1 Hs1].
    rewrite Hs in Hs1. simpl in Hs1. rewrite <- Htick1 in Hc1, Hs1.
    set (m1 := tick h m) in *.
    assert (Hpong : onPong (ws c) now m1
              = set_clients
                  (<[dev := setAlive true
                              (withSession (setStatus active)
                                 (withSession (touch now) (setAlive false c)))]>
                     (clients m1)) m1).
    { unfold onPong. rewrite Hs1. simpl. rewrite Hl, Hc1. done. }
    pose proof (reachable_step m1 (Pong (ws c) now) Hreach1) as Hreach2.
    cbn [step] in Hreach2.
    set (m2 := onPong (ws c) now m1) in *.
    assert (Hh2 : is_Some (intervals m2 !! h)) by (by rewrite Hpong).
    destruct (tick_live h m2 Hh2) as [-> _].
    assert (Hc2 : clients m2 !! dev
              = Some (setAlive true
                        (withSession (setStatus active)
                           (withSession (touch now) (setAlive false c)))))
      by (rewrite Hpong; simpl; apply lookup_insert_eq).
    assert (Hs2 : sockets m2 !! ws c = Some (ws_ping s)) by (by rewrite Hpong).
    pose proof (checkHeartbeats_spec m2
                  (co_ws _ (reachable_coherent _ Hreach2)) dev _ Hc2) as H3.
    simpl in H3.
    rewrite (isOpen_lookup _ _ _ Hs2), bool_decide_eq_true_2 in H3 by done.
    destruct H3 as [Hc3 Hs3]. rewrite Hs2 in Hs3. simpl in Hs3.
    split; [exact Hs3|]. eexists. split; [exact Hc3|]. done.
Qed.

Lemma silent_device_is_terminated_witness :
  let m := run onePhone newManager in
  let silent := run [Tick 0; Tick 0] m in
  let ponged := run [Tick 0; Pong 0 31000; Tick 0] m in
  isOpen m 0 = true
  ∧ isOpen ponged 0 = true
  ∧ ∃ c2 s2,
      clients silent !! "phone-1" = Some c2 ∧ ws c2 = 0%nat
      ∧ sockets silent !! 0%nat = Some s2
      ∧ readyState s2 = CLOSING ∧ terminated s2 = true.
Proof.
  intros m silent ponged.
  destruct (silent_device_is_terminated m 0 "phone-1" "Phone"
              (mkClient 0 (mkSession "phone-1" "Phone" None 1000 1000 active 0) true)
              (mkSocket OPEN
                 [handshakeAck sampleConfig 1000 m] 0 None false
                 (Some ("phone-1", "Phone"))) 31000)
    as [(c2 & s2 & Hc2 & Hws & Hs2 & Hrs & Hterm & _) Hponged].
  - by exists onePhone.
  - vm_compute. eauto.
  - vm_compute. reflexivity.
  - vm_compute. reflexivity.
  - reflexivity.
  - destruct (Hponged eq_refl eq_refl) as [Hs _].
    split; [vm_compute; reflexivity|]. split.
    + unfold isOpen. simpl ws in Hs. fold ponged in Hs. rewrite Hs. reflexivity.
    + exists c2, s2. repeat split; assumption.
Defined.

(** X6. When the socket of a registered device closes, its session is
    marked disconnected and an eviction timer of [SESSION_TIMEOUT] is armed.
    If the timer fires next, the client is deleted; the pending requests and
    the push tokens stay.  If a pong of the device arrives first, or the
    device connects again first (under its id, which is then not empty), the
    timer finds the session active and leaves it in the table. *)
Theorem closed_session_expires m h hp dev name name' c qn qt now :
  reachable m →
  sockets m !! h ≫= listeners = Some (dev, name) →
  sockets m !! hp ≫= listeners = Some (dev, name') →
  clients m !! dev = Some c →
  dev ≠ "" →
  let m1 := step m (Close h) in
  let tid := nextTimer m in
  let expired := step m1 (TimerDue tid) in
  let ponged := run [Pong hp now; TimerDue tid] m1 in
  let returned := run [Connection (Some dev) qn qt now; TimerDue tid] m1 in
  (clients m1 !! dev = Some (withSession (setStatus disconnected) c)
   ∧ timers m1 !! tid = Some (mkTimer SESSION_TIMEOUT (SessionExpiry dev)))
  ∧ (clients expired = delete dev (clients m)
     ∧ pendingRequests expired = pendingRequests m
     ∧ deviceApnsTokens expired = deviceApnsTokens m)
  ∧ (∃ c2, clients ponged !! dev = Some c2 ∧ ws c2 = ws c
           ∧ status (session c2) = active)
  ∧ (∃ c2, clients returned !! dev = Some c2 ∧ ws c2 = nextSocket m
           ∧ status (session c2) = active
           ∧ startTime (session c2) = startTime (session c)).
Proof.
  intros Hreach Hl Hlp Hc Hdev m1 tid expired ponged returned.
  assert (Hm1 : m1 = onClose h m) by done.
  rewrite (onClose_registered h dev name c m Hl Hc) in Hm1.
  assert (Hc1 : clients m1 !! dev = Some (withSession (setStatus disconnected) c))
    by (rewrite Hm1; simpl; apply lookup_insert_eq).
  assert (Ht1 : timers m1 !! tid = Some (mkTimer SESSION_TIMEOUT (SessionExpiry dev)))
    by (rewrite Hm1; simpl; apply lookup_insert_eq).
  split; [done|]. split; [|split].
  - subst expired. cbn [step]. unfold fireTimer. rewrite Ht1. simpl.
    rewrite Hc1. simpl. rewrite Hm1. simpl.
    split; [|done]. by rewrite delete_insert_eq.
  - subst ponged. cbn [run foldl step].
    assert (Hlp1 : sockets m1 !! hp ≫= listeners = Some (dev, name')).
    { rewrite Hm1. simpl. destruct (decide (h = hp)) as [->|Hne].
      - rewrite lookup_alter_eq. by destruct (sockets m !! hp).
      - by rewrite lookup_alter_ne. }
    unfold onPong. rewrite Hlp1, Hc1. unfold fireTimer. simpl.
    rewrite Ht1. simpl. rewrite lookup_insert_eq. simpl.
    eexists. rewrite lookup_insert_eq. done.
  - subst returned. cbn [run foldl step].
    pose proof (reachable_step m (Close h) Hreach) as Hreach1. fold m1 in Hreach1.
    destruct (onConnection_spec (Some dev) qn qt now m1 (reachable_wf _ Hreach1))
      as (Hcl & _).
    destruct (handleConnection_timers (nextSocket m1) (Some dev) qn qt now
                (set_nextSocket (S (nextSocket m1))
                   (set_sockets (<[nextSocket m1 := freshSocket]> (sockets m1)) m1)))
      as [Ht2 _].
    change (handleConnection _ _ _ _ _ _) with (onConnection (Some dev) qn qt now m1)
      in Ht2.
    simpl in Ht2.
    assert (Hor : orElse (Some dev) "unknown" = dev).
    { unfold orElse, truthy. destruct (String.eqb_spec dev ""); done. }
    rewrite Hor in Hcl.
    set (m2 := onConnection (Some dev) qn qt now m1) in *.
    unfold fireTimer. rewrite Ht2, Ht1. simpl. rewrite Hcl, lookup_insert_eq.
    simpl. rewrite Hc1. simpl. rewrite Hcl.
    eexists. rewrite lookup_insert_eq. split; [done|]. simpl.
    rewrite Hc1. simpl. split; [by rewrite Hm1|done].
Qed.

Lemma closed_session_expires_witness :
  let m := run onePhone newManager in
  let m1 := step m (Close 0) in
  clients m1 !! "phone-1"
  = Some (mkClient 0 (mkSession "phone-1" "Phone" None 1000 1000 disconnected 0)
            true)
  ∧ timers m1 !! 1%nat = Some (mkTimer 300000 (SessionExpiry "phone-1"))
  ∧ clients (step m1 (TimerDue 1)) = ∅.
Proof.
  intros m m1.
  destruct (closed_session_expires m 0 0 "phone-1" "Phone" "Phone"
              (mkClient 0 (mkSession "phone-1" "Phone" None 1000 1000 active 0) true)
              (Some "Phone") None 9000)
    as ([Hc1 Ht1] & (Hgone & _) & _).
  - by exists onePhone.
  - vm_compute. reflexivity.
  - vm_compute. reflexivity.
  - vm_compute. reflexivity.
  - done.
  - split; [exact Hc1|]. split; [exact Ht1|].
    etrans; [exact Hgone|]. vm_compute. reflexivity.
Defined.

(** X7. The close handler looks the client up by device id, not by
    socket, and a connection does not clear the eviction timer of its
    device.  When a device has an open channel and the ['close'] event of
    one of its earlier sockets arrives, the session of the open channel is
    marked disconnected.  If an eviction timer that an earlier close of the
    device armed then fires before a pong, the client is deleted although
    its socket is open, and every later message from that socket, an answer
    included, is dropped. *)
Theorem stale_close_evicts_live_session m old tid d dev name name' c data now :
  reachable m →
  sockets m !! old ≫= listeners = Some (dev, name) →
  clients m !! dev = Some c →
  old ≠ ws c →
  isOpen m (ws c) = true →
  sockets m !! ws c ≫= listeners = Some (dev, name') →
  timers m !! tid = Some (mkTimer d (SessionExpiry dev)) →
  let m1 := step m (Close old) in
  let m2 := step m1 (TimerDue tid) in
  (clients m1 !! dev = Some (withSession (setStatus disconnected) c)
   ∧ isOpen m1 (ws c) = true)
  ∧ (clients m2 !! dev = None ∧ isOpen m2 (ws c) = true)
  ∧ step m2 (Message (ws c) data now) = m2.
Proof.
  intros Hreach Hl Hc Hne Hopen Hlc Htid m1 m2.
  pose proof (wf_timers _ (reachable_wf _ Hreach) _ _ Htid) as Hlt.
  assert (Hm1 : m1 = onClose old m) by done.
  rewrite (onClose_registered old dev name c m Hl Hc) in Hm1.
  assert (Hs1 : sockets m1 !! ws c = sockets m !! ws c).
  { rewrite Hm1. simpl. by rewrite lookup_alter_ne. }
  assert (Hc1 : clients m1 !! dev = Some (withSession (setStatus disconnected) c))
    by (rewrite Hm1; simpl; apply lookup_insert_eq).
  assert (Ht1 : timers m1 !! tid = Some (mkTimer d (SessionExpiry dev))).
  { rewrite Hm1. simpl. rewrite lookup_insert_ne by lia. done. }
  assert (Hm2 : m2 = set_clients (delete dev (clients m1))
                       (set_timers (delete tid (timers m1)) m1)).
  { subst m2. cbn [step]. unfold fireTimer. rewrite Ht1. simpl.
    rewrite Hc1. done. }
  assert (Hs2 : sockets m2 !! ws c = sockets m !! ws c) by (by rewrite Hm2).
  assert (Hc2 : clients m2 !! dev = None)
    by (rewrite Hm2; simpl; apply lookup_delete_eq).
  split; [|split].
  - split; [done|]. unfold isOpen in *. by rewrite Hs1.
  - split; [done|]. unfold isOpen in *. by rewrite Hs2.
  - cbn [step]. unfold onMessage. rewrite Hs2, Hlc.
    destruct data as [message|]; [|done].
    unfold handleMessage. by rewrite Hc2.
Qed.

(** The run [staleClose]: the phone is on its third socket when the
    ['close'] event of the second arrives, and the timer that the close of
    the first armed is due a second later. *)
Lemma stale_close_evicts_live_session_witness :
  let m := run staleCloseSetup newManager in
  let m2 := run [Close 1; TimerDue 1] m in
  isOpen m 2 = true
  ∧ clients m2 !! "phone-1" = None
  ∧ isOpen m2 2 = true
  ∧ step m2 (Message 2 (Some (inputResponse "input_5000_k3x9aa" "2" 303000))
               303000)
    = m2.
Proof.
  intros m m2.
  assert (Hopen : isOpen m 2 = true) by (vm_compute; reflexivity).
  destruct (stale_close_evicts_live_session m 1 1 300000 "phone-1" "Phone" "Phone"
              (mkClient 2 (mkSession "phone-1" "Phone" None 1000 300020 active 2)
                 true)
              (Some (inputResponse "input_5000_k3x9aa" "2" 303000)) 303000)
    as (_ & [Hgone Hstill] & Hdropped).
  - by eexists.
  - vm_compute. reflexivity.
  - vm_compute. reflexivity.
  - discriminate.
  - exact Hopen.
  - vm_compute. reflexivity.
  - vm_compute. reflexivity.
  - split; [exact Hopen|]. split; [exact Hgone|]. split; [exact Hstill|].
    exact Hdropped.
Defined.

(** X8. Nothing is written to a socket that is not open.  Whatever the
    event, a socket that is closing or closed keeps its messages, its pings,
    its close frame and its handlers; only its own ['close'] event changes
    it, to closed. *)
Theorem closed_sockets_are_left_alone m e h s :
  reachable m →
  sockets m !! h = Some s →
  readyState s ≠ OPEN →
  sockets (step m e) !! h
  = Some match e with
         | Close h' => if decide (h' = h) then ws_closed s else s
         | _ => s
         end.
Proof.
  intros Hreach Hs Hclosed.
  by apply still_step; [|apply reachable_wf|].
Qed.

(** The first socket of a phone that has connected again is closing: the
    next request is not written to it. *)
Lemma closed_sockets_are_left_alone_witness :
  let m := run (onePhone ++ [Connection (Some "phone-1") (Some "Phone") None 2000])
             newManager in
  let e := RequestInput "proj" "Continue? (y/n)" [] yesno None 5000 "k3x9aa" in
  (readyState <$> sockets m !! 0%nat) = Some CLOSING
  ∧ sockets (step m e) !! 0%nat = sockets m !! 0%nat.
Proof.
  intros m e.
  assert (Hs : sockets m !! 0%nat
            = Some (mkSocket CLOSING [handshakeAck sampleConfig 1000
                                        (run onePhone newManager)]
                      0 (Some None) false (Some ("phone-1", "Phone"))))
    by (vm_compute; reflexivity).
  pose proof (closed_sockets_are_left_alone m e 0 _ ltac:(by eexists) Hs
                ltac:(discriminate)) as Hstep.
  split; [by rewrite Hs|]. by rewrite Hstep, Hs.
Defined.

(** X9. As long as a device stays registered, an event leaves its
    session filed under its own device id, with the start time unchanged.  A
    connection of that device moves it to the new socket and adds one to its
    reconnect count; no other event changes its socket or the count. *)
Theorem session_identity_is_stable m e dev c c' :
  reachable m →
  clients m !! dev = Some c →
  clients (step m e) !! dev = Some c' →
  deviceId (session c') = dev
  ∧ startTime (session c') = startTime (session c)
  ∧ reconnectAttempts (session c')
    = (if connects dev e then S (reconnectAttempts (session c))
       else reconnectAttempts (session c))
  ∧ ws c' = (if connects dev e then nextSocket m else ws c).
Proof.
  intros Hreach Hc Hc'.
  pose proof (reachable_coherent _ (reachable_step m e Hreach)) as Hco'.
  split; [by apply (co_id _ Hco')|].
  pose proof (step_kept m e) as Hk.
  assert (Hrest : connects dev e = false → kept m (step m e) →
            startTime (session c') = startTime (session c)
            ∧ reconnectAttempts (session c') = reconnectAttempts (session c)
            ∧ ws c' = ws c).
  { intros _ Hkept. destruct (Hkept _ _ Hc') as (c0 & Hc0 & Hid).
    unfold identity in Hid. rewrite Hc in Hc0. injection Hc0 as <-.
    repeat split; congruence. }
  destruct e as [np cfg|qd qn qt now|h data now|h now|h|h|h
                 |tag question opts ity timeoutMs now rnd|sid| |p now];
    try (destruct (Hrest eq_refl Hk) as (-> & -> & ->); done).
  clear Hrest Hk. cbn [step connects] in *.
  destruct (onConnection_spec qd qn qt now m (reachable_wf _ Hreach)) as (Hcl & _).
  rewrite Hcl in Hc'. case_bool_decide as Hdev.
  - subst dev. rewrite lookup_insert_eq in Hc'. injection Hc' as <-.
    simpl. unfold installed. by rewrite Hc.
  - rewrite lookup_insert_ne in Hc' by done. rewrite Hc in Hc'.
    by injection Hc' as <-.
Qed.

Lemma session_identity_is_stable_witness :
  let m := run onePhone newManager in
  let e := Connection (Some "phone-1") (Some "Phone (again)") None 9000 in
  let c' := mkClient 1 (mkSession "phone-1" "Phone (again)" None 1000 9000
                          active 1) true in
  clients (step m e) !! "phone-1" = Some c'
  ∧ startTime (session c') = 1000
  ∧ reconnectAttempts (session c') = 1%nat
  ∧ ws c' = 1%nat.
Proof.
  intros m e c'.
  assert (Hc' : clients (step m e) !! "phone-1" = Some c')
    by (vm_compute; reflexivity).
  destruct (session_identity_is_stable m e "phone-1"
              (mkClient 0 (mkSession "phone-1" "Phone" None 1000 1000 active 0)
                 true) c')
    as (_ & Hstart & Hcount & Hws).
  - by exists onePhone.
  - vm_compute. reflexivity.
  - exact Hc'.
  - split; [exact Hc'|]. split; [exact Hstart|]. split; [exact Hcount|exact Hws].
Defined.

(** X10. In every reachable state the push token that a session shows is
    not empty, and is the token that the durable table holds for the
    device. *)
Theorem session_token_is_the_durable_one m dev c t :
  reachable m →
  clients m !! dev = Some c →
  apnsToken (session c) = Some t →
  t ≠ "" ∧ deviceApnsTokens m !! dev = Some t.
Proof. intros Hreach. apply (co_token _ (reachable_coherent _ Hreach)). Qed.

Lemma session_token_is_the_durable_one_witness :
  deviceApnsTokens (run phoneGone newManager) !! "phone-1" = Some "a1b2c3d4e5f6".
Proof.
  apply (session_token_is_the_durable_one (run phoneGone newManager) "phone-1"
           (mkClient 0 (mkSession "phone-1" "Phone" (Some "a1b2c3d4e5f6")
                          1000 1000 disconnected 0) true) "a1b2c3d4e5f6").
  - by exists phoneGone.
  - vm_compute. reflexivity.
  - reflexivity.
Defined.

(** X11. After [initialize] on a manager without a provider,
    [isApnsEnabled] holds exactly when the configuration enables APNs, gives
    a non-empty key path, key id, team id and bundle id, and the constructor
    of the provider did not throw.  [sendApnsPush] then gets past its guard:
    it calls [provider.send] once, for the given token, with a notification
    whose topic is the configured bundle id, whose alert body is the prompt
    and which expires an hour later. *)
Theorem apns_enabled_means_pushes_go_out newProvider cfg m token payload now :
  apnsProvider m = None →
  let m' := initialize newProvider cfg m in
  (isApnsEnabled m' = true
   ↔ ∃ c provider,
       monitoring cfg ≫= apns = Some c
       ∧ enabled c = true
       ∧ truthy (key_path c) = true ∧ truthy (key_id c) = true
       ∧ truthy (team_id c) = true ∧ truthy (bundle_id c) = true
       ∧ newProvider (mkProviderOptions (default "" (key_path c))
                        (default "" (key_id c)) (default "" (team_id c))
                        (default false (production c)))
         = Normal provider)
  ∧ (isApnsEnabled m' = true →
     ∃ bundle provider,
       configuredBundleId m' = Some bundle ∧ bundle ≠ ""
       ∧ apnsProvider m' = Some provider
       ∧ let notification :=
           {| expiry := now / 1000 + 3600; badge := 1; sound := "default";
              alertTitle := "Claude Needs Input";
              alertBody := irPrompt payload;
              topic := bundle;
              nSessionId := irSessionId payload;
              nProjectTag := irProjectTag payload;
              nOptions := irOptions payload;
              nInputType := irInputType payload; pushType := "alert" |} in
         (sendApnsPush token payload now m').1
         = Some (send provider notification token)
         ∧ pushes (sendApnsPush token payload now m').2
           = pushes m' ++ [(token, notification)]).
Proof.
  intros Hnone m'.
  destruct (initialize_apns newProvider cfg m) as (Hcfg & Hprov & Hpushes).
  fold m' in Hcfg, Hprov, Hpushes.
  assert (Henabled : isApnsEnabled m' = true
    ↔ ∃ c provider,
        monitoring cfg ≫= apns = Some c
        ∧ enabled c = true
        ∧ truthy (key_path c) = true ∧ truthy (key_id c) = true
        ∧ truthy (team_id c) = true ∧ truthy (bundle_id c) = true
        ∧ newProvider (mkProviderOptions (default "" (key_path c))
                         (default "" (key_id c)) (default "" (team_id c))
                         (default false (production c)))
          = Normal provider).
  { unfold isApnsEnabled. rewrite bool_decide_eq_true, Hprov.
    unfold initializeApns.
    destruct (monitoring cfg ≫= apns) as [c|].
    2: { rewrite Hnone. split; [by intros [? ?]|by intros (? & ? & ? & _)]. }
    destruct (enabled c) eqn:He; simpl.
    2: { rewrite Hnone. split; [by intros [? ?]|].
         intros (c' & ? & [= <-] & ? & _). congruence. }
    destruct (truthy (key_path c)) eqn:H1, (truthy (key_id c)) eqn:H2,
      (truthy (team_id c)) eqn:H3, (truthy (bundle_id c)) eqn:H4; simpl;
      try (rewrite Hnone; split; [by intros [? ?]|];
           intros (c' & ? & [= <-] & ? & ? & ? & ? & ? & _); congruence).
    destruct (newProvider _) as [provider|e] eqn:Hnew; simpl.
    - split; [|done]. intros _. exists c, provider. done.
    - rewrite Hnone. split; [by intros [? ?]|].
      intros (c' & ? & [= <-] & _ & _ & _ & _ & _ & Hnew'). congruence. }
  split; [exact Henabled|].
  intros Hon. pose proof Hon as Hsome.
  unfold isApnsEnabled in Hsome. apply bool_decide_eq_true in Hsome as [pr Hpr].
  apply Henabled in Hon as (c & provider & Hc & _ & _ & _ & _ & Hb & _).
  assert (Hbundle : configuredBundleId m' = bundle_id c).
  { unfold configuredBundleId. rewrite Hcfg. simpl.
    destruct (monitoring cfg) as [mc|]; [|done]. simpl in *. by rewrite Hc. }
  pose proof Hb as Hb'. apply truthy_Some in Hb' as (bundle & Hbid & Hne).
  exists bundle, pr. rewrite Hbundle. split; [done|]. split; [done|].
  split; [done|].
  destruct (sendApnsPush_spec token payload now m') as [_ Hp].
  rewrite Hpr, Hbundle, Hbid in Hp.
  destruct (String.eqb bundle "") eqn:Hempty; [by apply String.eqb_eq in Hempty|].
  exact Hp.
Qed.

Lemma apns_enabled_means_pushes_go_out_witness :
  let m' := initialize (λ _, Normal flakyProvider) apnsSampleConfig newManager in
  let payload := mkInputRequired "input_5000_k3x9aa" "proj" "Continue? (y/n)" []
                   yesno in
  let notification :=
    mkNotification 3605 1 "default" "Claude Needs Input" "Continue? (y/n)"
      "app.example.traveller" "input_5000_k3x9aa" "proj" [] yesno "alert" in
  isApnsEnabled m' = true
  ∧ (sendApnsPush "good-token" payload 5000 m').1
    = Some (Normal (mkSendResult ["good-token"] []))
  ∧ pushes (sendApnsPush "good-token" payload 5000 m').2
    = [("good-token", notification)].
Proof.
  intros m' payload notification.
  destruct (apns_enabled_means_pushes_go_out (λ _, Normal flakyProvider)
              apnsSampleConfig newManager "good-token" payload 5000)
    as [_ Hpush].
  - reflexivity.
  - assert (Hon : isApnsEnabled m' = true) by (vm_compute; reflexivity).
    split; [exact Hon|].
    destruct (Hpush Hon) as (bundle & provider & Hbundle & _ & Hprovider & Hcall & Hlog).
    vm_compute in Hbundle. injection Hbundle as <-.
    vm_compute in Hprovider. injection Hprovider as <-.
    split; [exact Hcall|exact Hlog].
Defined.

(** X12. [getInputTimeoutMinutes] gives back the minutes that were
    configured.  In every reachable state the timeout is a whole number of
    minutes; after [initialize] with a monitoring section it is that
    section's [input_timeout_minutes], unless this is 0, which leaves the
    timeout as it was. *)
Theorem timeout_minutes_round_trip m newProvider cfg mc :
  reachable m →
  monitoring cfg = Some mc →
  getInputTimeoutMinutes m * 60000 = inputTimeoutMs m
  ∧ getInputTimeoutMinutes (initialize newProvider cfg m)
    = (if bool_decide (input_timeout_minutes mc = 0)
       then getInputTimeoutMinutes m
       else input_timeout_minutes mc).
Proof.
  intros Hreach Hmc. unfold getInputTimeoutMinutes.
  destruct (reachable_minutes m Hreach) as [k Hk]. split.
  - rewrite Hk, Z.div_mul by done. done.
  - pose proof (step_inputTimeoutMs m (Initialize newProvider cfg)) as Hstep.
    cbn [step configuredTimeout] in Hstep. rewrite Hstep, Hmc.
    repeat case_bool_decide; try done.
    replace (input_timeout_minutes mc * 60 * 1000)
      with (input_timeout_minutes mc * 60000) by lia.
    by rewrite Z.div_mul.
Qed.

Lemma timeout_minutes_round_trip_witness :
  getInputTimeoutMinutes newManager = 30
  ∧ getInputTimeoutMinutes (initialize noProvider sampleConfig newManager) = 45.
Proof.
  destruct (timeout_minutes_round_trip newManager noProvider sampleConfig
              (mkMonitoringConfig 45 None)) as [_ Hafter].
  - by exists [].
  - reflexivity.
  - split; [reflexivity|exact Hafter].
Defined.

(** X13. The body of [GET /monitor/status].  [activeSessions] lists every
    registered session, those marked disconnected as well as those that
    [getActiveSessions] returns, each device once; [connectedDevices] is at
    most their number; [pendingRequests] is the size of the table, and
    [inputTimeoutMinutes] times 60000 is the timeout in milliseconds. *)
Theorem monitor_status_counts m :
  reachable m →
  let st := monitorStatus m in
  NoDup (deviceId <$> msActiveSessions st)
  ∧ length (msActiveSessions st) = size (clients m)
  ∧ (msConnectedDevices st ≤ length (msActiveSessions st))%nat
  ∧ (∀ s, s ∈ getActiveSessions m → s ∈ msActiveSessions st)
  ∧ msPendingRequests st = size (pendingRequests m)
  ∧ msInputTimeoutMinutes st * 60000 = inputTimeoutMs m.
Proof.
  intros Hreach st. pose proof (reachable_coherent _ Hreach) as Hco.
  subst st. unfold monitorStatus. simpl. split_and!.
  - rewrite getAllSessions_devices by done. apply NoDup_fst_map_to_list.
  - unfold getAllSessions. by rewrite !length_fmap, length_map_to_list.
  - unfold getConnectedDeviceCount, getAllSessions.
    rewrite length_fmap. apply length_filter.
  - intros s. unfold getActiveSessions, getAllSessions.
    rewrite !list_elem_of_fmap. intros (c & -> & Hc).
    exists c. split; [done|]. by apply list_elem_of_filter in Hc as [_ Hc].
  - done.
  - destruct (reachable_minutes m Hreach) as [k Hk].
    unfold getInputTimeoutMinutes. by rewrite Hk, Z.div_mul.
Qed.

Lemma monitor_status_counts_witness :
  let st := monitorStatus (run phoneGone newManager) in
  deviceId <$> msActiveSessions st = ["phone-1"]
  ∧ getActiveSessions (run phoneGone newManager) = []
  ∧ msConnectedDevices st = 0%nat
  ∧ NoDup (deviceId <$> msActiveSessions st).
Proof.
  intros st.
  destruct (monitor_status_counts (run phoneGone newManager)) as (Hnodup & _).
  - by exists phoneGone.
  - split; [vm_compute; reflexivity|]. split; [vm_compute; reflexivity|].
    split; [vm_compute; reflexivity|exact Hnodup].
Defined.

(** X14. The upgrade handler hands a request to the WebSocket server
    exactly when its path is [/monitor], its [token] parameter is the
    listener's auth token, that token is not empty, and the server is
    running; the manager then goes through a ['connection'] event.  In every
    other case the manager is left as it was. *)
Theorem upgrade_needs_the_token cfg pathname qToken qd qn qt now m :
  let result := onUpgrade cfg pathname qToken qd qn qt now m in
  (result.1 = Normal Upgraded
   ↔ pathname = "/monitor"
     ∧ qToken = Some (listener_auth_token cfg)
     ∧ listener_auth_token cfg ≠ ""
     ∧ wss m = true)
  ∧ (result.1 = Normal Upgraded → result.2 = step m (Connection qd qn qt now))
  ∧ (result.1 ≠ Normal Upgraded → result.2 = m).
Proof.
  simpl. unfold onUpgrade.
  destruct (String.eqb_spec pathname "/monitor") as [->|Hpath].
  2: { split; [|done]. split; [done|]. by intros [? _]. }
  destruct (truthy qToken) eqn:Htruthy; simpl.
  2: { split; [|done]. split; [done|]. intros (_ & -> & Hne & _).
       assert (truthy (Some (listener_auth_token cfg)) = true)
         by (apply truthy_Some; eauto).
       congruence. }
  apply truthy_Some in Htruthy as (t & -> & Hne). simpl.
  destruct (String.eqb_spec t (listener_auth_token cfg)) as [->|Hdiff]; simpl.
  2: { split; [|done]. split; [done|]. intros (_ & [= ->] & _). done. }
  destruct (wss m); simpl.
  - split; [|done]. split; [done|]. done.
  - split; [|done]. split; [done|]. by intros (_ & _ & _ & ?).
Qed.

(** X15. [authMiddleware] calls [next()] exactly when the listener's auth
    token is not empty and the [Authorization] header is ['Bearer ']
    followed by that token.  It throws, [crypto.timingSafeEqual] refusing
    buffers of different byte length, exactly when a token is configured and
    the presented one has as many characters but not as many UTF-8 bytes. *)
Theorem only_the_token_passes authorization cfg :
  let configured := listener_auth_token cfg in
  (authMiddleware authorization cfg = Normal next
   ↔ configured ≠ "" ∧ authorization = Some ("Bearer " +:+ configured))
  ∧ ((∃ e, authMiddleware authorization cfg = Throw e)
     ↔ configured ≠ ""
       ∧ ∃ token,
           authorization = Some ("Bearer " +:+ token)
           ∧ String.length token = String.length configured
           ∧ length (bufferFrom token) ≠ length (bufferFrom configured)).
Proof.
  intros configured. unfold authMiddleware. fold configured. cbv zeta.
  destruct (truthy authorization) eqn:Hauth; cbn [negb orb].
  2: { split.
       - split; [intros H; discriminate H|]. intros [_ ->]. done.
       - split; [intros [? H]; discriminate H|]. intros (_ & token & -> & _). done. }
  apply truthy_Some in Hauth as (header & -> & Hheader).
  change (default "" (Some header)) with header.
  remember (slice 7 header) as token eqn:Htoken.
  destruct (String.prefix "Bearer " header) eqn:Hprefix; cbn [negb orb].
  2: { assert (Hno : ∀ t, header ≠ "Bearer " +:+ t).
       { intros t Heq. rewrite Heq in Hprefix.
         assert (String.prefix "Bearer " ("Bearer " +:+ t) = true); [|congruence].
         apply prefix_slice. by rewrite (slice_app "Bearer "). }
       split.
       - split; [intros H; discriminate H|]. intros [_ [= ->]]. by destruct (Hno configured).
       - split; [intros [? H]; discriminate H|]. intros (_ & t & [= ->] & _).
         by destruct (Hno t). }
  apply prefix_slice in Hprefix. cbn [String.length] in Hprefix.
  rewrite <- Htoken in Hprefix.
  assert (Htok : ∀ t, Some header = Some ("Bearer " +:+ t) ↔ t = token).
  { intros t. split.
    - intros [= Heq]. rewrite Htoken, Heq. symmetry. apply (slice_app "Bearer ").
    - intros ->. by f_equal. }
  unfold truthy.
  destruct (String.eqb_spec configured "") as [Hempty|Hconf]; cbn [negb].
  { split.
    - split; [intros H; discriminate H|]. by intros [? _].
    - split; [intros [? H]; discriminate H|]. by intros [? _]. }
  pose proof (constantTimeCompare_true token configured) as Htrue.
  pose proof (constantTimeCompare_throws token configured) as Hthrow.
  destruct (constantTimeCompare token configured) as [[|]|e]; split.
  - split; [|done]. intros _. split; [done|]. apply Htok. symmetry.
    by apply Htrue.
  - split; [intros [? H]; discriminate H|]. intros (_ & t & Ht & Hlen & Hbytes).
    apply Htok in Ht as ->. destruct Hthrow as [_ Hthrow].
    by destruct Hthrow.
  - split; [intros H; discriminate H|]. intros [_ Ht]. apply Htok in Ht. symmetry in Ht.
    by apply Htrue in Ht.
  - split; [intros [? H]; discriminate H|]. intros (_ & t & Ht & Hlen & Hbytes).
    apply Htok in Ht as ->. destruct Hthrow as [_ Hthrow].
    by destruct Hthrow.
  - split; [intros H; discriminate H|]. intros [_ Ht]. apply Htok in Ht. symmetry in Ht.
    by apply Htrue in Ht.
  - split; [|eauto]. intros _. split; [done|]. exists token.
    split; [by apply Htok|]. apply Hthrow. eauto.
Qed.

(** X16. The status of [POST /input-request].  It is 400 for a missing or
    empty prompt, and 503 when no device is connected and no token is
    stored, the manager being left as it was in both cases.  It is 504 when
    the request is rejected by its deadline and 503 when it is cancelled,
    in both cases with the message of the error and the number of connected
    devices.  A resolved request is answered with the response, 'mobile' and
    the elapsed time. *)
Theorem input_request_status body now rnd m started finished :
  (truthy (rq_prompt body) = false →
   inputRequestCall body now rnd m
   = (inl (replyError 400
             (mkInputRequestError "Missing required field: prompt"
                (getConnectedDeviceCount m))), m))
  ∧ (truthy (rq_prompt body) = true →
     getConnectedDeviceCount m = 0%nat → deviceApnsTokens m = ∅ →
     inputRequestCall body now rnd m
     = (inl (replyError 503 (mkInputRequestError noRecipients 0)), m))
  ∧ (∀ e, inputRequestSettled started finished (Rejected e) m
          = replyError (match e with TimedOut _ => 504 | Cancelled => 503 end)
              (mkInputRequestError (errorMessage e) (getConnectedDeviceCount m)))
  ∧ (∀ answer,
       inputRequestSettled started finished (Resolved answer) m
       = replyJson (mkInputRequestResponse answer "mobile" (finished - started))).
Proof.
  split_and!.
  - intros Hprompt. unfold inputRequestCall. by rewrite Hprompt.
  - intros Hprompt Hnone Htokens. unfold inputRequestCall.
    rewrite Hprompt. cbn [negb]. cbv zeta.
    unfold requestMobileInput. rewrite Hnone, Htokens, map_size_empty.
    replace (bool_decide (0%nat = 0%nat) && negb (bool_decide (0 < 0)%nat))
      with true by (vm_compute; reflexivity).
    cbn [andb]. rewrite Hnone. reflexivity.
  - intros e. unfold inputRequestSettled. by rewrite failureStatus_errorMessage.
  - done.
Qed.

(** X17. A request that the handler passes on is pending under its
    session id, with the prompt of the body, the project tag or 'unknown',
    the options or none, and the input type of the body or, without one,
    numeric if there are options and text if not.  Its deadline timer is
    given [timeout_seconds] times 1000, and the timeout of the manager when
    [timeout_seconds] is missing or 0; the timer runs after that delay when
    the delay lies between 1 and 2147483647 milliseconds, and after one
    millisecond otherwise. *)
Theorem input_request_defaults body now rnd m p m' :
  inputRequestCall body now rnd m = (inr p, m') →
  let sid := newSessionId now rnd in
  let deadline :=
    match rq_timeout_seconds body with
    | Some s => if bool_decide (s = 0) then inputTimeoutMs m else s * 1000
    | None => inputTimeoutMs m
    end in
  let timer := mkTimer deadline (InputDeadline sid p deadline) in
  p = nextPromise m
  ∧ timers m' !! nextTimer m = Some timer
  ∧ runsAfter timer
    = (if bool_decide (1 ≤ deadline ≤ 2147483647) then deadline else 1)
  ∧ ∃ request,
      pendingRequests m' !! sid = Some request
      ∧ Some (prompt request) = rq_prompt body
      ∧ projectTag request = orElse (rq_project_tag body) "unknown"
      ∧ options request = default [] (rq_options body)
      ∧ inputType request
        = match rq_input_type body, options request with
          | Some ity, _ => ity
          | None, [] => text
          | None, _ :: _ => numeric
          end.
Proof.
  intros Hcall sid deadline timer.
  destruct (inputRequestCall_pending body now rnd m p m' Hcall)
    as (Hp & Htimer & Hrequest).
  by split_and!.
Qed.

Lemma input_request_defaults_witness :
  let m := run onePhone newManager in
  let body := mkInputRequestPayload None (Some "Continue? (y/n)") None None None in
  let m' := (inputRequestCall body 5000 "k3x9aa" m).2 in
  let timer :=
    mkTimer 2700000 (InputDeadline (newSessionId 5000 "k3x9aa") 0 2700000) in
  (inputRequestCall body 5000 "k3x9aa" m).1 = inr 0%nat
  ∧ timers m' !! 1%nat = Some timer
  ∧ runsAfter timer = 2700000.
Proof.
  intros m body m' timer.
  assert (Hcall : inputRequestCall body 5000 "k3x9aa" m = (inr 0%nat, m'))
    by (vm_compute; reflexivity).
  destruct (input_request_defaults body 5000 "k3x9aa" m 0%nat m' Hcall)
    as (_ & Htimer & Hruns & _).
  split; [by rewrite Hcall|]. split; [exact Htimer|exact Hruns].
Defined.

(** X18. A request that the handler passed on and that nobody answers.
    Up to its deadline the promise is unsettled.  When the deadline timer
    fires, the promise is rejected once, with the timeout error; the request
    leaves the table; and the reply of the handler is 504, with the message
    that names the deadline in seconds (for a deadline in the range in which
    [seconds] prints it as JavaScript does). *)
Theorem unanswered_request_times_out body now rnd m p m1 started finished :
  reachable m →
  inputRequestCall body now rnd m = (inr p, m1) →
  let deadline :=
    match rq_timeout_seconds body with
    | Some s => if bool_decide (s = 0) then inputTimeoutMs m else s * 1000
    | None => inputTimeoutMs m
    end in
  let m2 := step m1 (TimerDue (nextTimer m)) in
  settlements p m1 = []
  ∧ settlements p m2 = [Rejected (TimedOut deadline)]
  ∧ pendingRequests m2 !! newSessionId now rnd = None
  ∧ (- 10 ^ 15 < deadline < 10 ^ 15 →
     inputRequestSettled started finished (Rejected (TimedOut deadline)) m2
     = replyError 504
         (mkInputRequestError
            ("Mobile input request timed out after " +:+ seconds deadline
             +:+ " seconds")
            (getConnectedDeviceCount m2))).
Proof.
  intros Hreach Hcall deadline m2.
  destruct (inputRequestCall_pending body now rnd m p m1 Hcall)
    as (_ & Htimer & _). fold deadline in Htimer.
  assert (Hreach1 : reachable m1).
  { revert Hcall. unfold inputRequestCall.
    destruct (truthy (rq_prompt body)); cbn [negb]; [|done]. cbv zeta.
    match goal with
    | |- context [requestMobileInput ?a ?b ?c ?d ?e ?f ?g m] =>
      pose proof (reachable_step m (RequestInput a b c d e f g) Hreach) as Hr;
      cbn [step] in Hr;
      destruct (requestMobileInput a b c d e f g m) as [[p0|err] m0]
    end; [|done].
    by intros [= _ <-]. }
  destruct (wf_unsettled _ (reachable_wf _ Hreach1) _ _ _ _ _ Htimer) as [_ Hnone].
  assert (Hm2 : m2 = reject p (TimedOut deadline)
                       (set_pendingRequests
                          (delete (newSessionId now rnd) (pendingRequests m1))
                          (set_timers (delete (nextTimer m) (timers m1)) m1))).
  { subst m2. cbn [step]. unfold fireTimer. by rewrite Htimer. }
  split; [done|]. split; [|split].
  - rewrite Hm2, settlements_reject. rewrite decide_True by done.
    change (settlements p (set_pendingRequests _ _)) with (settlements p m1).
    by rewrite Hnone.
  - rewrite Hm2. simpl. apply lookup_delete_eq.
  - intros _. unfold inputRequestSettled. by rewrite failureStatus_errorMessage.
Qed.

Lemma unanswered_request_times_out_witness :
  let m := run onePhone newManager in
  let body := mkInputRequestPayload None (Some "Continue? (y/n)") None None
                (Some 90) in
  let m1 := (inputRequestCall body 5000 "k3x9aa" m).2 in
  let m2 := step m1 (TimerDue 1) in
  settlements 0 m2 = [Rejected (TimedOut 90000)]
  ∧ inputRequestSettled 5000 95000 (Rejected (TimedOut 90000)) m2
    = replyError 504
        (mkInputRequestError "Mobile input request timed out after 90 seconds" 1).
Proof.
  intros m body m1 m2.
  assert (Hcall : inputRequestCall body 5000 "k3x9aa" m = (inr 0%nat, m1))
    by (vm_compute; reflexivity).
  destruct (unanswered_request_times_out body 5000 "k3x9aa" m 0%nat m1 5000 95000
              ltac:(by eexists) Hcall) as (_ & Hsettled & _ & Hreply).
  split; [exact Hsettled|].
  assert (Hrange : - 10 ^ 15 < 90000 < 10 ^ 15) by lia.
  etrans; [exact (Hreply Hrange)|]. vm_compute. reflexivity.
Defined.

(** X19. [detectInputPattern] never reports the type text.  A yes/no
    detection carries the options Yes and No.  A numeric detection carries
    three options, each a non-empty string of digits, or none at all (the
    pattern [which.*?option] has no group). *)
Theorem detected_options txt :
  match detectInputPattern txt with
  | NotDetected => True
  | Detected yesno opts => opts = ["Yes"; "No"]
  | Detected numeric opts =>
    opts = [] ∨ (length opts = 3%nat ∧ Forall isNumber opts)
  | Detected text _ => False
  end.
Proof.
  pose proof (detectIn_spec INPUT_PATTERNS txt INPUT_PATTERNS_groups) as Hspec.
  unfold detectInputPattern.
  destruct (detectIn INPUT_PATTERNS txt) as [|ty opts]; [done|].
  destruct Hspec as (ps1 & r & ps2 & caps & Hps & _ & _ & Hcaps & ->).
  assert (Hin : (r, ty) ∈ INPUT_PATTERNS).
  { rewrite Hps. apply elem_of_app. right. left. }
  clear Hps. unfold INPUT_PATTERNS in Hin.
  assert (Hthree : groups r = [(1%nat, oneOrMore digit); (2%nat, oneOrMore digit); (3%nat, oneOrMore digit)] →
            groupCount r = 3%nat → ty = numeric →
            length (filterBoolean (slice1 r caps)) = 3%nat
            ∧ Forall isNumber (filterBoolean (slice1 r caps))).
  { intros Hg Hn _. unfold slice1. rewrite Hn.
    change (seq 1 3) with (([(1%nat, oneOrMore digit); (2%nat, oneOrMore digit);
                             (3%nat, oneOrMore digit)] : list (nat * Regex)).*1).
    rewrite <- Hg. replace 3%nat with (length (groups r)) at 1 by (by rewrite Hg).
    apply numbers_captured. apply Forall_forall. intros [i r'] Hi.
    destruct (Hcaps i r' Hi) as (t & Ht & Hl). exists t. split; [done|].
    rewrite Hg in Hi. simpl.
    repeat (apply elem_of_cons in Hi as [Hi|Hi]; [by injection Hi as -> ->|]).
    by apply elem_of_nil in Hi. }
  repeat (apply elem_of_cons in Hin as [Hin|Hin];
          [injection Hin as -> ->; first [done|by left|right; by apply Hthree]|]).
  by apply elem_of_nil in Hin.
Qed.

(** X20. [detectInputPattern] detects nothing exactly when no word of any
    of the eight patterns occurs in the text.  When it reports a type, this
    is the type of the first pattern of the list that has a word in the
    text. *)
Theorem detection_is_containment txt :
  (detectInputPattern txt = NotDetected
   ↔ ∀ r ty, (r, ty) ∈ INPUT_PATTERNS → ¬ occurs r txt)
  ∧ ∀ ty opts,
      detectInputPattern txt = Detected ty opts →
      ∃ ps1 r ps2,
        INPUT_PATTERNS = ps1 ++ (r, ty) :: ps2
        ∧ occurs r txt
        ∧ Forall (λ p, ¬ occurs p.1 txt) ps1.
Proof.
  pose proof (detectIn_spec INPUT_PATTERNS txt INPUT_PATTERNS_groups) as Hspec.
  unfold detectInputPattern.
  destruct (detectIn INPUT_PATTERNS txt) as [|ty opts].
  - split; [|done]. split; [|done]. intros _ r ty Hin.
    by apply (proj1 (Forall_forall _ _) Hspec (r, ty)).
  - destruct Hspec as (ps1 & r & ps2 & caps & Hps & Hps1 & Hocc & _).
    split.
    + split; [done|]. intros Hnone. destruct (Hnone r ty); [|done].
      rewrite Hps. apply elem_of_app. right. left.
    + intros ty' opts' [= <- <-]. by exists ps1, r, ps2.
Qed.
